(** * lofitui: the preset store and the menu state machine

    A shallow embedding of the preset store (the JSON-backed configuration:
    [Preset], [Config], [loadConfig], [saveConfig], [getDefaultConfig]) and
    of [main.go] (the Bubble Tea model with its [Init], [Update] and [View]
    functions, and the two commands that run the resolver and the player),
    together with the properties of the specification that concern them
    and with what else the code shows.

    Go strings are byte sequences: they are modelled by [string], whose
    characters are the 256 bytes, and an [int] is an integer of 64 bits.
    The standard library is modelled as far as the program uses it; what
    the widgets of Bubbles do with a message is left open, and the list is
    modelled as far as [main.go] calls it. *)

From Stdlib Require Import NArith ZArith List String Ascii Bool Arith Lia Zify.
Import ListNotations.
Local Open Scope string_scope.

(** ** Byte strings *)

Definition byte (n : N) : ascii := ascii_of_N n.

Fixpoint drop (n : nat) (s : string) : string :=
  match n, s with
  | O, _ => s
  | S k, EmptyString => EmptyString
  | S k, String _ t => drop k t
  end.

Fixpoint take (n : nat) (s : string) : string :=
  match n, s with
  | O, _ => EmptyString
  | S k, EmptyString => EmptyString
  | S k, String c t => String c (take k t)
  end.

(** [s != ""] and [s == t] on Go strings. *)
Definition nonempty (s : string) : bool :=
  match s with EmptyString => false | String _ _ => true end.

(** ** Package unicode/utf8 *)

Module utf8.

Definition RuneError : N := 0xFFFD.
Definition RuneSelf : N := 0x80.
Definition UTFMax : nat := 4.

(** The table [first] with [acceptRanges]: for a leading byte, the length of
    the sequence and the range allowed for its second byte. *)
Definition first (s0 : N) : option (nat * N * N) :=
  (if s0 <? 0xC2 then None
   else if s0 <=? 0xDF then Some (2%nat, 0x80, 0xBF)
   else if s0 =? 0xE0 then Some (3%nat, 0xA0, 0xBF)
   else if s0 <=? 0xEC then Some (3%nat, 0x80, 0xBF)
   else if s0 =? 0xED then Some (3%nat, 0x80, 0x9F)
   else if s0 <=? 0xEF then Some (3%nat, 0x80, 0xBF)
   else if s0 =? 0xF0 then Some (4%nat, 0x90, 0xBF)
   else if s0 <=? 0xF3 then Some (4%nat, 0x80, 0xBF)
   else if s0 =? 0xF4 then Some (4%nat, 0x80, 0x8F)
   else None)%N.

Definition outside (lo hi b : N) : bool := ((b <? lo) || (hi <? b))%N.

(** [DecodeRuneInString]: the first rune of [s] and its width in bytes;
    [(RuneError, 1)] when the encoding is ill-formed. *)
Definition DecodeRuneInString (s : string) : N * nat :=
  match s with
  | EmptyString => (RuneError, 0%nat)
  | String c0 t0 =>
    let s0 := N_of_ascii c0 in
    if (s0 <? RuneSelf)%N then (s0, 1%nat) else
    match first s0 with
    | None => (RuneError, 1%nat)
    | Some (sz, lo, hi) =>
      if (String.length s <? sz)%nat then (RuneError, 1%nat) else
      match t0 with
      | EmptyString => (RuneError, 1%nat)
      | String c1 t1 =>
        let s1 := N_of_ascii c1 in
        if outside lo hi s1 then (RuneError, 1%nat) else
        if (sz <=? 2)%nat
        then (N.lor (N.shiftl (N.land s0 0x1F) 6) (N.land s1 0x3F), 2%nat)
        else
        match t1 with
        | EmptyString => (RuneError, 1%nat)
        | String c2 t2 =>
          let s2 := N_of_ascii c2 in
          if outside 0x80 0xBF s2 then (RuneError, 1%nat) else
          if (sz <=? 3)%nat
          then (N.lor (N.shiftl (N.land s0 0x0F) 12)
                  (N.lor (N.shiftl (N.land s1 0x3F) 6) (N.land s2 0x3F)),
                3%nat)
          else
          match t2 with
          | EmptyString => (RuneError, 1%nat)
          | String c3 _ =>
            let s3 := N_of_ascii c3 in
            if outside 0x80 0xBF s3 then (RuneError, 1%nat) else
            (N.lor (N.shiftl (N.land s0 0x07) 18)
               (N.lor (N.shiftl (N.land s1 0x3F) 12)
                  (N.lor (N.shiftl (N.land s2 0x3F) 6) (N.land s3 0x3F))),
             4%nat)
          end
        end
      end
    end
  end.

Definition RuneStart (b : N) : bool := negb (N.land b 0xC0 =? 0x80)%N.

Definition byte_at (s : string) (i : nat) : N :=
  match String.get i s with Some c => N_of_ascii c | None => 0%N end.

(** [DecodeLastRuneInString]: the last rune of [s] and its width. The loop
    looks back over at most [UTFMax] bytes for the byte that starts it. *)
Definition DecodeLastRuneInString (s : string) : N * nat :=
  let end_ := String.length s in
  match end_ with
  | O => (RuneError, 0%nat)
  | S e1 =>
    let r := byte_at s e1 in
    if (r <? RuneSelf)%N then (r, 1%nat) else
    let lim := (end_ - UTFMax)%nat in
    (* [start] after the loop, [None] standing for an index below zero *)
    let fix back (n : nat) (start : nat) : option nat :=
      match n with
      | O => Some start
      | S n' =>
        if (lim <=? start)%nat
        then if RuneStart (byte_at s start) then Some start
             else match start with
                  | O => None
                  | S p => back n' p
                  end
        else Some start
      end in
    let start :=
      match e1 with
      | O => 0%nat
      | S p => match back 4%nat p with Some i => i | None => 0%nat end
      end in
    let '(r, size) := DecodeRuneInString (drop start s) in
    if (start + size =? end_)%nat then (r, size) else (RuneError, 1%nat)
  end.

(** [AppendRune]: the UTF-8 encoding of a rune; a surrogate or a value past
    [MaxRune] is encoded as [RuneError]. *)
Definition EncodeRune (r : N) : string :=
  (if r <=? 0x7F then String (byte r) ""
   else if r <=? 0x7FF then
     String (byte (N.lor 0xC0 (N.shiftr r 6)))
       (String (byte (N.lor 0x80 (N.land r 0x3F))) "")
   else if (0x10FFFF <? r) || ((0xD800 <=? r) && (r <=? 0xDFFF)) then
     String (byte 0xEF) (String (byte 0xBF) (String (byte 0xBD) ""))
   else if r <=? 0xFFFF then
     String (byte (N.lor 0xE0 (N.shiftr r 12)))
       (String (byte (N.lor 0x80 (N.land (N.shiftr r 6) 0x3F)))
          (String (byte (N.lor 0x80 (N.land r 0x3F))) ""))
   else
     String (byte (N.lor 0xF0 (N.shiftr r 18)))
       (String (byte (N.lor 0x80 (N.land (N.shiftr r 12) 0x3F)))
          (String (byte (N.lor 0x80 (N.land (N.shiftr r 6) 0x3F)))
             (String (byte (N.lor 0x80 (N.land r 0x3F))) ""))))%N.

(** [ValidString]. The fuel is the length of the string: every step
    consumes at least one byte. *)
Fixpoint valid_go (fuel : nat) (s : string) : bool :=
  match fuel with
  | O => negb (nonempty s)
  | S k =>
    match s with
    | EmptyString => true
    | String _ _ =>
      let '(r, size) := DecodeRuneInString s in
      if (r =? RuneError)%N && (size =? 1)%nat then false
      else valid_go k (drop size s)
    end
  end.

Definition ValidString (s : string) : bool := valid_go (String.length s) s.

(** [[]rune(s)]: an ill-formed byte converts to [RuneError]. *)
Fixpoint runes_go (fuel : nat) (s : string) : list N :=
  match fuel with
  | O => []
  | S k =>
    match s with
    | EmptyString => []
    | String _ _ =>
      let '(r, size) := DecodeRuneInString s in r :: runes_go k (drop size s)
    end
  end.

Definition runes (s : string) : list N := runes_go (String.length s) s.

(** [string(runes)] *)
Fixpoint string_of_runes (rs : list N) : string :=
  match rs with
  | [] => ""
  | r :: t => EncodeRune r ++ string_of_runes t
  end.

End utf8.

(** ** Packages unicode and strings *)

Module unicode.

(** [IsSpace]: the Latin-1 spaces, then the property White_Space. *)
Definition IsSpace (r : N) : bool :=
  (if r <=? 0xFF then
     (r =? 0x09) || (r =? 0x0A) || (r =? 0x0B) || (r =? 0x0C) || (r =? 0x0D)
     || (r =? 0x20) || (r =? 0x85) || (r =? 0xA0)
   else
     (r =? 0x1680) || ((0x2000 <=? r) && (r <=? 0x200A))
     || (r =? 0x2028) || (r =? 0x2029) || (r =? 0x202F) || (r =? 0x205F)
     || (r =? 0x3000))%N.

End unicode.

Module strings.

(** [TrimLeftFunc]: drop the leading runes that satisfy [f]. *)
Fixpoint TrimLeftFunc_go (fuel : nat) (f : N -> bool) (s : string) : string :=
  match fuel with
  | O => s
  | S k =>
    match s with
    | EmptyString => EmptyString
    | String _ _ =>
      let '(r, size) := utf8.DecodeRuneInString s in
      if f r then TrimLeftFunc_go k f (drop size s) else s
    end
  end.

Definition TrimLeftFunc (s : string) (f : N -> bool) : string :=
  TrimLeftFunc_go (String.length s) f s.

(** [TrimRightFunc]: drop the trailing runes that satisfy [f]. *)
Fixpoint TrimRightFunc_go (fuel : nat) (f : N -> bool) (s : string) : string :=
  match fuel with
  | O => s
  | S k =>
    match s with
    | EmptyString => EmptyString
    | String _ _ =>
      let '(r, size) := utf8.DecodeLastRuneInString s in
      if f r then TrimRightFunc_go k f (take (String.length s - size) s)
      else s
    end
  end.

Definition TrimRightFunc (s : string) (f : N -> bool) : string :=
  TrimRightFunc_go (String.length s) f s.

(** [TrimSpace(s)] is [TrimFunc(s, unicode.IsSpace)]; the loops over ASCII
    bytes that Go runs first change no result. *)
Definition TrimSpace (s : string) : string :=
  TrimRightFunc (TrimLeftFunc s unicode.IsSpace) unicode.IsSpace.

End strings.

(** ** Results and slices *)

Inductive result (E A : Type) : Type :=
| Ok (a : A)
| Err (e : E).
Arguments Ok {E A} a.
Arguments Err {E A} e.

(** A slice value is [nil] or a sequence, which may be empty: the two are
    told apart by [encoding/json] only. *)
Inductive slice (A : Type) : Type :=
| nil_slice
| Slice (l : list A).
Arguments nil_slice {A}.
Arguments Slice {A} l.

Definition elems {A} (s : slice A) : list A :=
  match s with nil_slice => [] | Slice l => l end.

Definition len {A} (s : slice A) : nat := List.length (elems s).

(** [append(s, x)] *)
Definition append {A} (s : slice A) (x : A) : slice A :=
  Slice (elems s ++ [x])%list.

(** [s[i] = x], for [i < len(s)] *)
Fixpoint list_set {A} (l : list A) (i : nat) (x : A) : list A :=
  match l, i with
  | [], _ => []
  | _ :: t, O => x :: t
  | a :: t, S j => a :: list_set t j x
  end.

(** [s[i] = x] *)
Definition slice_set {A} (s : slice A) (i : nat) (x : A) : slice A :=
  match s with
  | nil_slice => nil_slice
  | Slice l => Slice (list_set l i x)
  end.

(** [s[:i]] and [s[i:]], for [i <= len(s)] *)
Definition upto {A} (s : slice A) (i : nat) : slice A :=
  match s with
  | nil_slice => nil_slice
  | Slice l => Slice (firstn i l)
  end.

Definition from {A} (s : slice A) (i : nat) : slice A :=
  match s with
  | nil_slice => nil_slice
  | Slice l => Slice (skipn i l)
  end.

(** [append(s, t...)] *)
Definition append_slice {A} (s t : slice A) : slice A :=
  match s, elems t with
  | nil_slice, [] => nil_slice
  | _, l => Slice (elems s ++ l)%list
  end.

(** ** The preset store: the data *)

(** [type Preset struct] *)
Record Preset : Type := { Name : string; URL : string }.

(** [type Config struct] *)
Record Config : Type := { Presets : slice Preset }.

(** ** Package encoding/json, as far as [Config] goes

    [MarshalIndent] and [Unmarshal] at the type [Config], after Go's
    [encode.go], [indent.go], [scanner.go] and [decode.go]. *)

Module json.

Inductive error : Type :=
| SyntaxError
| UnmarshalTypeError.

Definition quote : string := String (byte 0x22) "".
Definition nl : string := String (byte 0x0A) "".
Definition replacement : string := utf8.EncodeRune utf8.RuneError.

(** *** Encoding *)

Definition hex (n : N) : string :=
  match String.get (N.to_nat n) "0123456789abcdef" with
  | Some c => String c ""
  | None => ""
  end.

(** [htmlSafeSet]: the ASCII bytes written as they are. *)
Definition htmlSafe (b : N) : bool :=
  ((0x20 <=? b) && (b <? 0x80)
   && negb ((b =? 0x22) || (b =? 0x26) || (b =? 0x3C) || (b =? 0x3E)
            || (b =? 0x5C)))%N.

(** How [appendString] writes an ASCII byte outside [htmlSafeSet] (since
    Go 1.22 a backspace and a form feed have their short escapes). *)
Definition escape (b : N) : string :=
  (if (b =? 0x5C) || (b =? 0x22) then String "\" (String (byte b) "")
   else if b =? 0x08 then "\b"
   else if b =? 0x0C then "\f"
   else if b =? 0x0A then "\n"
   else if b =? 0x0D then "\r"
   else if b =? 0x09 then "\t"
   else "\u00" ++ hex (N.shiftr b 4) ++ hex (N.land b 0xF))%N.

Definition ill_formed (s : string) : bool :=
  let '(r, size) := utf8.DecodeRuneInString s in
  ((r =? utf8.RuneError)%N && (size =? 1)%nat).

(** U+2028 and U+2029 are the sequences E2 80 A8 and E2 80 A9. *)
Definition line_sep (s : string) : option N :=
  match s with
  | String c0 (String c1 (String c2 _)) =>
    if ((N_of_ascii c0 =? 0xE2) && (N_of_ascii c1 =? 0x80)
        && ((N_of_ascii c2 =? 0xA8) || (N_of_ascii c2 =? 0xA9)))%N
    then Some (N.land (N_of_ascii c2) 0xF) else None
  | _ => None
  end.

(** The loop of [appendString]: what stands between the quotes. An
    ill-formed byte is written as the escape of U+FFFD. *)
Fixpoint appendString_go (fuel : nat) (src : string) : string :=
  match fuel with
  | O => ""
  | S k =>
    match src with
    | EmptyString => ""
    | String c t =>
      let b := N_of_ascii c in
      if (b <? utf8.RuneSelf)%N then
        if htmlSafe b then String c (appendString_go k t)
        else escape b ++ appendString_go k t
      else if ill_formed src then "\u" ++ "fffd" ++ appendString_go k t
      else
        let size := snd (utf8.DecodeRuneInString src) in
        match line_sep src with
        | Some d => "\u202" ++ hex d ++ appendString_go k (drop size src)
        | None => take size src ++ appendString_go k (drop size src)
        end
    end
  end.

Definition appendString (src : string) : string :=
  quote ++ appendString_go (String.length src) src ++ quote.

(** What [src] is once written by [appendString] and read back: every
    ill-formed byte has become U+FFFD, the rest is as it was. *)
Fixpoint coerce_go (fuel : nat) (src : string) : string :=
  match fuel with
  | O => ""
  | S k =>
    match src with
    | EmptyString => ""
    | String _ t =>
      if ill_formed src then replacement ++ coerce_go k t
      else
        let size := snd (utf8.DecodeRuneInString src) in
        take size src ++ coerce_go k (drop size src)
    end
  end.

Definition coerce (src : string) : string :=
  coerce_go (String.length src) src.

Definition coercePreset (p : Preset) : Preset :=
  {| Name := coerce (Name p); URL := coerce (URL p) |}.

Definition coerceConfig (config : Config) : Config :=
  {| Presets :=
       match Presets config with
       | nil_slice => nil_slice
       | Slice ps => Slice (map coercePreset ps)
       end |}.

(** Every name and every URL of the configuration is valid UTF-8. *)
Definition wellFormed (config : Config) : bool :=
  forallb (fun p => utf8.ValidString (Name p) && utf8.ValidString (URL p))
    (elems (Presets config)).

(** One element of the array, as [Indent] lays it out at depth 2. *)
Definition encodePreset (p : Preset) : string :=
  "    {" ++ nl
  ++ "      " ++ quote ++ "name" ++ quote ++ ": " ++ appendString (Name p)
  ++ "," ++ nl
  ++ "      " ++ quote ++ "url" ++ quote ++ ": " ++ appendString (URL p) ++ nl
  ++ "    }".

Fixpoint encodePresets (ps : list Preset) : string :=
  match ps with
  | [] => ""
  | [p] => encodePreset p
  | p :: rest => encodePreset p ++ "," ++ nl ++ encodePresets rest
  end.

Definition encodeSlice (s : slice Preset) : string :=
  match s with
  | nil_slice => "null"
  | Slice [] => "[]"
  | Slice ps => "[" ++ nl ++ encodePresets ps ++ nl ++ "  ]"
  end.

(** [json.MarshalIndent(config, "", "  ")]. It fails on no [Config]. *)
Definition MarshalIndent (config : Config) : result error string :=
  Ok ("{" ++ nl
      ++ "  " ++ quote ++ "presets" ++ quote ++ ": "
      ++ encodeSlice (Presets config) ++ nl
      ++ "}").

(** *** Decoding

    [Unmarshal] checks the whole input with the scanner, then decodes it.
    Here one reading of the input does both: [scan] gives the JSON value
    that a well-formed input denotes, and [decodeConfig] stores it in a
    [Config]. *)

#[local] Unset Elimination Schemes.

Inductive value : Type :=
| Null
| Bool (b : bool)
| Number
| Str (s : string)
| Array (vs : list value)
| Object (kvs : list (string * value)).

#[local] Set Elimination Schemes.

(** [isSpace] of the scanner. *)
Definition isSpace (c : ascii) : bool :=
  let b := N_of_ascii c in
  ((b =? 0x20) || (b =? 0x09) || (b =? 0x0D) || (b =? 0x0A))%N.

Fixpoint skip_ws (s : string) : string :=
  match s with
  | String c t => if isSpace c then skip_ws t else s
  | EmptyString => s
  end.

Definition hexval (c : ascii) : option N :=
  let b := N_of_ascii c in
  (if (0x30 <=? b) && (b <=? 0x39) then Some (b - 0x30)
   else if (0x61 <=? b) && (b <=? 0x66) then Some (b - 0x61 + 10)
   else if (0x41 <=? b) && (b <=? 0x46) then Some (b - 0x41 + 10)
   else None)%N.

(** The four hexadecimal digits of a [\u] escape. *)
Definition hex4 (s : string) : option (N * string) :=
  match s with
  | String a (String b (String c (String d t))) =>
    match hexval a, hexval b, hexval c, hexval d with
    | Some x, Some y, Some z, Some w => Some (x * 4096 + y * 256 + z * 16 + w, t)%N
    | _, _, _, _ => None
    end
  | _ => None
  end.

(** [getu4]: the value of the [\uXXXX] that [s] begins with. *)
Definition getu4 (s : string) : option (N * string) :=
  match s with
  | String "\"%char (String "u"%char t) => hex4 t
  | _ => None
  end.

Definition IsSurrogate (r : N) : bool := ((0xD800 <=? r) && (r <? 0xE000))%N.

(** [utf16.DecodeRune] *)
Definition utf16_DecodeRune (r1 r2 : N) : N :=
  (if (0xD800 <=? r1) && (r1 <? 0xDC00) && (0xDC00 <=? r2) && (r2 <? 0xE000)
   then N.lor (N.shiftl (r1 - 0xD800) 10) (r2 - 0xDC00) + 0x10000
   else utf8.RuneError)%N.

(** The byte a two-character escape stands for. *)
Definition unescape (e : ascii) : option ascii :=
  let b := N_of_ascii e in
  (if (b =? 0x22) || (b =? 0x5C) || (b =? 0x2F) then Some e
   else if b =? 0x62 then Some (byte 0x08)
   else if b =? 0x66 then Some (byte 0x0C)
   else if b =? 0x6E then Some (byte 0x0A)
   else if b =? 0x72 then Some (byte 0x0D)
   else if b =? 0x74 then Some (byte 0x09)
   else None)%N.

Definition prepend (p : string) (r : option (string * string))
  : option (string * string) :=
  match r with
  | Some (s, rest) => Some (p ++ s, rest)
  | None => None
  end.

(** A string literal, read from the byte after its opening quote: the
    string it denotes ([unquote]) and the input after its closing quote;
    [None] where the scanner reports a syntax error. A well-formed UTF-8
    sequence is kept, an ill-formed byte becomes U+FFFD. *)
Fixpoint unquote_go (fuel : nat) (s : string) : option (string * string) :=
  match fuel with
  | O => None
  | S k =>
    match s with
    | EmptyString => None
    | String c t =>
      let b := N_of_ascii c in
      if (b =? 0x22)%N then Some ("", t)
      else if (b =? 0x5C)%N then
        match t with
        | EmptyString => None
        | String e t1 =>
          match unescape e with
          | Some ch => prepend (String ch "") (unquote_go k t1)
          | None =>
            if (e =? "u")%char then
              match hex4 t1 with
              | None => None
              | Some (rr, t2) =>
                if IsSurrogate rr then
                  match getu4 t2 with
                  | Some (rr1, t3) =>
                    let dec := utf16_DecodeRune rr rr1 in
                    if (dec =? utf8.RuneError)%N
                    then prepend replacement (unquote_go k t2)
                    else prepend (utf8.EncodeRune dec) (unquote_go k t3)
                  | None => prepend replacement (unquote_go k t2)
                  end
                else prepend (utf8.EncodeRune rr) (unquote_go k t2)
              end
            else None
          end
        end
      else if (b <? 0x20)%N then None
      else if (b <? utf8.RuneSelf)%N then prepend (String c "") (unquote_go k t)
      else if ill_formed s then prepend replacement (unquote_go k t)
      else
        let size := snd (utf8.DecodeRuneInString s) in
        prepend (take size s) (unquote_go k (drop size s))
    end
  end.

Definition unquote (s : string) : option (string * string) :=
  unquote_go (String.length s) s.

Definition isDigit (c : ascii) : bool :=
  let b := N_of_ascii c in ((0x30 <=? b) && (b <=? 0x39))%N.

Fixpoint digits (s : string) : string :=
  match s with
  | String c t => if isDigit c then digits t else s
  | EmptyString => s
  end.

(** The exponent of a number, if any. *)
Definition exponent (s : string) : option string :=
  match s with
  | String c t =>
    if ((c =? "e") || (c =? "E"))%char then
      let t1 :=
        match t with
        | String g t' => if ((g =? "+") || (g =? "-"))%char then t' else t
        | EmptyString => t
        end in
      match t1 with
      | String d r => if isDigit d then Some (digits r) else None
      | EmptyString => None
      end
    else Some s
  | EmptyString => Some s
  end.

(** The fraction and the exponent of a number, if any. *)
Definition fraction (s : string) : option string :=
  match s with
  | String c t =>
    if (c =? ".")%char then
      match t with
      | String d r => if isDigit d then exponent (digits r) else None
      | EmptyString => None
      end
    else exponent s
  | EmptyString => Some s
  end.

(** A number literal: the input after it. *)
Definition number (s : string) : option string :=
  let s1 :=
    match s with
    | String c t => if (c =? "-")%char then t else s
    | EmptyString => s
    end in
  match s1 with
  | String c t =>
    if (c =? "0")%char then fraction t
    else if isDigit c then fraction (digits t)
    else None
  | EmptyString => None
  end.

(** [s] without the prefix [p], when it begins with [p]. *)
Fixpoint strip (p s : string) : option string :=
  match p, s with
  | EmptyString, _ => Some s
  | String a p', String b s' => if (a =? b)%char then strip p' s' else None
  | String _ _, EmptyString => None
  end.

Definition maxNestingDepth : N := 10000.

(** What the reader is in the middle of: a value, the elements of an array
    or the members of an object (with those read so far, last first). *)
Inductive mode : Type :=
| AValue
| AElems (acc : list value)
| AMembers (acc : list (string * value)).

(** The value at the head of [s] and the input after it. [s] begins with no
    white space; [depth] counts the arrays and objects that are open. *)
Fixpoint parse (fuel : nat) (depth : N) (m : mode) (s : string)
  : option (value * string) :=
  match fuel with
  | O => None
  | S k =>
    match m with
    | AValue =>
      match s with
      | EmptyString => None
      | String c t =>
        if (c =? "{")%char then
          if (maxNestingDepth <? depth + 1)%N then None else
          match skip_ws t with
          | String c' r =>
            if (c' =? "}")%char then Some (Object [], r)
            else parse k (depth + 1)%N (AMembers []) (skip_ws t)
          | EmptyString => None
          end
        else if (c =? "[")%char then
          if (maxNestingDepth <? depth + 1)%N then None else
          match skip_ws t with
          | String c' r =>
            if (c' =? "]")%char then Some (Array [], r)
            else parse k (depth + 1)%N (AElems []) (skip_ws t)
          | EmptyString => None
          end
        else if (N_of_ascii c =? 0x22)%N then
          match unquote t with
          | Some (str, r) => Some (Str str, r)
          | None => None
          end
        else if ((c =? "-")%char || isDigit c) then
          match number s with
          | Some r => Some (Number, r)
          | None => None
          end
        else
          match strip "true" s, strip "false" s, strip "null" s with
          | Some r, _, _ => Some (Bool true, r)
          | _, Some r, _ => Some (Bool false, r)
          | _, _, Some r => Some (Null, r)
          | _, _, _ => None
          end
      end
    | AElems acc =>
      match parse k depth AValue s with
      | None => None
      | Some (v, r) =>
        match skip_ws r with
        | String c r' =>
          if (c =? ",")%char then parse k depth (AElems (v :: acc)) (skip_ws r')
          else if (c =? "]")%char then Some (Array (rev (v :: acc)), r')
          else None
        | EmptyString => None
        end
      end
    | AMembers acc =>
      match s with
      | EmptyString => None
      | String c t =>
        if negb (N_of_ascii c =? 0x22)%N then None else
        match unquote t with
        | None => None
        | Some (key, r) =>
          match skip_ws r with
          | EmptyString => None
          | String c1 r1 =>
            if negb (c1 =? ":")%char then None else
            match parse k depth AValue (skip_ws r1) with
            | None => None
            | Some (v, r2) =>
              match skip_ws r2 with
              | String c2 r3 =>
                if (c2 =? ",")%char
                then parse k depth (AMembers ((key, v) :: acc)) (skip_ws r3)
                else if (c2 =? "}")%char
                then Some (Object (rev ((key, v) :: acc)), r3)
                else None
              | EmptyString => None
              end
            end
          end
        end
      end
    end
  end.

(** [checkValid]: the input is one JSON value, with white space around it
    at most. Every step of [parse] but the entry into the first element of
    an array or the value of a member consumes a byte, so twice the length
    of the input is fuel enough. *)
Definition scan (data : string) : option value :=
  match parse (2 * String.length data + 2) 0 AValue (skip_ws data) with
  | Some (v, r) =>
    match skip_ws r with
    | EmptyString => Some v
    | String _ _ => None
    end
  | None => None
  end.

(** [foldName], as far as a comparison with an ASCII field name goes:
    ASCII letters in upper case, U+017F as S and U+212A as K. *)
Fixpoint foldName (s : string) : string :=
  match s with
  | EmptyString => EmptyString
  | String c t =>
    let b := N_of_ascii c in
    if ((0x61 <=? b) && (b <=? 0x7A))%N then String (byte (b - 0x20)) (foldName t)
    else
      match t with
      | String c1 t1 =>
        if ((b =? 0xC5) && (N_of_ascii c1 =? 0xBF))%N
        then String "S" (foldName t1)
        else
          match t1 with
          | String c2 t2 =>
            if ((b =? 0xE2) && (N_of_ascii c1 =? 0x84)
                && (N_of_ascii c2 =? 0xAA))%N
            then String "K" (foldName t2)
            else String c (foldName t)
          | EmptyString => String c (foldName t)
          end
      | EmptyString => String c (foldName t)
      end
  end.

(** The key of a member names the field tagged [field]: the same name, or
    the same up to case. *)
Definition names (field key : string) : bool :=
  (key =? field) || (foldName key =? foldName field).

(** A value stored in a [string]: [null] leaves it as it is. The flag is
    false when the value is of another type (an [UnmarshalTypeError], which
    does not stop the decoding). *)
Definition decodeString (v : value) (s0 : string) : string * bool :=
  match v with
  | Str s => (s, true)
  | Null => (s0, true)
  | _ => (s0, false)
  end.

Fixpoint decodePresetFields (kvs : list (string * value)) (p : Preset)
  : Preset * bool :=
  match kvs with
  | [] => (p, true)
  | (key, v) :: rest =>
    if names "name" key then
      let '(s, ok) := decodeString v (Name p) in
      let '(p', ok') := decodePresetFields rest {| Name := s; URL := URL p |} in
      (p', ok && ok')
    else if names "url" key then
      let '(s, ok) := decodeString v (URL p) in
      let '(p', ok') := decodePresetFields rest {| Name := Name p; URL := s |} in
      (p', ok && ok')
    else decodePresetFields rest p
  end.

Definition decodePreset (v : value) (p0 : Preset) : Preset * bool :=
  match v with
  | Object kvs => decodePresetFields kvs p0
  | Null => (p0, true)
  | _ => (p0, false)
  end.

(** The elements of an array stored in a slice whose backing array holds
    [old]: an element is decoded into the one that stands at its index, or
    into a zero [Preset] past the end of [old], where the array is newly
    allocated. *)
Fixpoint decodeArray (vs : list value) (old : list Preset)
  : list Preset * bool :=
  match vs with
  | [] => ([], true)
  | v :: vs' =>
    let p0 := match old with p :: _ => p | [] => {| Name := ""; URL := "" |} end in
    let '(p, ok) := decodePreset v p0 in
    let '(ps, ok') := decodeArray vs' (tl old) in
    (p :: ps, ok && ok')
  end.

(** A value stored in the slice [s0], behind which the backing array still
    holds [spare], the elements that an earlier and longer content left
    there: the slice stored, and what its backing array holds behind it.
    An array is decoded into the backing array from its start, over the
    elements of [s0] and then over [spare]; an empty array gives a new
    slice ([reflect.MakeSlice]) and [null] the nil slice. *)
Definition decodeSlice (v : value) (s0 : slice Preset) (spare : list Preset)
  : slice Preset * list Preset * bool :=
  match v with
  | Array [] => (Slice [], [], true)
  | Array vs =>
    let backing := (elems s0 ++ spare)%list in
    let '(ps, ok) := decodeArray vs backing in
    (Slice ps, skipn (List.length vs) backing, ok)
  | Null => (nil_slice, [], true)
  | _ => (s0, spare, false)
  end.

(** The members of an object stored in [c]: a key that comes again is
    decoded into what the one before left. *)
Fixpoint decodeConfigFields (kvs : list (string * value)) (c : Config)
  (spare : list Preset) : Config * bool :=
  match kvs with
  | [] => (c, true)
  | (key, v) :: rest =>
    if names "presets" key then
      let '(s, spare', ok) := decodeSlice v (Presets c) spare in
      let '(c', ok') := decodeConfigFields rest {| Presets := s |} spare' in
      (c', ok && ok')
    else decodeConfigFields rest c spare
  end.

(** The value stored in a [Config] that is zero (as [var config Config]). *)
Definition decodeConfig (v : value) : Config * bool :=
  let zero := {| Presets := nil_slice |} in
  match v with
  | Object kvs => decodeConfigFields kvs zero []
  | Null => (zero, true)
  | _ => (zero, false)
  end.

(** [json.Unmarshal(data, &config)] *)
Definition Unmarshal (data : string) : result error Config :=
  match scan data with
  | None => Err SyntaxError
  | Some v =>
    let '(config, ok) := decodeConfig v in
    if ok then Ok config else Err UnmarshalTypeError
  end.

End json.

(** ** The operating system, as the preset store sees it *)

(** What stands at a path: nothing, or a file with its content, which the
    process may or may not be allowed to read. *)
Inductive FileState : Type :=
| Absent
| File (readable : bool) (data : string).

(** The calls that change the file system. *)
Inductive Call : Type :=
| MkdirAll (path : string)
| WriteFile (name data : string).

(** How a call of [os.WriteFile] ends. It opens the file, which creates
    it or cuts it to nothing, writes the data and closes the file: it
    fails before the file is open, which leaves the file as it was, or
    after that, with the first [n] bytes of the data in the file. *)
Inductive WriteResult : Type :=
| WriteOk
| OpenError
| WriteError (n : nat).

Record World : Type := {
  UserHomeDir : option string;     (* [os.UserHomeDir()], [None] on error *)
  XDG_CONFIG_HOME : string;        (* [os.Getenv("XDG_CONFIG_HOME")] *)
  files : string -> FileState;
  mkdirFails : string -> bool;     (* [os.MkdirAll] returns an error *)
  writeResult : string -> string -> WriteResult;
                                   (* how [os.WriteFile(name, data)] ends *)
  calls : list Call                (* the calls made so far, last first *)
}.

Definition called (c : Call) (w : World) : World :=
  {| UserHomeDir := UserHomeDir w; XDG_CONFIG_HOME := XDG_CONFIG_HOME w;
     files := files w; mkdirFails := mkdirFails w;
     writeResult := writeResult w; calls := c :: calls w |}.

Definition written (name data : string) (w : World) : World :=
  {| UserHomeDir := UserHomeDir w; XDG_CONFIG_HOME := XDG_CONFIG_HOME w;
     files := fun p =>
       if (p =? name) then
         match files w name with
         | Absent => File true data
         | File r _ => File r data
         end
       else files w p;
     mkdirFails := mkdirFails w; writeResult := writeResult w;
     calls := calls w |}.

(** [os.MkdirAll(path, 0755)]: the world after the call, and whether it
    succeeded. *)
Definition os_MkdirAll (w : World) (path : string) : World * bool :=
  (called (MkdirAll path) w, negb (mkdirFails w path)).

(** [os.WriteFile(name, data, 0644)] *)
Definition os_WriteFile (w : World) (name data : string) : World * bool :=
  let w' := called (WriteFile name data) w in
  match writeResult w name data with
  | WriteOk => (written name data w', true)
  | OpenError => (w', false)
  | WriteError n => (written name (take n data) w', false)
  end.

(** [os.Stat(name)] followed by [os.IsNotExist(err)] *)
Definition os_IsNotExist (w : World) (name : string) : bool :=
  match files w name with Absent => true | File _ _ => false end.

(** [os.ReadFile(name)], [None] on error *)
Definition os_ReadFile (w : World) (name : string) : option string :=
  match files w name with
  | File true data => Some data
  | _ => None
  end.

(** ** Go's [int]

    An [int] as it is on a 64-bit platform: the integers from [minInt] to
    [maxInt], with a subtraction that wraps around. *)

Definition minInt : Z := (-9223372036854775808)%Z.   (* [- 2 ^ 63] *)

(** The [int] that an integer comes to: the one that differs from it by a
    multiple of [2 ^ 64]. *)
Definition wrap (z : Z) : Z :=
  ((z - minInt) mod 18446744073709551616 + minInt)%Z.

(** [a - b] on [int] *)
Definition int_sub (a b : Z) : Z := wrap (a - b).

(** ** The Bubble Tea runtime and the widgets of Bubbles *)

(** [tea.Msg], as [Update] tells messages apart. A key message is given by
    its [String()]. *)
Inductive Msg : Type :=
| streamURLMsg (url : string) (err : option string)
| streamEndedMsg
| WindowSizeMsg (Width Height : Z)
| KeyMsg (key : string)
| OtherMsg (tag : nat).

(** [tea.Cmd]: the work handed back to the runtime. [extractStreamURL] runs
    the resolver and answers with a [streamURLMsg]; [playMPV] runs the
    player and answers with [streamEndedMsg]. *)
Inductive Cmd : Type :=
| nil_Cmd
| textinput_Blink
| tea_Quit
| spinner_Tick
| extractStreamURL (youtubeURL : string)
| playMPV (streamURL : string)
| tea_Batch (c1 c2 : Cmd)
| widget_Cmd (tag : nat).

(** What the command [extractStreamURL(url)] sends when it has run, by
    what [cmd.Output()] returned, and what the callback of [playMPV]
    sends, whatever the player returned. *)
Definition resolved (output : result string string) : Msg :=
  match output with
  | Err err => streamURLMsg "" (Some err)
  | Ok out => streamURLMsg (strings.TrimSpace out) None
  end.

Definition played (err : option string) : Msg := streamEndedMsg.

(** [list.Model] of Bubbles, as far as [main.go] uses it (the Selectable
    List of section 4.2 of the specification; the library is not part of
    the sources): the items, the index of the highlighted one, the title,
    the size, and whether the quit keys of the list are disabled. The
    paginator of the list is left out: the highlighted index is [Index()],
    whatever the page it stands on. *)
Record list_Model : Type := {
  items : list Preset;
  index : nat;
  Title : string;
  list_width : Z;
  list_height : Z;
  disableQuitKeybindings : bool
}.

(** [list.New(items, delegate, width, height)]: a new list highlights its
    first entry, and [q], [esc] and [ctrl+c] make it quit. *)
Definition list_New (its : list Preset) (width height : Z) : list_Model :=
  {| items := its; index := 0; Title := "List";
     list_width := width; list_height := height;
     disableQuitKeybindings := false |}.

(** [SetItems(items)] stores the items and leaves the highlight at the
    index where it was, be there an item or not: the list brings it back
    into range when a key next moves it, not before. *)
Definition SetItems (its : list Preset) (l : list_Model) : list_Model :=
  {| items := its; index := index l;
     Title := Title l; list_width := list_width l;
     list_height := list_height l;
     disableQuitKeybindings := disableQuitKeybindings l |}.

(** [SelectedItem()]: the item at the highlighted index, [nil] when there
    is none. *)
Definition SelectedItem (l : list_Model) : option Preset :=
  nth_error (items l) (index l).

(** [Index()]: the highlighted index. *)
Definition Index (l : list_Model) : nat := index l.

(** The title and the viewport dimensions, which [main.go] sets. *)
Definition set_Title (t : string) (l : list_Model) : list_Model :=
  {| items := items l; index := index l; Title := t;
     list_width := list_width l; list_height := list_height l;
     disableQuitKeybindings := disableQuitKeybindings l |}.

Definition SetWidth (v : Z) (l : list_Model) : list_Model :=
  {| items := items l; index := index l; Title := Title l;
     list_width := v; list_height := list_height l;
     disableQuitKeybindings := disableQuitKeybindings l |}.

Definition SetHeight (v : Z) (l : list_Model) : list_Model :=
  {| items := items l; index := index l; Title := Title l;
     list_width := list_width l; list_height := v;
     disableQuitKeybindings := disableQuitKeybindings l |}.

(** [DisableQuitKeybindings()] *)
Definition DisableQuitKeybindings (l : list_Model) : list_Model :=
  {| items := items l; index := index l; Title := Title l;
     list_width := list_width l; list_height := list_height l;
     disableQuitKeybindings := true |}.

(** [textinput.Model]: the runes typed, the focus, and the two fields that
    [main.go] sets. *)
Record textinput_Model : Type := {
  value : list N;
  focus : bool;
  Placeholder : string;
  Width : Z
}.

Definition textinput_New : textinput_Model :=
  {| value := []; focus := false; Placeholder := ""; Width := 0 |}.

(** [Value()] is [string(m.value)]. *)
Definition Value (t : textinput_Model) : string :=
  utf8.string_of_runes (value t).

Definition set_value (v : list N) (t : textinput_Model) : textinput_Model :=
  {| value := v; focus := focus t; Placeholder := Placeholder t;
     Width := Width t |}.

Definition Focus (t : textinput_Model) : textinput_Model :=
  {| value := value t; focus := true; Placeholder := Placeholder t;
     Width := Width t |}.

Definition Blur (t : textinput_Model) : textinput_Model :=
  {| value := value t; focus := false; Placeholder := Placeholder t;
     Width := Width t |}.

Definition set_Placeholder (p : string) (t : textinput_Model) : textinput_Model :=
  {| value := value t; focus := focus t; Placeholder := p; Width := Width t |}.

Definition set_Width (v : Z) (t : textinput_Model) : textinput_Model :=
  {| value := value t; focus := focus t; Placeholder := Placeholder t;
     Width := v |}.

(** [spinner.Model]: the frame shown. *)
Record spinner_Model : Type := { frame : nat }.

Definition spinner_New : spinner_Model := {| frame := 0 |}.

(** What the program takes from its libraries and this development leaves
    open: the cleaning of paths, what the widgets do with a message they are
    handed, and what the sanitizer of a text input puts in the place of a
    rune. The properties below hold whatever these are. *)
Class Libs : Type := {
  filepath_Join : string -> string -> string;
  list_Update : Msg -> list_Model -> list_Model * Cmd;
  textinput_Update : Msg -> textinput_Model -> textinput_Model * Cmd;
  spinner_Update : Msg -> spinner_Model -> spinner_Model * Cmd;
  sanitize_rune : N -> list N
}.

(** [SetValue(s)] stores the runes of [s], sanitized one by one (the input
    has no [CharLimit]). *)
Definition SetValue `{Libs} (s : string) (t : textinput_Model) : textinput_Model :=
  set_value (flat_map sanitize_rune (utf8.runes s)) t.

(** ** The preset store: loading and saving *)

(** The errors of [loadConfig] and [saveConfig], one for each place that
    returns one. *)
Inductive error : Type :=
| ErrUserHomeDir                  (* the error of [os.UserHomeDir] *)
| ErrReadConfig                   (* "failed to read config" *)
| ErrParseConfig (e : json.error) (* "failed to parse config" *)
| ErrCreateDir                    (* "failed to create config directory" *)
| ErrMarshal (e : json.error)     (* "failed to marshal config" *)
| ErrWriteConfig.                 (* "failed to write config" *)

(** [getDefaultConfig] *)
Definition getDefaultConfig : Config :=
  {| Presets := Slice
       [ {| Name := "Lofi Girl - Study"; URL := "https://www.youtube.com/watch?v=jfKfPfyJRdk" |};
         {| Name := "Lofi Girl - Sleep"; URL := "https://www.youtube.com/watch?v=DWcJFNfaw9c" |};
         {| Name := "Lofi Girl - Jazz"; URL := "https://www.youtube.com/watch?v=HuFYqnbVbzY" |};
         {| Name := "Synthwave Radio"; URL := "https://www.youtube.com/watch?v=4xDzrJKXOOY" |};
         {| Name := "Chillhop Music"; URL := "https://www.youtube.com/watch?v=5yx6BWlEVcY" |};
         {| Name := "The Bootleg Boy"; URL := "https://www.youtube.com/watch?v=FWjZ0x2M8og" |};
         {| Name := "Dreamhop Music"; URL := "https://www.youtube.com/live/D5bqo8lcny4" |};
         {| Name := "Lofi Geek"; URL := "https://www.youtube.com/watch?v=1tJ8sc8I4z0" |};
         {| Name := "STEEZYASFUCK"; URL := "https://www.youtube.com/watch?v=S_MOd40zlYU" |};
         {| Name := "Homework Radio"; URL := "https://www.youtube.com/watch?v=lTRiuFIWV54" |} ] |}.

Section Store.

Context {L : Libs}.

(** [getConfigDir] *)
Definition getConfigDir (w : World) : result error string :=
  match UserHomeDir w with
  | None => Err ErrUserHomeDir
  | Some homeDir =>
    let configHome := XDG_CONFIG_HOME w in
    let configHome :=
      if nonempty configHome then configHome
      else filepath_Join homeDir ".config" in
    Ok (filepath_Join configHome "lofitui")
  end.

(** [getConfigPath] *)
Definition getConfigPath (w : World) : result error string :=
  match getConfigDir w with
  | Err e => Err e
  | Ok configDir => Ok (filepath_Join configDir "config.json")
  end.

(** [loadConfig] *)
Definition loadConfig (w : World) : result error Config :=
  match getConfigPath w with
  | Err e => Err e
  | Ok configPath =>
    if os_IsNotExist w configPath then Ok getDefaultConfig
    else
      match os_ReadFile w configPath with
      | None => Err ErrReadConfig
      | Some data =>
        match json.Unmarshal data with
        | Err e => Err (ErrParseConfig e)
        | Ok config => Ok config
        end
      end
  end.

(** [saveConfig]: the world after the call and the error returned, [None]
    for [nil]. *)
Definition saveConfig (w : World) (config : Config) : World * option error :=
  match getConfigDir w with
  | Err e => (w, Some e)
  | Ok configDir =>
    let '(w1, ok) := os_MkdirAll w configDir in
    if negb ok then (w1, Some ErrCreateDir) else
    match getConfigPath w1 with
    | Err e => (w1, Some e)
    | Ok configPath =>
      match json.MarshalIndent config with
      | Err e => (w1, Some (ErrMarshal e))
      | Ok data =>
        let '(w2, ok) := os_WriteFile w1 configPath data in
        if ok then (w2, None) else (w2, Some ErrWriteConfig)
      end
    end
  end.

End Store.

(** ** main.go: the model *)

(** [type viewState int] *)
Inductive viewState : Type :=
| mainMenuView
| customURLView
| quitConfirmView
| loadingView
| managePresetsView
| addPresetView
| editPresetView
| deleteConfirmView
| restoreDefaultsConfirmView.

(** [type model struct]. The field [list] is [list_] here. [config] is a
    pointer in Go: every copy of the model shares one [Config], and the
    runtime keeps only the model that [Update] returns, so the [Config] it
    points to is held in the model. [selectedIndex] holds [0] or a value of
    [list.Index()] only. *)
Record model : Type := {
  list_ : list_Model;
  textInput : textinput_Model;
  nameInput : textinput_Model;
  urlInput : textinput_Model;
  spinner : spinner_Model;
  config : Config;
  state : viewState;
  quitting : bool;
  width : Z;
  height : Z;
  ready : bool;
  loadingTitle : string;
  selectedIndex : nat;
  focusedInput : nat
}.

Definition set_list (v : list_Model) (m : model) : model :=
  {| list_ := v; textInput := textInput m; nameInput := nameInput m;
     urlInput := urlInput m; spinner := spinner m; config := config m;
     state := state m; quitting := quitting m; width := width m;
     height := height m; ready := ready m; loadingTitle := loadingTitle m;
     selectedIndex := selectedIndex m; focusedInput := focusedInput m |}.

Definition set_textInput (v : textinput_Model) (m : model) : model :=
  {| list_ := list_ m; textInput := v; nameInput := nameInput m;
     urlInput := urlInput m; spinner := spinner m; config := config m;
     state := state m; quitting := quitting m; width := width m;
     height := height m; ready := ready m; loadingTitle := loadingTitle m;
     selectedIndex := selectedIndex m; focusedInput := focusedInput m |}.

Definition set_nameInput (v : textinput_Model) (m : model) : model :=
  {| list_ := list_ m; textInput := textInput m; nameInput := v;
     urlInput := urlInput m; spinner := spinner m; config := config m;
     state := state m; quitting := quitting m; width := width m;
     height := height m; ready := ready m; loadingTitle := loadingTitle m;
     selectedIndex := selectedIndex m; focusedInput := focusedInput m |}.

Definition set_urlInput (v : textinput_Model) (m : model) : model :=
  {| list_ := list_ m; textInput := textInput m; nameInput := nameInput m;
     urlInput := v; spinner := spinner m; config := config m;
     state := state m; quitting := quitting m; width := width m;
     height := height m; ready := ready m; loadingTitle := loadingTitle m;
     selectedIndex := selectedIndex m; focusedInput := focusedInput m |}.

Definition set_spinner (v : spinner_Model) (m : model) : model :=
  {| list_ := list_ m; textInput := textInput m; nameInput := nameInput m;
     urlInput := urlInput m; spinner := v; config := config m;
     state := state m; quitting := quitting m; width := width m;
     height := height m; ready := ready m; loadingTitle := loadingTitle m;
     selectedIndex := selectedIndex m; focusedInput := focusedInput m |}.

Definition set_config (v : Config) (m : model) : model :=
  {| list_ := list_ m; textInput := textInput m; nameInput := nameInput m;
     urlInput := urlInput m; spinner := spinner m; config := v;
     state := state m; quitting := quitting m; width := width m;
     height := height m; ready := ready m; loadingTitle := loadingTitle m;
     selectedIndex := selectedIndex m; focusedInput := focusedInput m |}.

Definition set_state (v : viewState) (m : model) : model :=
  {| list_ := list_ m; textInput := textInput m; nameInput := nameInput m;
     urlInput := urlInput m; spinner := spinner m; config := config m;
     state := v; quitting := quitting m; width := width m;
     height := height m; ready := ready m; loadingTitle := loadingTitle m;
     selectedIndex := selectedIndex m; focusedInput := focusedInput m |}.

Definition set_quitting (v : bool) (m : model) : model :=
  {| list_ := list_ m; textInput := textInput m; nameInput := nameInput m;
     urlInput := urlInput m; spinner := spinner m; config := config m;
     state := state m; quitting := v; width := width m;
     height := height m; ready := ready m; loadingTitle := loadingTitle m;
     selectedIndex := selectedIndex m; focusedInput := focusedInput m |}.

Definition set_size (w h : Z) (m : model) : model :=
  {| list_ := list_ m; textInput := textInput m; nameInput := nameInput m;
     urlInput := urlInput m; spinner := spinner m; config := config m;
     state := state m; quitting := quitting m; width := w;
     height := h; ready := true; loadingTitle := loadingTitle m;
     selectedIndex := selectedIndex m; focusedInput := focusedInput m |}.

Definition set_loadingTitle (v : string) (m : model) : model :=
  {| list_ := list_ m; textInput := textInput m; nameInput := nameInput m;
     urlInput := urlInput m; spinner := spinner m; config := config m;
     state := state m; quitting := quitting m; width := width m;
     height := height m; ready := ready m; loadingTitle := v;
     selectedIndex := selectedIndex m; focusedInput := focusedInput m |}.

Definition set_selectedIndex (v : nat) (m : model) : model :=
  {| list_ := list_ m; textInput := textInput m; nameInput := nameInput m;
     urlInput := urlInput m; spinner := spinner m; config := config m;
     state := state m; quitting := quitting m; width := width m;
     height := height m; ready := ready m; loadingTitle := loadingTitle m;
     selectedIndex := v; focusedInput := focusedInput m |}.

Definition set_focusedInput (v : nat) (m : model) : model :=
  {| list_ := list_ m; textInput := textInput m; nameInput := nameInput m;
     urlInput := urlInput m; spinner := spinner m; config := config m;
     state := state m; quitting := quitting m; width := width m;
     height := height m; ready := ready m; loadingTitle := loadingTitle m;
     selectedIndex := selectedIndex m; focusedInput := v |}.

(** ** main.go: the program *)

(** [case k1, k2, ...:] of a [switch msg.String()] *)
Definition key_is (key : string) (names : list string) : bool :=
  existsb (String.eqb key) names.

Section Program.

Context {L : Libs}.

(** [initialModel]. The settings of what the list shows (status bar,
    filter, help and styles) are part of what [list_View] is taken to
    render, like the dot and the colour of the spinner. *)
Definition initialModel (w : World) : World * model :=
  let '(w, config) :=
    match loadConfig w with
    | Ok config => (w, config)
    | Err _ =>
      let config := getDefaultConfig in
      let '(w, _) := saveConfig w config in
      (w, config)
    end in
  let items := elems (Presets config) in
  let l := list_New items 20 (Z.of_nat (List.length items)) in
  let l := set_Title "LofiTUI - Select a Stream" l in
  let l := DisableQuitKeybindings l in
  let ti := set_Width 50 (set_Placeholder "Paste YouTube URL here" textinput_New) in
  let ni := set_Width 50 (set_Placeholder "Preset Name" textinput_New) in
  let ui := set_Width 50 (set_Placeholder "YouTube URL" textinput_New) in
  let s := spinner_New in
  (w,
   {| list_ := l; textInput := ti; nameInput := ni; urlInput := ui;
      spinner := s; config := config; state := mainMenuView;
      quitting := false; width := 0; height := 0; ready := false;
      loadingTitle := ""; selectedIndex := 0; focusedInput := 0 |}).

(** [refreshList] *)
Definition refreshList (m : model) : model :=
  let items := elems (Presets (config m)) in
  set_list (SetItems items (list_ m)) m.

(** The [tab] case of the add and edit views. *)
Definition toggleFocus (m : model) : model :=
  if (focusedInput m =? 0)%nat then
    let m := set_focusedInput 1 m in
    let m := set_nameInput (Blur (nameInput m)) m in
    set_urlInput (Focus (urlInput m)) m
  else
    let m := set_focusedInput 0 m in
    let m := set_nameInput (Focus (nameInput m)) m in
    set_urlInput (Blur (urlInput m)) m.

(** [case tea.KeyMsg:] of [Update]. [Some] is what a [return] inside the
    switch returns; [None] stands for leaving the switch, after which
    [Update] goes on to the widgets with [m] as it was. *)
Definition updateKey (w : World) (m : model) (key : string)
  : option (World * model * Cmd) :=
  match state m with
  | mainMenuView =>
    if key_is key ["ctrl+c"; "q"] then
      Some (w, set_state quitConfirmView m, nil_Cmd)
    else if key_is key ["c"] then
      let m := set_state customURLView m in
      let m := set_textInput (Focus (textInput m)) m in
      Some (w, m, textinput_Blink)
    else if key_is key ["m"] then
      Some (w, set_state managePresetsView m, nil_Cmd)
    else if key_is key ["enter"] then
      match SelectedItem (list_ m) with
      | Some preset =>
        let m := set_state loadingView m in
        let m := set_loadingTitle (Name preset) m in
        Some (w, m, tea_Batch spinner_Tick (extractStreamURL (URL preset)))
      | None => None
      end
    else None
  | customURLView =>
    if key_is key ["ctrl+c"; "esc"] then
      let m := set_state mainMenuView m in
      let m := set_textInput (SetValue "" (textInput m)) m in
      Some (w, m, nil_Cmd)
    else if key_is key ["enter"] then
      let url := Value (textInput m) in
      if nonempty url then
        let m := set_state loadingView m in
        let m := set_loadingTitle "Custom Stream" m in
        let m := set_textInput (SetValue "" (textInput m)) m in
        Some (w, m, tea_Batch spinner_Tick (extractStreamURL url))
      else None
    else None
  | quitConfirmView =>
    if key_is key ["y"; "Y"] then
      Some (w, set_quitting true m, tea_Quit)
    else if key_is key ["n"; "N"; "esc"] then
      Some (w, set_state mainMenuView m, nil_Cmd)
    else None
  | loadingView => None
  | managePresetsView =>
    if key_is key ["esc"] then
      Some (w, set_state mainMenuView m, nil_Cmd)
    else if key_is key ["a"] then
      let m := set_state addPresetView m in
      let m := set_nameInput (SetValue "" (nameInput m)) m in
      let m := set_urlInput (SetValue "" (urlInput m)) m in
      let m := set_focusedInput 0 m in
      let m := set_nameInput (Focus (nameInput m)) m in
      let m := set_urlInput (Blur (urlInput m)) m in
      Some (w, m, textinput_Blink)
    else if key_is key ["e"] then
      match SelectedItem (list_ m) with
      | Some preset =>
        let m := set_state editPresetView m in
        let m := set_selectedIndex (Index (list_ m)) m in
        let m := set_nameInput (SetValue (Name preset) (nameInput m)) m in
        let m := set_urlInput (SetValue (URL preset) (urlInput m)) m in
        let m := set_focusedInput 0 m in
        let m := set_nameInput (Focus (nameInput m)) m in
        let m := set_urlInput (Blur (urlInput m)) m in
        Some (w, m, textinput_Blink)
      | None => None
      end
    else if key_is key ["d"; "x"] then
      let m := set_state deleteConfirmView m in
      let m := set_selectedIndex (Index (list_ m)) m in
      Some (w, m, nil_Cmd)
    else if key_is key ["r"] then
      Some (w, set_state restoreDefaultsConfirmView m, nil_Cmd)
    else if key_is key ["enter"] then
      match SelectedItem (list_ m) with
      | Some preset =>
        let m := set_state loadingView m in
        let m := set_loadingTitle (Name preset) m in
        Some (w, m, tea_Batch spinner_Tick (extractStreamURL (URL preset)))
      | None => None
      end
    else None
  | addPresetView =>
    if key_is key ["esc"] then
      Some (w, set_state managePresetsView m, nil_Cmd)
    else if key_is key ["tab"; "shift+tab"] then
      Some (w, toggleFocus m, textinput_Blink)
    else if key_is key ["enter"] then
      let name := strings.TrimSpace (Value (nameInput m)) in
      let url := strings.TrimSpace (Value (urlInput m)) in
      if nonempty name && nonempty url then
        let newPreset := {| Name := name; URL := url |} in
        let m := set_config {| Presets := append (Presets (config m)) newPreset |} m in
        let '(w, _) := saveConfig w (config m) in
        let m := refreshList m in
        let m := set_state managePresetsView m in
        Some (w, m, nil_Cmd)
      else Some (w, m, nil_Cmd)
    else None
  | editPresetView =>
    if key_is key ["esc"] then
      Some (w, set_state managePresetsView m, nil_Cmd)
    else if key_is key ["tab"; "shift+tab"] then
      Some (w, toggleFocus m, textinput_Blink)
    else if key_is key ["enter"] then
      let name := strings.TrimSpace (Value (nameInput m)) in
      let url := strings.TrimSpace (Value (urlInput m)) in
      if nonempty name && nonempty url
         && (selectedIndex m <? len (Presets (config m)))%nat then
        let m := set_config
          {| Presets := slice_set (Presets (config m)) (selectedIndex m)
                          {| Name := name; URL := url |} |} m in
        let '(w, _) := saveConfig w (config m) in
        let m := refreshList m in
        let m := set_state managePresetsView m in
        Some (w, m, nil_Cmd)
      else Some (w, m, nil_Cmd)
    else None
  | deleteConfirmView =>
    if key_is key ["y"; "Y"] then
      let '(w, m) :=
        if (selectedIndex m <? len (Presets (config m)))%nat then
          let m := set_config
            {| Presets :=
                 append_slice (upto (Presets (config m)) (selectedIndex m))
                   (from (Presets (config m)) (selectedIndex m + 1)) |} m in
          let '(w, _) := saveConfig w (config m) in
          (w, refreshList m)
        else (w, m) in
      Some (w, set_state managePresetsView m, nil_Cmd)
    else if key_is key ["n"; "N"; "esc"] then
      Some (w, set_state managePresetsView m, nil_Cmd)
    else None
  | restoreDefaultsConfirmView =>
    if key_is key ["y"; "Y"] then
      let m := set_config getDefaultConfig m in
      let '(w, _) := saveConfig w (config m) in
      let m := refreshList m in
      let m := set_state managePresetsView m in
      Some (w, m, nil_Cmd)
    else if key_is key ["n"; "N"; "esc"] then
      Some (w, set_state managePresetsView m, nil_Cmd)
    else None
  end.

(** The second [switch m.state] of [Update]: the message goes to the widget
    of the state. *)
Definition updateWidget (m : model) (msg : Msg) : model * Cmd :=
  match state m with
  | mainMenuView | managePresetsView =>
    let '(l, cmd) := list_Update msg (list_ m) in (set_list l m, cmd)
  | customURLView =>
    let '(t, cmd) := textinput_Update msg (textInput m) in
    (set_textInput t m, cmd)
  | loadingView =>
    let '(s, cmd) := spinner_Update msg (spinner m) in (set_spinner s m, cmd)
  | addPresetView | editPresetView =>
    if (focusedInput m =? 0)%nat then
      let '(t, cmd) := textinput_Update msg (nameInput m) in
      (set_nameInput t m, cmd)
    else
      let '(t, cmd) := textinput_Update msg (urlInput m) in
      (set_urlInput t m, cmd)
  | quitConfirmView | deleteConfirmView | restoreDefaultsConfirmView =>
    (m, nil_Cmd)
  end.

(** [func (m model) Update(msg tea.Msg) (tea.Model, tea.Cmd)], with the
    world before and after it. *)
Definition Update (w : World) (m : model) (msg : Msg) : World * model * Cmd :=
  match msg with
  | streamURLMsg url err =>
    match err with
    | Some _ => (w, set_state mainMenuView m, nil_Cmd)
    | None => (w, m, playMPV url)
    end
  | streamEndedMsg => (w, set_state mainMenuView m, nil_Cmd)
  | WindowSizeMsg Width Height =>
    let m := set_size Width Height m in
    let listHeight := int_sub Height 4 in
    let listHeight := if (listHeight <? 5)%Z then 5%Z else listHeight in
    let m := set_list (SetHeight listHeight (SetWidth Width (list_ m))) m in
    let inputWidth := int_sub Width 20 in
    let inputWidth := if (inputWidth <? 30)%Z then 30%Z else inputWidth in
    let inputWidth := if (80 <? inputWidth)%Z then 80%Z else inputWidth in
    let m := set_textInput (set_Width inputWidth (textInput m)) m in
    (w, m, nil_Cmd)
  | KeyMsg key =>
    match updateKey w m key with
    | Some r => r
    | None => let '(m, cmd) := updateWidget m msg in (w, m, cmd)
    end
  | OtherMsg _ => let '(m, cmd) := updateWidget m msg in (w, m, cmd)
  end.

(** The event loop: the messages are delivered one after the other, each
    to the model that the one before returned. *)
Fixpoint run (w : World) (m : model) (msgs : list Msg) : World * model :=
  match msgs with
  | [] => (w, m)
  | msg :: rest =>
    let '(w', m', _) := Update w m msg in run w' m' rest
  end.

End Program.

(** The three parts of what [Update] returns. *)
Definition world_of (r : World * model * Cmd) : World := fst (fst r).
Definition model_of (r : World * model * Cmd) : model := snd (fst r).
Definition cmd_of (r : World * model * Cmd) : Cmd := snd r.

(** ** Plain libraries, for the examples

    Paths that need no cleaning, a list that moves its highlight up and
    down and quits on its quit keys unless they are disabled, a text input
    that takes the runes typed, and the sanitizer that drops control
    characters. *)

Definition plain_Join (a b : string) : string :=
  if nonempty a then (if nonempty b then a ++ "/" ++ b else a) else b.

Definition plain_list_Update (msg : Msg) (l : list_Model) : list_Model * Cmd :=
  let move i :=
    {| items := items l; index := i; Title := Title l;
       list_width := list_width l; list_height := list_height l;
       disableQuitKeybindings := disableQuitKeybindings l |} in
  match msg with
  | KeyMsg key =>
    if key_is key ["up"; "k"] then (move (index l - 1)%nat, nil_Cmd)
    else if key_is key ["down"; "j"]
    then (move (Nat.min (index l + 1) (List.length (items l) - 1)), nil_Cmd)
    else if negb (disableQuitKeybindings l) && key_is key ["q"; "esc"; "ctrl+c"]
    then (l, tea_Quit)
    else (l, nil_Cmd)
  | _ => (l, nil_Cmd)
  end.

Definition plain_textinput_Update (msg : Msg) (t : textinput_Model)
  : textinput_Model * Cmd :=
  match msg with
  | KeyMsg key =>
    if focus t && (List.length (utf8.runes key) =? 1)%nat
    then (set_value (value t ++ utf8.runes key)%list t, nil_Cmd)
    else (t, nil_Cmd)
  | _ => (t, nil_Cmd)
  end.

Definition plain_spinner_Update (msg : Msg) (s : spinner_Model)
  : spinner_Model * Cmd :=
  match msg with
  | OtherMsg tag => ({| frame := S (frame s) |}, widget_Cmd tag)
  | _ => (s, nil_Cmd)
  end.

Definition plain_sanitize_rune (r : N) : list N :=
  (if r =? utf8.RuneError then []
   else if (r =? 0x0D) || (r =? 0x0A) || (r =? 0x09) then [0x20]
   else if (r <? 0x20) || ((0x7F <=? r) && (r <? 0xA0)) then []
   else [r])%N.

Definition plainLibs : Libs :=
  {| filepath_Join := plain_Join;
     list_Update := plain_list_Update;
     textinput_Update := plain_textinput_Update;
     spinner_Update := plain_spinner_Update;
     sanitize_rune := plain_sanitize_rune |}.

(** A world with a home directory and no configuration file, in which
    every call succeeds (or no file can be opened for writing, for
    [brokenWorld]). *)
Definition freshWorld : World :=
  {| UserHomeDir := Some "/home/u"; XDG_CONFIG_HOME := "";
     files := fun _ => Absent; mkdirFails := fun _ => false;
     writeResult := fun _ _ => WriteOk; calls := [] |}.

Definition brokenWorld : World :=
  {| UserHomeDir := Some "/home/u"; XDG_CONFIG_HOME := "";
     files := fun _ => Absent; mkdirFails := fun _ => false;
     writeResult := fun _ _ => OpenError; calls := [] |}.

(** A world in which a write breaks off after twelve bytes. *)
Definition crampedWorld : World :=
  {| UserHomeDir := Some "/home/u"; XDG_CONFIG_HOME := "";
     files := fun _ => Absent; mkdirFails := fun _ => false;
     writeResult := fun _ _ => WriteError 12; calls := [] |}.

(** The model at startup over [freshWorld], and the same in a given state
    with given texts in its three inputs. *)
Definition startModel : model := snd (@initialModel plainLibs freshWorld).

Definition typed (st : viewState) (custom name url : string) (m : model) : model :=
  set_state st
    (set_textInput (set_value (utf8.runes custom) (textInput m))
       (set_nameInput (set_value (utf8.runes name) (nameInput m))
          (set_urlInput (set_value (utf8.runes url) (urlInput m)) m))).

(** The directory and the path of the configuration file in these
    worlds, and the text that [saveConfig] writes for a configuration. *)
Definition configDir : string := "/home/u/.config/lofitui".

Definition configPath : string := "/home/u/.config/lofitui/config.json".

Definition textOf (c : Config) : string :=
  match json.MarshalIndent c with
  | Ok data => data
  | Err _ => ""
  end.

(** [freshWorld] with a configuration file that holds [data]. *)
Definition worldWith (data : string) : World :=
  {| UserHomeDir := Some "/home/u"; XDG_CONFIG_HOME := "";
     files := fun p => if (p =? configPath) then File true data else Absent;
     mkdirFails := fun _ => false; writeResult := fun _ _ => WriteOk;
     calls := [] |}.

(** A file that is cut short, and the file that [saveConfig] writes for a
    configuration with no preset. *)
Definition malformedWorld : World := worldWith "{".

Definition emptyWorld : World :=
  worldWith ("{" ++ json.quote ++ "presets" ++ json.quote ++ ": []}").

Definition addModel : model :=
  typed addPresetView "" "  Test " "https://x/y" startModel.

Definition blankModel : model :=
  typed customURLView "   " "" "" startModel.

Definition deleteModel : model :=
  set_selectedIndex 2 (set_state deleteConfirmView startModel).

Definition loadingModel : model := set_state loadingView startModel.

(** The four operations that change the presets, and when a key carries
    one out: the guards of the [enter] cases of the add and edit views and
    of the [y] cases of the two confirmations. *)
Definition mutates (m : model) (key : string) : bool :=
  let name := strings.TrimSpace (Value (nameInput m)) in
  let url := strings.TrimSpace (Value (urlInput m)) in
  match state m with
  | addPresetView =>
    key_is key ["enter"] && (nonempty name && nonempty url)
  | editPresetView =>
    key_is key ["enter"]
    && (nonempty name && nonempty url
        && (selectedIndex m <? len (Presets (config m)))%nat)
  | deleteConfirmView =>
    key_is key ["y"; "Y"] && (selectedIndex m <? len (Presets (config m)))%nat
  | restoreDefaultsConfirmView => key_is key ["y"; "Y"]
  | _ => false
  end.

(** The configuration that the operation puts in the model: the right-hand
    sides of the four assignments to [m.config] and [m.config.Presets]. *)
Definition mutated (m : model) : Config :=
  let name := strings.TrimSpace (Value (nameInput m)) in
  let url := strings.TrimSpace (Value (urlInput m)) in
  let presets := Presets (config m) in
  match state m with
  | addPresetView =>
    {| Presets := append presets {| Name := name; URL := url |} |}
  | editPresetView =>
    {| Presets := slice_set presets (selectedIndex m)
                    {| Name := name; URL := url |} |}
  | deleteConfirmView =>
    {| Presets := append_slice (upto presets (selectedIndex m))
                    (from presets (selectedIndex m + 1)) |}
  | restoreDefaultsConfirmView => getDefaultConfig
  | _ => config m
  end.

(** ** main.go: what the screen shows *)

(** [func (m model) Init() tea.Cmd] *)
Definition Init (m : model) : Cmd := nil_Cmd.

Definition LF : string := String (byte 0x0A) "".

(** A [lipgloss.Style], as far as [View] sets one: [NewStyle()] and the
    setters that [View] chains on it. *)
Record Style : Type := {
  border : bool;               (* [Border(lipgloss.RoundedBorder())] *)
  borderForeground : string;   (* [BorderForeground(lipgloss.Color(c))] *)
  foreground : string;         (* [Foreground(lipgloss.Color(c))] *)
  padding : list Z;            (* [Padding(...)] *)
  styleWidth : Z               (* [Width(w)] *)
}.

Definition NewStyle : Style :=
  {| border := false; borderForeground := ""; foreground := "";
     padding := []; styleWidth := 0 |}.

(** [NewStyle().Foreground(Color("240")).Padding(1, 0, 0, 2)], the style of
    the help line under the list. *)
Definition menuHelpStyle : Style :=
  {| border := false; borderForeground := ""; foreground := "240";
     padding := [1; 0; 0; 2]%Z; styleWidth := 0 |}.

(** [NewStyle().Foreground(Color("240"))], the style of the hint at the
    foot of a dialog. *)
Definition hintStyle : Style :=
  {| border := false; borderForeground := ""; foreground := "240";
     padding := []; styleWidth := 0 |}.

(** [NewStyle().Border(RoundedBorder()).BorderForeground(Color(c)).
    Padding(1, 2).Width(w)], the style of a dialog. *)
Definition dialogStyle (c : string) (w : Z) : Style :=
  {| border := true; borderForeground := c; foreground := "";
     padding := [1; 2]%Z; styleWidth := w |}.

(** What [View] takes from lipgloss and from the widgets: how a style
    renders a text, how a text is placed in the middle of the terminal, and
    what the widgets show. *)
Class Screen : Type := {
  Render : Style -> string -> string;
  lipgloss_Place : Z -> Z -> string -> string;
  list_View : list_Model -> string;
  textinput_View : textinput_Model -> string;
  spinner_View : spinner_Model -> string
}.

Section Display.

Context {scr : Screen}.

(** [func (m model) View() string] *)
Definition View (m : model) : string :=
  if negb (ready m) then LF ++ "  Initializing..." else
  match state m with
  | mainMenuView =>
    let l := set_Title "LofiTUI - Select a Stream" (list_ m) in
    let helpText :=
      Render menuHelpStyle "m=manage presets • c=custom URL • q=quit" in
    list_View l ++ LF ++ helpText
  | customURLView =>
    let dialogWidth := int_sub (width m) 10 in
    let dialogWidth := if (dialogWidth <? 40)%Z then 40%Z else dialogWidth in
    let dialogWidth := if (80 <? dialogWidth)%Z then 80%Z else dialogWidth in
    let style := dialogStyle "170" dialogWidth in
    let content :=
      "Enter Custom YouTube URL" ++ LF ++ LF
      ++ textinput_View (textInput m) ++ LF ++ LF
      ++ Render hintStyle "Press Enter to play • ESC to cancel" in
    lipgloss_Place (width m) (height m) (Render style content)
  | quitConfirmView =>
    let dialogWidth := int_sub (width m) 20 in
    let dialogWidth := if (dialogWidth <? 30)%Z then 30%Z else dialogWidth in
    let dialogWidth := if (50 <? dialogWidth)%Z then 50%Z else dialogWidth in
    let style := dialogStyle "196" dialogWidth in
    let content :=
      "Are you sure you want to quit?" ++ LF ++ LF
      ++ Render hintStyle "Press Y to quit • N to cancel" in
    lipgloss_Place (width m) (height m) (Render style content)
  | loadingView =>
    let content :=
      spinner_View (spinner m) ++ " Loading " ++ loadingTitle m ++ "..."
      ++ LF ++ LF ++ "Please wait while we fetch the stream" in
    let style := dialogStyle "205" 50 in
    lipgloss_Place (width m) (height m) (Render style content)
  | managePresetsView =>
    let l := set_Title "Manage Presets" (list_ m) in
    let helpText :=
      Render menuHelpStyle
        "a=add • e=edit • d=delete • r=restore defaults • Enter=play • ESC=back" in
    list_View l ++ LF ++ helpText
  | addPresetView | editPresetView =>
    let dialogWidth := int_sub (width m) 10 in
    let dialogWidth := if (dialogWidth <? 60)%Z then 60%Z else dialogWidth in
    let dialogWidth := if (80 <? dialogWidth)%Z then 80%Z else dialogWidth in
    let style := dialogStyle "170" dialogWidth in
    let title :=
      match state m with
      | editPresetView => "Edit Preset"
      | _ => "Add New Preset"
      end in
    let content :=
      title ++ LF ++ LF
      ++ "Name:" ++ LF ++ textinput_View (nameInput m) ++ LF ++ LF
      ++ "URL:" ++ LF ++ textinput_View (urlInput m) ++ LF ++ LF
      ++ Render hintStyle
           "Press Enter to save • TAB to switch fields • ESC to cancel" in
    lipgloss_Place (width m) (height m) (Render style content)
  | deleteConfirmView =>
    let dialogWidth := int_sub (width m) 20 in
    let dialogWidth := if (dialogWidth <? 40)%Z then 40%Z else dialogWidth in
    let dialogWidth := if (60 <? dialogWidth)%Z then 60%Z else dialogWidth in
    let style := dialogStyle "196" dialogWidth in
    let presetName :=
      if (selectedIndex m <? len (Presets (config m)))%nat then
        match nth_error (elems (Presets (config m))) (selectedIndex m) with
        | Some p => Name p
        | None => ""
        end
      else "" in
    let content :=
      "Delete preset '" ++ presetName ++ "'?" ++ LF ++ LF
      ++ Render hintStyle "Press Y to confirm • N to cancel" in
    lipgloss_Place (width m) (height m) (Render style content)
  | restoreDefaultsConfirmView =>
    let dialogWidth := int_sub (width m) 20 in
    let dialogWidth := if (dialogWidth <? 50)%Z then 50%Z else dialogWidth in
    let dialogWidth := if (70 <? dialogWidth)%Z then 70%Z else dialogWidth in
    let style := dialogStyle "208" dialogWidth in
    let content :=
      "Restore Default Presets?" ++ LF ++ LF
      ++ Render hintStyle
           "This will replace all current presets with the original 10 defaults."
      ++ LF ++ LF
      ++ Render hintStyle "Press Y to confirm • N to cancel" in
    lipgloss_Place (width m) (height m) (Render style content)
  end.

End Display.

(** A screen that shows a style as a tag before the text, for the
    examples. *)
Definition plainScreen : Screen :=
  {| Render := fun st text =>
       (if border st then "[" ++ borderForeground st ++ "]" else "") ++ text;
     lipgloss_Place := fun _ _ text => text;
     list_View := fun l => Title l;
     textinput_View := Value;
     spinner_View := fun _ => "." |}.

(** ** What the libraries are taken to do, where a property needs it *)

(** [list.Update] moves the highlight and leaves the items as they are;
    [textinput.Update] edits the text and leaves the focus as it is. *)
Definition keeps_items (L : Libs) : Prop :=
  forall msg l, items (fst (list_Update msg l)) = items l.

Definition keeps_focus (L : Libs) : Prop :=
  forall msg t, focus (fst (textinput_Update msg t)) = focus t.

(** In the add and edit views, the input that [Update] hands the keys to is
    the one that has the focus. *)
Definition focus_agrees (m : model) : Prop :=
  focus (nameInput m) = (focusedInput m =? 0)%nat
  /\ focus (urlInput m) = negb (focusedInput m =? 0)%nat.

(** The keys that confirm something: no other key changes the presets. *)
Definition confirms (msg : Msg) : bool :=
  match msg with
  | KeyMsg key => key_is key ["enter"; "y"; "Y"]
  | _ => false
  end.

Definition resizes (msg : Msg) : bool :=
  match msg with
  | WindowSizeMsg _ _ => true
  | _ => false
  end.

(** A world with no home directory, and the model in the manage view once
    the size of the terminal is known. *)
Definition homelessWorld : World :=
  {| UserHomeDir := None; XDG_CONFIG_HOME := "/etc/xdg";
     files := fun _ => Absent; mkdirFails := fun _ => false;
     writeResult := fun _ _ => WriteOk; calls := [] |}.

Definition managingModel : model :=
  snd (@run plainLibs freshWorld startModel
         [WindowSizeMsg 100 40; KeyMsg "m"; KeyMsg "down"]).

(** Where [esc] leads. *)
Definition back (st : viewState) : viewState :=
  match st with
  | mainMenuView | customURLView | quitConfirmView | managePresetsView =>
    mainMenuView
  | loadingView => loadingView
  | addPresetView | editPresetView | deleteConfirmView
  | restoreDefaultsConfirmView => managePresetsView
  end.

(** What holds of the forms in every model the program reaches. *)
Definition form_ok (m : model) : Prop :=
  state m = addPresetView \/ state m = editPresetView ->
  focus_agrees m /\ (focusedInput m <= 1)%nat.

(** A configuration file whose one name is the byte FF, as it stands. *)
Definition rawWorld : World :=
  worldWith ("{" ++ json.quote ++ "presets" ++ json.quote ++ ": [{"
             ++ json.quote ++ "name" ++ json.quote ++ ": "
             ++ json.quote ++ String (byte 0xFF) "" ++ json.quote ++ "}]}").

(** The views that a key can lead to from a view, besides the view
    itself. *)
Definition successors (st : viewState) : list viewState :=
  match st with
  | mainMenuView =>
    [quitConfirmView; customURLView; managePresetsView; loadingView]
  | customURLView => [mainMenuView; loadingView]
  | quitConfirmView => [mainMenuView]
  | loadingView => []
  | managePresetsView =>
    [mainMenuView; addPresetView; editPresetView; deleteConfirmView;
     restoreDefaultsConfirmView; loadingView]
  | addPresetView | editPresetView | deleteConfirmView
  | restoreDefaultsConfirmView => [managePresetsView]
  end.

(** The model in the manage view over a configuration file with no
    preset. *)
Definition emptyModel : model :=
  snd (@run plainLibs emptyWorld (snd (@initialModel plainLibs emptyWorld))
         [WindowSizeMsg 100 40; KeyMsg "m"]).

(** The messages that leave a form: the two keys that close it, and the
    two messages that lead to the main menu. *)
Definition leaves_form (msg : Msg) : bool :=
  match msg with
  | KeyMsg key => key_is key ["esc"; "enter"]
  | streamURLMsg _ (Some _) | streamEndedMsg => true
  | _ => false
  end.

(** ** The runtime: commands and the messages they send *)

(** The commands of a batch, one by one; [tea.Batch] drops [nil]. *)
Fixpoint atoms (c : Cmd) : list Cmd :=
  match c with
  | nil_Cmd => []
  | tea_Batch c1 c2 => (atoms c1 ++ atoms c2)%list
  | _ => [c]
  end.

(** The commands that run the resolver or the player. *)
Definition streams (c : Cmd) : bool :=
  match c with
  | extractStreamURL _ | playMPV _ => true
  | _ => false
  end.

(** What a command sends to [Update] once it has run, [outcome] being what
    the process that it ran returned: [extractStreamURL] and [playMPV] as
    they are written in [main.go], a tick or a blink of a widget as a
    message for the widget. [tea.Quit] is for the runtime. *)
Definition message_of (c : Cmd) (outcome : result string string)
  : option Msg :=
  match c with
  | extractStreamURL _ => Some (resolved outcome)
  | playMPV _ =>
    Some (played match outcome with Err e => Some e | Ok _ => None end)
  | spinner_Tick => Some (OtherMsg 0)
  | textinput_Blink => Some (OtherMsg 1)
  | widget_Cmd tag => Some (OtherMsg tag)
  | nil_Cmd | tea_Quit | tea_Batch _ _ => None
  end.

(** Modelled from the spec: the event loop of section 5, which is the
    runtime of Bubble Tea and not part of the sources. Input, resizes and
    the messages of the commands are delivered one at a time to [Update],
    which runs to completion before the next; a command runs beside the
    loop and posts one message when it is done. The program as it runs is
    the world, the model that the last [Update] returned, and the commands
    that have not yet run. *)
Record System : Type := {
  world : World;
  current : model;
  pending : list Cmd
}.

(** Modelled from the spec: what happens to it. The terminal sends a key
    or a size, or one of the pending commands has run. *)
Inductive Event : Type :=
| Input (msg : Msg)
| Done (i : nat) (outcome : result string string).

Definition user (msg : Msg) : bool :=
  match msg with
  | KeyMsg _ | WindowSizeMsg _ _ => true
  | _ => false
  end.

Section Runtime.

Context {L : Libs}.

(** Modelled from the spec: the runtime hands a message to [Update] and
    keeps the command that it returns. *)
Definition deliver (s : System) (msg : Msg) : System :=
  let '(w, m, c) := Update (world s) (current s) msg in
  {| world := w; current := m; pending := (pending s ++ atoms c)%list |}.

(** Modelled from the spec: one turn of the loop. *)
Definition react (s : System) (ev : Event) : System :=
  match ev with
  | Input msg => if user msg then deliver s msg else s
  | Done i outcome =>
    match nth_error (pending s) i with
    | None => s
    | Some c =>
      let s' :=
        {| world := world s; current := current s;
           pending := (firstn i (pending s) ++ skipn (S i) (pending s))%list |}
      in
      match message_of c outcome with
      | Some msg => deliver s' msg
      | None => s'
      end
    end
  end.

(** [tea.NewProgram(initialModel(), ...).Run()]: the program starts on
    [initialModel] and the command of [Init]. *)
Definition start (w : World) : System :=
  let '(w', m) := initialModel w in
  {| world := w'; current := m; pending := atoms (Init m) |}.

End Runtime.

(** The widgets return no command that runs the resolver or the player. *)
Definition quiet_widgets (L : Libs) : Prop :=
  (forall msg l, existsb streams (atoms (snd (list_Update msg l))) = false)
  /\ (forall msg t,
        existsb streams (atoms (snd (textinput_Update msg t))) = false)
  /\ (forall msg s,
        existsb streams (atoms (snd (spinner_Update msg s))) = false).

(** The command that ends the program. *)
Definition quits (c : Cmd) : bool :=
  match c with
  | tea_Quit => true
  | _ => false
  end.

(** The widgets return no [tea.Quit]: a list whose quit keys are disabled
    returns none and leaves them disabled, and a text input and a spinner
    have no quit key. *)
Definition widgets_never_quit (L : Libs) : Prop :=
  (forall msg l,
     disableQuitKeybindings l = true ->
     existsb quits (atoms (snd (list_Update msg l))) = false
     /\ disableQuitKeybindings (fst (list_Update msg l)) = true)
  /\ (forall msg t,
        existsb quits (atoms (snd (textinput_Update msg t))) = false)
  /\ (forall msg s,
        existsb quits (atoms (snd (spinner_Update msg s))) = false).

(** The number of streams that are being resolved or played. *)
Definition streaming (s : System) : nat :=
  List.length (filter streams (pending s)).

Definition loading (st : viewState) : nat :=
  match st with loadingView => 1%nat | _ => 0%nat end.

(** ** Notions that the properties are stated with *)

(** One well-formed sequence and nothing else. *)
Definition one_rune (u : string) : Prop :=
  u <> "" /\ json.ill_formed u = false
  /\ snd (utf8.DecodeRuneInString u) = String.length u.

(** Every string of a value is valid. *)
Fixpoint vvalid (v : json.value) : bool :=
  match v with
  | json.Str s => utf8.ValidString s
  | json.Array vs => forallb vvalid vs
  | json.Object kvs => forallb (fun kv => vvalid (snd kv)) kvs
  | _ => true
  end.

Definition acc_valid (m : json.mode) : bool :=
  match m with
  | json.AValue => true
  | json.AElems acc => forallb vvalid acc
  | json.AMembers acc => forallb (fun kv => vvalid (snd kv)) acc
  end.

(** A preset whose name and URL are valid. *)
Definition pvalid (p : Preset) : bool :=
  utf8.ValidString (Name p) && utf8.ValidString (URL p).

(** No white space at either end. *)
Definition trimmed (s : string) : Prop :=
  unicode.IsSpace (fst (utf8.DecodeRuneInString s)) = false
  /\ unicode.IsSpace (fst (utf8.DecodeLastRuneInString s)) = false.

(** Every byte is at or above [RuneSelf]: no byte stands for itself. *)
Fixpoint high (s : string) : bool :=
  match s with
  | EmptyString => true
  | String c t => (utf8.RuneSelf <=? N_of_ascii c)%N && high t
  end.

(** The text begins as a number does. *)
Definition starts_number (s : string) : bool :=
  match s with
  | String c _ => (c =? "-")%char || json.isDigit c
  | EmptyString => false
  end.

(** The configuration [c] is persisted: what a call of [saveConfig] on [c]
    in the world [w] has come to in the world [w'] after it when the
    directory can be created and the file written. The two calls were
    made, the directory first; the configuration file holds the text of
    [c] and no other file has changed; and if the file can be read,
    [loadConfig] reads [c] back from it, with U+FFFD in the place of what
    was not UTF-8 in a name or a URL. *)
Definition persisted `{Libs} (w : World) (c : Config) (w' : World) : Prop :=
  forall dir data,
    getConfigDir w = Ok dir ->
    json.MarshalIndent c = Ok data ->
    let path := filepath_Join dir "config.json" in
    mkdirFails w dir = false ->
    writeResult w path data = WriteOk ->
    snd (saveConfig w c) = None
    /\ calls w' = WriteFile path data :: MkdirAll dir :: calls w
    /\ (exists readable, files w' path = File readable data)
    /\ (forall p, p <> path -> files w' p = files w p)
    /\ ((forall d, files w path <> File false d) ->
          os_ReadFile w' path = Some data
          /\ loadConfig w' = Ok (json.coerceConfig c)).

(** The bookkeeping of the streams: as many are being resolved or played
    as the view says, one in the loading view and none elsewhere. *)
Definition in_step (s : System) : Prop :=
  streaming s = loading (state (current s)).

(** * Properties *)

Lemma nonempty_true (s : string) : nonempty s = true <-> s <> "".
Proof. destruct s; simpl; split; congruence. Qed.

Lemma nonempty_false (s : string) : nonempty s = false <-> s = "".
Proof. destruct s; simpl; split; congruence. Qed.

(** [append(s[:i], s[i+1:]...)] is [s] without its element at [i]. *)
Lemma elems_remove {A} (s : slice A) (i : nat) :
  elems (append_slice (upto s i) (from s (i + 1)))
  = (firstn i (elems s) ++ skipn (S i) (elems s))%list.
Proof.
  rewrite Nat.add_1_r. destruct s as [| l]; cbn.
  - now destruct i.
  - destruct (skipn (S i) l); reflexivity.
Qed.

(** Without the element at [i], what stood before [i] stays in place and
    what stood after it moves down by one. *)
Lemma nth_error_remove {A} (l : list A) (i j : nat) :
  nth_error (firstn i l ++ skipn (S i) l) j
  = if (j <? i)%nat then nth_error l j else nth_error l (S j).
Proof.
  revert i j. induction l as [| a l IH]; intros i j.
  - rewrite firstn_nil. cbn [skipn app].
    destruct (j <? i)%nat, j; reflexivity.
  - destruct i as [| i].
    + cbn [firstn skipn app]. reflexivity.
    + destruct j as [| j]; [reflexivity |].
      cbn [firstn skipn app nth_error]. rewrite IH.
      change (S j <? S i)%nat with (j <? i)%nat. reflexivity.
Qed.

Lemma length_remove {A} (l : list A) (i : nat) :
  (i < List.length l)%nat ->
  (List.length (firstn i l ++ skipn (S i) l) + 1 = List.length l)%nat.
Proof.
  intros H. rewrite length_app, length_firstn, length_skipn. lia.
Qed.

(** Projections of updated models and worlds. *)
Ltac msimpl :=
  cbn [world_of model_of cmd_of fst snd
       list_ textInput nameInput urlInput spinner config state quitting width
       height ready loadingTitle selectedIndex focusedInput
       set_list set_textInput set_nameInput set_urlInput set_spinner
       set_config set_state set_quitting set_size set_loadingTitle
       set_selectedIndex set_focusedInput refreshList
       items index Title list_width list_height disableQuitKeybindings
       SetItems SetWidth SetHeight set_Title DisableQuitKeybindings Index
       value focus Placeholder Width set_value Focus Blur set_Width
       set_Placeholder Value
       Presets elems] in *.

(** The case of [switch msg.String()] that a literal key selects. *)
Ltac key_case := cbn [key_is existsb String.eqb Ascii.eqb Bool.eqb orb].

(** ** The codec: reading back what was written *)

Section Codec.

(** ** Strings *)

Lemma append_assoc (a b c : string) : (a ++ b) ++ c = a ++ (b ++ c).
Proof. induction a as [| x a IH]; cbn; [reflexivity | now rewrite IH]. Qed.

Lemma length_append (a b : string) :
  String.length (a ++ b) = (String.length a + String.length b)%nat.
Proof. induction a as [| x a IH]; cbn; [reflexivity | now rewrite IH]. Qed.

Lemma take_drop (n : nat) (s : string) : take n s ++ drop n s = s.
Proof.
  revert s. induction n as [| n IH]; intros [| c t]; cbn; try reflexivity.
  now rewrite IH.
Qed.

Lemma length_take (n : nat) (s : string) :
  (n <= String.length s)%nat -> String.length (take n s) = n.
Proof.
  revert s. induction n as [| n IH]; intros [| c t]; cbn; intros H;
    try reflexivity; try lia.
  rewrite IH; [reflexivity | lia].
Qed.

Lemma length_drop (n : nat) (s : string) :
  String.length (drop n s) = (String.length s - n)%nat.
Proof.
  revert s. induction n as [| n IH]; intros [| c t]; cbn; auto.
Qed.

Lemma take_app (n : nat) (s r : string) :
  String.length s = n -> take n (s ++ r) = s.
Proof.
  revert s. induction n as [| n IH]; intros [| c t]; cbn; intros H;
    try reflexivity; try discriminate.
  rewrite IH; [reflexivity | lia].
Qed.

Lemma drop_app (n : nat) (s r : string) :
  String.length s = n -> drop n (s ++ r) = r.
Proof.
  revert s. induction n as [| n IH]; intros [| c t]; cbn; intros H;
    try reflexivity; try discriminate.
  apply IH. lia.
Qed.

(** ** UTF-8 *)

Lemma first_size (s0 : N) (sz : nat) (lo hi : N) :
  utf8.first s0 = Some (sz, lo, hi) -> (2 <= sz <= 4)%nat.
Proof.
  unfold utf8.first.
  repeat match goal with
         | |- context [if ?b then _ else _] => destruct b
         end; intros H; inversion H; lia.
Qed.

(** A sequence that is not ill-formed has between one and four bytes, all
    of them in the string. *)
Lemma decode_size (s : string) :
  s <> "" -> json.ill_formed s = false ->
  (1 <= snd (utf8.DecodeRuneInString s) <= String.length s)%nat.
Proof.
  unfold json.ill_formed, utf8.DecodeRuneInString.
  destruct s as [| c0 t0]; [congruence |]. intros _.
  destruct (_ <? utf8.RuneSelf)%N; [cbn; lia |].
  destruct (utf8.first _) as [[[sz lo] hi] |]; [| discriminate].
  destruct (_ <? sz)%nat; [discriminate |].
  destruct t0 as [| c1 t1]; [discriminate |].
  destruct (utf8.outside lo hi _); [discriminate |].
  destruct (sz <=? 2)%nat; [cbn; lia |].
  destruct t1 as [| c2 t2]; [discriminate |].
  destruct (utf8.outside _ _ _); [discriminate |].
  destruct (sz <=? 3)%nat; [cbn; lia |].
  destruct t2 as [| c3 t3]; [discriminate |].
  destruct (utf8.outside _ _ _); [discriminate |].
  cbn; lia.
Qed.

Ltac long_enough :=
  match goal with
  | |- context [(String.length ?x <? ?sz)%nat] =>
    replace (String.length x <? sz)%nat with false
      by (symmetry; apply Nat.ltb_ge; cbn [String.length]; lia)
  end.

(** What [DecodeRuneInString] finds depends on the bytes of the sequence
    only. *)
Lemma decode_prefix (s r : string) :
  s <> "" -> json.ill_formed s = false ->
  utf8.DecodeRuneInString (take (snd (utf8.DecodeRuneInString s)) s ++ r)
  = utf8.DecodeRuneInString s.
Proof.
  unfold json.ill_formed.
  destruct s as [| c0 t0]; [congruence |]. intros _.
  destruct (utf8.DecodeRuneInString (String c0 t0)) as [x n] eqn:Hd.
  cbn [snd]. revert Hd. unfold utf8.DecodeRuneInString.
  destruct (_ <? utf8.RuneSelf)%N eqn:E0.
  { intros [= <- <-] _. cbn [take String.append]. cbv zeta. now rewrite E0. }
  destruct (utf8.first _) as [[[sz lo] hi] |] eqn:F;
    [| intros [= <- <-]; discriminate].
  pose proof (first_size _ _ _ _ F) as Hsz.
  destruct (_ <? sz)%nat eqn:EL; [intros [= <- <-]; discriminate |].
  destruct t0 as [| c1 t1]; [intros [= <- <-]; discriminate |].
  destruct (utf8.outside lo hi _) eqn:E1; [intros [= <- <-]; discriminate |].
  destruct (sz <=? 2)%nat eqn:S2.
  { intros [= <- <-] _. cbn [take String.append]. cbv zeta. rewrite E0, F, E1, S2.
    apply Nat.leb_le in S2. now long_enough. }
  destruct t1 as [| c2 t2]; [intros [= <- <-]; discriminate |].
  destruct (utf8.outside _ _ (N_of_ascii c2)) eqn:E2;
    [intros [= <- <-]; discriminate |].
  destruct (sz <=? 3)%nat eqn:S3.
  { intros [= <- <-] _. cbn [take String.append]. cbv zeta. rewrite E0, F, E1, S2, E2, S3.
    apply Nat.leb_le in S3. now long_enough. }
  destruct t2 as [| c3 t3]; [intros [= <- <-]; discriminate |].
  destruct (utf8.outside _ _ (N_of_ascii c3)) eqn:E3;
    [intros [= <- <-]; discriminate |].
  intros [= <- <-] _. cbn [take String.append]. cbv zeta. rewrite E0, F, E1, S2, E2, S3, E3.
  now long_enough.
Qed.

(** ** String literals: [unquote] after [appendString] *)

Ltac each_byte c :=
  destruct c as [[] [] [] [] [] [] [] []].

(** An ASCII byte written as it is. *)
Lemma unquote_safe (c : ascii) (f : nat) (x : string) :
  (N_of_ascii c <? utf8.RuneSelf)%N = true ->
  json.htmlSafe (N_of_ascii c) = true ->
  json.unquote_go (S f) (String c x)
  = json.prepend (String c "") (json.unquote_go f x).
Proof.
  each_byte c; intros H1 H2; try discriminate H1; try discriminate H2;
    reflexivity.
Qed.

(** An ASCII byte written as an escape. *)
Lemma unquote_escape (c : ascii) (f : nat) (x : string) :
  (N_of_ascii c <? utf8.RuneSelf)%N = true ->
  json.htmlSafe (N_of_ascii c) = false ->
  json.unquote_go (S f) (json.escape (N_of_ascii c) ++ x)
  = json.prepend (String c "") (json.unquote_go f x).
Proof.
  each_byte c; intros H1 H2; try discriminate H1; try discriminate H2;
    reflexivity.
Qed.

Lemma length_escape (b : N) : (1 <= String.length (json.escape b))%nat.
Proof.
  unfold json.escape.
  repeat match goal with
         | |- context [if ?b then _ else _] => destruct b
         end; cbn; lia.
Qed.

(** A byte past ASCII. *)
Lemma unquote_high (c : ascii) (f : nat) (x : string) :
  (N_of_ascii c <? utf8.RuneSelf)%N = false ->
  json.unquote_go (S f) (String c x)
  = if json.ill_formed (String c x)
    then json.prepend json.replacement (json.unquote_go f x)
    else
      let size := snd (utf8.DecodeRuneInString (String c x)) in
      json.prepend (take size (String c x))
        (json.unquote_go f (drop size (String c x))).
Proof.
  each_byte c; intros H1; try discriminate H1; reflexivity.
Qed.

Lemma decode_ascii (c : ascii) (t : string) :
  (N_of_ascii c <? utf8.RuneSelf)%N = true ->
  json.ill_formed (String c t) = false
  /\ snd (utf8.DecodeRuneInString (String c t)) = 1%nat.
Proof.
  intros H. unfold json.ill_formed, utf8.DecodeRuneInString. rewrite H.
  split; [| reflexivity]. apply andb_false_iff. left.
  apply N.eqb_neq. apply N.ltb_lt in H. unfold utf8.RuneSelf in H.
  unfold utf8.RuneError. lia.
Qed.

Lemma byte_of_code (c : ascii) (n : N) :
  (N_of_ascii c =? n)%N = true -> c = byte n.
Proof.
  intros H. apply N.eqb_eq in H. subst n. unfold byte.
  now rewrite ascii_N_embedding.
Qed.

(** U+2028 and U+2029, written as escapes. *)
Lemma unquote_line_sep (s : string) (d : N) (f : nat) (x : string) :
  json.line_sep s = Some d ->
  snd (utf8.DecodeRuneInString s) = 3%nat
  /\ json.unquote_go (S f) ("\u202" ++ json.hex d ++ x)
     = json.prepend (take 3 s) (json.unquote_go f x).
Proof.
  unfold json.line_sep.
  destruct s as [| c0 [| c1 [| c2 t]]]; try discriminate.
  destruct (_ && _) eqn:E; [| discriminate]. intros [= <-].
  apply andb_prop in E as [E E2]. apply andb_prop in E as [E0 E1].
  apply byte_of_code in E0, E1. subst c0 c1.
  apply orb_prop in E2 as [E2 | E2]; apply byte_of_code in E2; subst c2;
    split; reflexivity.
Qed.

Lemma unquote_replacement (f : nat) (x : string) :
  json.unquote_go (S f) ("\u" ++ "fffd" ++ x)
  = json.prepend json.replacement (json.unquote_go f x).
Proof. reflexivity. Qed.

(** Reading the text that [appendString] puts between the quotes, and the
    closing quote, gives the string coerced. *)
Lemma unquote_appendString_go (n : nat) :
  forall (s : string) (f : nat) (x : string),
    (String.length s <= n)%nat ->
    (String.length (json.appendString_go n s) < f)%nat ->
    json.unquote_go f (json.appendString_go n s ++ json.quote ++ x)
    = Some (json.coerce_go n s, x).
Proof.
  induction n as [| n IH]; intros s f x Hs Hf.
  - destruct f as [| f]; [cbn in Hf; lia |]. reflexivity.
  - destruct s as [| c t].
    { destruct f as [| f]; [cbn in Hf; lia |]. reflexivity. }
    cbn [String.length] in Hs.
    cbn [json.appendString_go json.coerce_go] in *.
    destruct (N_of_ascii c <? utf8.RuneSelf)%N eqn:E0.
    + destruct (decode_ascii c t E0) as [-> ->]. cbn [take drop String.append].
      destruct (json.htmlSafe _) eqn:Esafe.
      * cbn [String.length String.append] in *.
        destruct f as [| f]; [lia |].
        rewrite unquote_safe by assumption.
        rewrite IH by lia. reflexivity.
      * rewrite length_append in Hf. pose proof (length_escape (N_of_ascii c)).
        destruct f as [| f]; [lia |].
        rewrite append_assoc, unquote_escape by assumption.
        rewrite IH by lia. reflexivity.
    + destruct (json.ill_formed (String c t)) eqn:Eill.
      * rewrite length_append in Hf. cbn [String.length String.append] in Hf.
        destruct f as [| f]; [lia |].
        rewrite !append_assoc, unquote_replacement.
        rewrite IH by lia. reflexivity.
      * pose proof (decode_size (String c t) ltac:(discriminate) Eill) as Hsize.
        set (size := snd (utf8.DecodeRuneInString (String c t))) in *.
        assert (String.length (drop size (String c t)) <= n)%nat as Hd.
        { rewrite length_drop. cbn [String.length] in *. lia. }
        destruct (json.line_sep _) as [d |] eqn:Els.
        -- destruct f as [| f]; [lia |].
           destruct (unquote_line_sep _ d f
                       (json.appendString_go n (drop size (String c t))
                        ++ json.quote ++ x) Els) as [H3 Hu].
           fold size in H3.
           rewrite !length_append in Hf. cbn [String.length] in Hf.
           rewrite !append_assoc. rewrite Hu.
           rewrite IH by lia. now rewrite H3.
        -- rewrite length_append, length_take in Hf by lia.
           destruct f as [| f]; [lia |].
           rewrite append_assoc.
           set (y := json.appendString_go n (drop size (String c t))
                     ++ json.quote ++ x).
           assert (exists u, take size (String c t) ++ y = String c u) as [u Hu].
           { destruct size; [lia |]. cbn. eauto. }
           pose proof (decode_prefix (String c t) y ltac:(discriminate) Eill)
             as Hp. fold size in Hp.
           assert (json.ill_formed (take size (String c t) ++ y) = false) as Hi.
           { unfold json.ill_formed in *. now rewrite Hp. }
           rewrite Hu in *. rewrite unquote_high by assumption.
           rewrite Hi, Hp. fold size. cbv zeta. rewrite <- Hu.
           rewrite take_app, drop_app by (apply length_take; lia).
           subst y. rewrite IH by lia. reflexivity.
Qed.

Lemma unquote_appendString (s x : string) :
  json.unquote (json.appendString_go (String.length s) s ++ json.quote ++ x)
  = Some (json.coerce s, x).
Proof.
  unfold json.unquote, json.coerce. apply unquote_appendString_go; [lia |].
  rewrite length_append. cbn. lia.
Qed.

(** ** The text of a configuration, read back *)

#[local] Arguments json.unquote : simpl never.
#[local] Arguments json.appendString_go : simpl never.
#[local] Arguments json.coerce : simpl never.
#[local] Arguments String.length : simpl never.

(** A string literal. *)
Lemma parse_string (k : nat) (d : N) (s x : string) :
  json.parse (S k) d json.AValue (json.appendString s ++ x)
  = Some (json.Str (json.coerce s), x).
Proof.
  unfold json.appendString. rewrite !append_assoc.
  set (body := json.appendString_go _ _ ++ _).
  cbn. subst body. now rewrite unquote_appendString.
Qed.

(** A key that [appendString] writes as it is. *)
Definition plain (key : string) : Prop :=
  json.appendString_go (String.length key) key = key /\ json.coerce key = key.

(** A member of an object: its key, the colon and its value. *)
Lemma parse_member (k : nat) (d : N) (acc : list (string * json.value))
  (key vtext : string) (v : json.value) (r2 : string) :
  plain key ->
  json.skip_ws vtext = vtext ->
  json.parse k d json.AValue vtext = Some (v, r2) ->
  json.parse (S k) d (json.AMembers acc)
    (json.quote ++ key ++ json.quote ++ ": " ++ vtext)
  = match json.skip_ws r2 with
    | String c2 r3 =>
      if (c2 =? ",")%char
      then json.parse k d (json.AMembers ((key, v) :: acc)) (json.skip_ws r3)
      else if (c2 =? "}")%char
      then Some (json.Object (rev ((key, v) :: acc)), r3)
      else None
    | EmptyString => None
    end.
Proof.
  intros [Hk1 Hk2] Hws Hv.
  pose proof (unquote_appendString key (": " ++ vtext)) as Hu.
  rewrite Hk1, Hk2 in Hu.
  set (body := key ++ _) in *.
  cbn. rewrite Hu. cbn. rewrite Hws, Hv. reflexivity.
Qed.

(** The first step of [parse] on an object, on an array and on an element
    of an array. *)
Lemma parse_object (k : nat) (d : N) (t : string) :
  json.parse (S k) d json.AValue (String "{" t)
  = if (json.maxNestingDepth <? d + 1)%N then None else
    match json.skip_ws t with
    | String c r =>
      if (c =? "}")%char then Some (json.Object [], r)
      else json.parse k (d + 1)%N (json.AMembers []) (json.skip_ws t)
    | EmptyString => None
    end.
Proof. reflexivity. Qed.

Lemma parse_array (k : nat) (d : N) (t : string) :
  json.parse (S k) d json.AValue (String "[" t)
  = if (json.maxNestingDepth <? d + 1)%N then None else
    match json.skip_ws t with
    | String c r =>
      if (c =? "]")%char then Some (json.Array [], r)
      else json.parse k (d + 1)%N (json.AElems []) (json.skip_ws t)
    | EmptyString => None
    end.
Proof. reflexivity. Qed.

Lemma parse_element (k : nat) (d : N) (acc : list json.value) (s : string) :
  json.parse (S k) d (json.AElems acc) s
  = match json.parse k d json.AValue s with
    | None => None
    | Some (v, r) =>
      match json.skip_ws r with
      | String c r' =>
        if (c =? ",")%char
        then json.parse k d (json.AElems (v :: acc)) (json.skip_ws r')
        else if (c =? "]")%char then Some (json.Array (rev (v :: acc)), r')
        else None
      | EmptyString => None
      end
    end.
Proof. reflexivity. Qed.

Lemma parse_null (k : nat) (d : N) (x : string) :
  json.parse (S k) d json.AValue ("null" ++ x) = Some (json.Null, x).
Proof. reflexivity. Qed.

#[local] Arguments json.parse : simpl never.

Lemma plain_name : plain "name".
Proof. split; reflexivity. Qed.

Lemma plain_url : plain "url".
Proof. split; reflexivity. Qed.

Lemma plain_presets : plain "presets".
Proof. split; reflexivity. Qed.

Lemma skip_ws_appendString (s x : string) :
  json.skip_ws (json.appendString s ++ x) = json.appendString s ++ x.
Proof. reflexivity. Qed.

(** What a preset is read back as. *)
Definition presetValue (p : Preset) : json.value :=
  json.Object [("name", json.Str (json.coerce (Name p)));
               ("url", json.Str (json.coerce (URL p)))].

(** An element of the array of presets, from its opening brace. *)
Lemma parse_preset (k : nat) (p : Preset) (x : string) :
  json.parse (S (S (S (S k)))) 2 json.AValue
    (json.skip_ws (json.encodePreset p ++ x))
  = Some (presetValue p, x).
Proof.
  unfold json.encodePreset. rewrite !append_assoc.
  assert (json.parse (S (S k)) 3
            (json.AMembers [("name", json.Str (json.coerce (Name p)))])
            (json.quote ++ "url" ++ json.quote ++ ": "
             ++ json.appendString (URL p) ++ json.nl ++ "    }" ++ x)
          = Some (presetValue p, x)) as Hurl.
  { rewrite (parse_member _ _ _ "url" _ (json.Str (json.coerce (URL p)))
               (json.nl ++ "    }" ++ x) plain_url
               (skip_ws_appendString _ _) (parse_string _ _ _ _)).
    reflexivity. }
  assert (json.parse (S (S (S k))) 3 (json.AMembers [])
            (json.quote ++ "name" ++ json.quote ++ ": "
             ++ json.appendString (Name p) ++ "," ++ json.nl ++ "      "
             ++ json.quote ++ "url" ++ json.quote ++ ": "
             ++ json.appendString (URL p) ++ json.nl ++ "    }" ++ x)
          = Some (presetValue p, x)) as Hname.
  { rewrite (parse_member _ _ _ "name" _ (json.Str (json.coerce (Name p)))
               ("," ++ json.nl ++ "      "
                ++ json.quote ++ "url" ++ json.quote ++ ": "
                ++ json.appendString (URL p) ++ json.nl ++ "    }" ++ x)
               plain_name (skip_ws_appendString _ _) (parse_string _ _ _ _)).
    exact Hurl. }
  match goal with
  | |- json.parse _ _ _ (json.skip_ws ("    {" ++ ?t)) = _ =>
    change (json.skip_ws ("    {" ++ t)) with (String "{" t)
  end.
  rewrite parse_object. exact Hname.
Qed.

Lemma length_encodePresets (ps : list Preset) :
  (List.length ps <= String.length (json.encodePresets ps))%nat.
Proof.
  induction ps as [| p ps IH]; [cbn; lia |].
  assert (1 <= String.length (json.encodePreset p))%nat as Hp.
  { unfold json.encodePreset. cbn [String.append].
    change (String.length (String " " ?t)) with (S (String.length t)). lia. }
  destruct ps as [| p' ps]; [cbn [json.encodePresets List.length]; lia |].
  change (json.encodePresets (p :: p' :: ps))
    with (json.encodePreset p ++ "," ++ json.nl ++ json.encodePresets (p' :: ps)).
  rewrite !length_append. cbn [List.length] in *. lia.
Qed.

(** The elements of the array of presets, up to its closing bracket. *)
Lemma parse_presets (ps : list Preset) :
  forall (acc : list json.value) (fuel : nat) (x : string),
    ps <> [] ->
    (List.length ps + 4 <= fuel)%nat ->
    json.parse fuel 2 (json.AElems acc)
      (json.skip_ws (json.nl ++ json.encodePresets ps ++ json.nl ++ "  ]" ++ x))
    = Some (json.Array (rev acc ++ map presetValue ps), x).
Proof.
  induction ps as [| p ps IH]; intros acc fuel x Hne Hfuel; [congruence |].
  cbn [List.length] in Hfuel.
  destruct fuel as [| [| [| [| [| k]]]]]; try lia.
  destruct ps as [| p' ps].
  - cbn [json.encodePresets].
    change (json.skip_ws (json.nl ++ json.encodePreset p ++ json.nl ++ "  ]" ++ x))
      with (json.skip_ws (json.encodePreset p ++ json.nl ++ "  ]" ++ x)).
    rewrite parse_element, parse_preset. reflexivity.
  - change (json.encodePresets (p :: p' :: ps))
      with (json.encodePreset p ++ "," ++ json.nl ++ json.encodePresets (p' :: ps)).
    rewrite !append_assoc.
    match goal with
    | |- json.parse _ _ _ (json.skip_ws (json.nl ++ ?t)) = _ =>
      change (json.skip_ws (json.nl ++ t)) with (json.skip_ws t)
    end.
    rewrite parse_element, parse_preset.
    match goal with
    | |- ?lhs = _ =>
      change lhs with
        (json.parse (S (S (S (S k)))) 2 (json.AElems (presetValue p :: acc))
           (json.skip_ws (json.nl ++ json.encodePresets (p' :: ps)
                          ++ json.nl ++ "  ]" ++ x)))
    end.
    rewrite IH; [| discriminate | cbn [List.length] in *; lia].
    cbn [rev map]. now rewrite <- app_assoc.
Qed.

Definition sliceValue (s : slice Preset) : json.value :=
  match s with
  | nil_slice => json.Null
  | Slice ps => json.Array (map presetValue ps)
  end.

(** The text that [MarshalIndent] writes is well-formed JSON: an object
    with the one member [presets]. *)
Lemma scan_MarshalIndent (config : Config) (data : string) :
  json.MarshalIndent config = Ok data ->
  json.scan data
  = Some (json.Object [("presets", sliceValue (Presets config))]).
Proof.
  unfold json.MarshalIndent. intros [= <-].
  set (s := Presets config).
  match goal with |- json.scan ?d = _ => set (data := d) end.
  unfold json.scan.
  assert (exists k,
            (2 * String.length data + 2 = S (S (S k)))%nat
            /\ (List.length (elems s) + 4 <= k)%nat) as (k & -> & Hk).
  { exists (2 * String.length data - 1)%nat.
    assert (List.length (elems s) + 3 <= String.length data)%nat; [| lia].
    subst data.
    repeat match goal with
           | |- context [String.length (String ?c ?t)] =>
             change (String.length (String c t)) with (S (String.length t))
           end.
    rewrite length_append.
    destruct s as [| [| p ps]]; cbn [elems List.length]; [lia | lia |].
    cbn [json.encodeSlice]. rewrite !length_append.
    change (String.length "[") with 1%nat.
    pose proof (length_encodePresets (p :: ps)) as Hl.
    cbn [List.length] in Hl. lia. }
  change (json.skip_ws data)
    with (String "{" (json.nl ++ "  " ++ json.quote ++ "presets" ++ json.quote
                      ++ ": " ++ json.encodeSlice s ++ json.nl ++ "}")).
  rewrite parse_object.
  assert (json.skip_ws (json.encodeSlice s ++ json.nl ++ "}")
          = json.encodeSlice s ++ json.nl ++ "}") as Hws.
  { destruct s as [| [| p ps]]; reflexivity. }
  assert (json.parse (S k) 1 json.AValue (json.encodeSlice s ++ json.nl ++ "}")
          = Some (sliceValue s, json.nl ++ "}")) as Hv.
  { destruct s as [| [| p ps]]; [reflexivity | reflexivity |].
    cbn [json.encodeSlice sliceValue]. rewrite !append_assoc.
    change ("[" ++ ?t) with (String "[" t). rewrite parse_array.
    assert (exists t, json.skip_ws (json.nl ++ json.encodePresets (p :: ps)
                        ++ json.nl ++ "  ]" ++ json.nl ++ "}") = String "{" t)
      as [t Ht].
    { destruct ps; cbn [json.encodePresets]; unfold json.encodePreset;
        rewrite ?append_assoc; eexists; reflexivity. }
    rewrite Ht. cbv iota. rewrite <- Ht.
    match goal with
    | |- ?lhs = _ =>
      change lhs with
        (json.parse k 2 (json.AElems [])
           (json.skip_ws (json.nl ++ json.encodePresets (p :: ps)
                          ++ json.nl ++ "  ]" ++ json.nl ++ "}")))
    end.
    apply parse_presets; [discriminate | exact Hk]. }
  pose proof (parse_member (S k) 1 [] "presets" _ _ _ plain_presets Hws Hv)
    as Hm.
  match goal with
  | |- ?lhs = _ =>
    change lhs with
      (match json.parse (S (S k)) 1 (json.AMembers [])
               (json.quote ++ "presets" ++ json.quote ++ ": "
                ++ json.encodeSlice s ++ json.nl ++ "}") with
       | Some (v, r) =>
         match json.skip_ws r with
         | EmptyString => Some v
         | String _ _ => None
         end
       | None => None
       end)
  end.
  rewrite Hm. reflexivity.
Qed.

Lemma decodeArray_presets (ps old : list Preset) :
  json.decodeArray (map presetValue ps) old = (map json.coercePreset ps, true).
Proof.
  revert old. induction ps as [| p ps IH]; intros old; [reflexivity |].
  cbn [map json.decodeArray]. rewrite IH.
  destruct old as [| p0 old]; reflexivity.
Qed.

(** [Unmarshal] gives back the configuration that [MarshalIndent] wrote,
    ill-formed bytes apart. *)
Lemma Unmarshal_MarshalIndent (config : Config) (data : string) :
  json.MarshalIndent config = Ok data ->
  json.Unmarshal data = Ok (json.coerceConfig config).
Proof.
  intros H. unfold json.Unmarshal. rewrite (scan_MarshalIndent _ _ H).
  unfold json.coerceConfig. destruct (Presets config) as [| ps];
    [reflexivity |].
  cbn [sliceValue json.decodeConfig json.decodeConfigFields].
  change (json.names "presets" "presets") with true. cbv iota.
  cbn [json.decodeSlice Presets elems]. rewrite decodeArray_presets.
  destruct ps; reflexivity.
Qed.

(** On valid UTF-8 the coercion changes nothing. *)
Lemma coerce_go_valid (n : nat) :
  forall s, (String.length s <= n)%nat ->
    utf8.valid_go n s = true -> json.coerce_go n s = s.
Proof.
  induction n as [| n IH]; intros s Hs Hv.
  - destruct s; [reflexivity | discriminate].
  - destruct s as [| c t]; [reflexivity |].
    cbn [utf8.valid_go json.coerce_go] in *.
    unfold json.ill_formed.
    destruct (utf8.DecodeRuneInString (String c t)) as [r size] eqn:Hd.
    destruct ((r =? utf8.RuneError)%N && (size =? 1)%nat) eqn:Hi;
      [discriminate |].
    pose proof (decode_size (String c t) ltac:(discriminate)) as Hsize.
    unfold json.ill_formed in Hsize. rewrite Hd in Hsize.
    specialize (Hsize Hi). cbn [snd] in *.
    rewrite IH; [apply take_drop | | exact Hv].
    rewrite length_drop. change (String.length (String c t))
      with (S (String.length t)) in *. lia.
Qed.

Lemma coerce_valid (s : string) :
  utf8.ValidString s = true -> json.coerce s = s.
Proof. apply coerce_go_valid. lia. Qed.

Lemma coerceConfig_wellFormed (config : Config) :
  json.wellFormed config = true -> json.coerceConfig config = config.
Proof.
  unfold json.wellFormed, json.coerceConfig.
  destruct config as [[| ps]]; cbn [Presets elems]; [reflexivity |].
  intros H. do 2 f_equal.
  induction ps as [| p ps IH]; [reflexivity |].
  cbn [forallb map] in *. apply andb_prop in H as [Hp Hps].
  apply andb_prop in Hp as [Hn Hu]. rewrite IH by assumption.
  unfold json.coercePreset. rewrite !coerce_valid by assumption.
  now destruct p.
Qed.

(** What the coercion gives is valid UTF-8. *)
Lemma valid_go_coerce_go (n : nat) :
  forall (s : string) (m : nat),
    (String.length s <= n)%nat ->
    (String.length (json.coerce_go n s) <= m)%nat ->
    utf8.valid_go m (json.coerce_go n s) = true.
Proof.
  induction n as [| n IH]; intros s m Hs Hm.
  - destruct m; reflexivity.
  - destruct s as [| c t]; [destruct m; reflexivity |].
    change (String.length (String c t)) with (S (String.length t)) in Hs.
    cbn [json.coerce_go] in *.
    destruct (json.ill_formed (String c t)) eqn:Eill.
    + rewrite length_append in Hm.
      change (String.length json.replacement) with 3%nat in Hm.
      destruct m as [| m]; [lia |].
      change (utf8.valid_go (S m) (json.replacement ++ ?r))
        with (utf8.valid_go m r).
      apply IH; lia.
    + pose proof (decode_size (String c t) ltac:(discriminate) Eill) as Hsize.
      pose proof (decode_prefix (String c t)
                    (json.coerce_go n
                       (drop (snd (utf8.DecodeRuneInString (String c t)))
                          (String c t)))
                    ltac:(discriminate) Eill) as Hp.
      set (size := snd (utf8.DecodeRuneInString (String c t))) in *.
      set (r := json.coerce_go n (drop size (String c t))) in *.
      change (String.length (String c t)) with (S (String.length t)) in Hsize.
      rewrite length_append, length_take in Hm
        by (change (String.length (String c t)) with (S (String.length t)); lia).
      assert (exists u, take size (String c t) ++ r = String c u) as [u Hu].
      { destruct size; [lia |]. cbn. eauto. }
      destruct m as [| m]; [lia |].
      assert (utf8.valid_go (S m) (take size (String c t) ++ r)
              = utf8.valid_go m r) as ->.
      { rewrite Hu at 1. cbn [utf8.valid_go]. rewrite <- Hu, Hp.
        unfold json.ill_formed in Eill.
        destruct (utf8.DecodeRuneInString (String c t)) as [x k] eqn:Hd.
        rewrite Eill. subst size. cbn [snd].
        rewrite drop_app; [reflexivity |].
        apply length_take.
        change (String.length (String c t)) with (S (String.length t)).
        cbn [snd] in Hsize. lia. }
      subst r. apply IH; [| lia].
      rewrite length_drop.
      change (String.length (String c t)) with (S (String.length t)). lia.
Qed.

Lemma ValidString_coerce (s : string) :
  utf8.ValidString (json.coerce s) = true.
Proof.
  unfold utf8.ValidString, json.coerce. apply valid_go_coerce_go; lia.
Qed.

Lemma wellFormed_coerceConfig (config : Config) :
  json.wellFormed (json.coerceConfig config) = true.
Proof.
  unfold json.wellFormed, json.coerceConfig.
  destruct (Presets config) as [| ps]; [reflexivity |].
  cbn [Presets elems]. induction ps as [| p ps IH]; [reflexivity |].
  cbn [map forallb json.coercePreset Name URL].
  now rewrite !ValidString_coerce, IH.
Qed.

End Codec.

Section Properties.

Context {L : Libs}.

(** ** What [saveConfig] leaves on the disk *)

(** A call of [saveConfig] that returns no error has written the text of
    [MarshalIndent] at the path of the configuration file. *)
Lemma saveConfig_success (w w1 : World) (c : Config) (path : string) :
  getConfigPath w = Ok path ->
  saveConfig w c = (w1, None) ->
  exists dir data,
    getConfigDir w = Ok dir
    /\ mkdirFails w dir = false /\ writeResult w path data = WriteOk
    /\ json.MarshalIndent c = Ok data
    /\ w1 = written path data
              (called (WriteFile path data) (called (MkdirAll dir) w)).
Proof.
  unfold saveConfig, getConfigPath, os_MkdirAll, os_WriteFile.
  destruct (getConfigDir w) as [dir | e] eqn:Hd; [| discriminate].
  intros [= <-].
  destruct (mkdirFails w dir) eqn:Hm; cbn [negb]; [discriminate |].
  assert (getConfigDir (called (MkdirAll dir) w) = Ok dir) as -> by exact Hd.
  destruct (json.MarshalIndent c) as [data | e]; [| discriminate].
  cbn [writeResult called].
  destruct (writeResult w _ data) eqn:Hw; try discriminate.
  intros [= <-]. exists dir, data. auto.
Qed.

(** With the directory created and the file written, [saveConfig] returns
    no error. *)
Lemma saveConfig_writes (w : World) (c : Config) (dir data : string) :
  getConfigDir w = Ok dir ->
  json.MarshalIndent c = Ok data ->
  mkdirFails w dir = false ->
  writeResult w (filepath_Join dir "config.json") data = WriteOk ->
  saveConfig w c
  = (written (filepath_Join dir "config.json") data
       (called (WriteFile (filepath_Join dir "config.json") data)
          (called (MkdirAll dir) w)), None).
Proof.
  intros Hd Hj Hm Hw.
  unfold saveConfig, getConfigPath, os_MkdirAll, os_WriteFile.
  rewrite Hd, Hm. cbn [negb].
  assert (getConfigDir (called (MkdirAll dir) w) = Ok dir) as -> by exact Hd.
  rewrite Hj. cbn [writeResult called]. now rewrite Hw.
Qed.

(** After a [saveConfig] that succeeded, [loadConfig] reads back what was
    saved, ill-formed bytes apart. *)
Lemma load_after_save (w w1 : World) (c : Config) (path data : string) :
  getConfigPath w = Ok path ->
  saveConfig w c = (w1, None) ->
  os_ReadFile w1 path = Some data ->
  json.MarshalIndent c = Ok data
  /\ loadConfig w1 = Ok (json.coerceConfig c).
Proof.
  intros Hp Hs Hr.
  destruct (saveConfig_success w w1 c path Hp Hs)
    as (dir & data0 & Hd & Hm & Hw & Hj & ->).
  assert (os_ReadFile
            (written path data0
               (called (WriteFile path data0) (called (MkdirAll dir) w)))
            path = Some data0) as Hr0.
  { revert Hr. unfold os_ReadFile, written. cbn [files called].
    rewrite String.eqb_refl.
    destruct (files w path) as [| [|] d]; intros [=]; reflexivity. }
  assert (data = data0) as -> by congruence.
  split; [exact Hj |].
  unfold loadConfig, os_IsNotExist.
  assert (getConfigPath (written path data0
            (called (WriteFile path data0) (called (MkdirAll dir) w)))
          = Ok path) as -> by exact Hp.
  rewrite Hr0. unfold written at 1. cbn [files called].
  rewrite String.eqb_refl.
  rewrite (Unmarshal_MarshalIndent _ _ Hj).
  revert Hr0. unfold os_ReadFile, written. cbn [files called].
  rewrite String.eqb_refl.
  destruct (files w path) as [| [|] d]; intros [=]; reflexivity.
Qed.

(** Saving again what was saved leaves the file as it is. *)
Lemma save_again (w w1 : World) (c : Config) (path data : string) :
  getConfigPath w = Ok path ->
  saveConfig w c = (w1, None) ->
  os_ReadFile w1 path = Some data ->
  snd (saveConfig w1 c) = None
  /\ os_ReadFile (fst (saveConfig w1 c)) path = Some data
  /\ files (fst (saveConfig w1 c)) path = files w1 path.
Proof.
  intros Hp Hs Hr.
  destruct (saveConfig_success w w1 c path Hp Hs)
    as (dir & data0 & Hd & Hm & Hw & Hj & ->).
  assert (exists rd, files w path = rd
                     /\ (rd = Absent \/ exists d, rd = File true d))
    as (rd & Hf & Hrd).
  { revert Hr. unfold os_ReadFile, written. cbn [files called].
    rewrite String.eqb_refl.
    destruct (files w path) as [| [|] d]; intros [=]; eauto. }
  assert (data = data0) as ->.
  { revert Hr. unfold os_ReadFile, written. cbn [files called].
    rewrite String.eqb_refl, Hf.
    destruct Hrd as [-> | [d ->]]; now intros [= ->]. }
  assert (filepath_Join dir "config.json" = path) as Hpath.
  { revert Hp. unfold getConfigPath. rewrite Hd. now intros [= ->]. }
  rewrite (saveConfig_writes _ c dir data0);
    [| exact Hd | exact Hj | exact Hm | rewrite Hpath; exact Hw].
  rewrite Hpath. cbn [fst snd]. split; [reflexivity |].
  unfold os_ReadFile, written. cbn [files called]. rewrite String.eqb_refl, Hf.
  destruct Hrd as [-> | [d ->]]; repeat split.
Qed.

(** What [saveConfig] returns is in the file when nothing failed. *)
Lemma saveConfig_persisted (w : World) (c : Config) :
  persisted w c (fst (saveConfig w c)).
Proof.
  intros dir data Hd Hj path Hm Hw.
  pose proof (saveConfig_writes w c dir data Hd Hj Hm Hw) as Hs.
  fold path in Hs.
  assert (getConfigPath w = Ok path) as Hp.
  { unfold getConfigPath. now rewrite Hd. }
  split; [now rewrite Hs |]. split; [now rewrite Hs |]. split.
  { rewrite Hs. unfold written. cbn [fst files called].
    rewrite String.eqb_refl. destruct (files w path) as [| rd d]; eauto. }
  split.
  { intros p Hne. rewrite Hs. unfold written. cbn [fst files called].
    apply String.eqb_neq in Hne. now rewrite Hne. }
  intros Hf.
  assert (os_ReadFile (fst (saveConfig w c)) path = Some data) as Hr.
  { rewrite Hs. unfold os_ReadFile, written. cbn [fst files called].
    rewrite String.eqb_refl.
    destruct (files w path) as [| [|] d] eqn:E; try reflexivity.
    now destruct (Hf d). }
  split; [exact Hr |].
  rewrite Hs in Hr |- *. cbn [fst] in *.
  exact (proj2 (load_after_save w _ c path data Hp Hs Hr)).
Qed.

(** A call of [saveConfig] that returns an error leaves every file as it
    was, unless the error is that of [os.WriteFile]: the configuration file
    is then as it was, when it could not be opened, or holds a beginning of
    the new text and nothing else; the other files are as they were. *)
Lemma saveConfig_failure (w : World) (c : Config) (e : error) :
  snd (saveConfig w c) = Some e ->
  (e <> ErrWriteConfig ->
     forall p, files (fst (saveConfig w c)) p = files w p)
  /\ (e = ErrWriteConfig ->
      exists path data,
        getConfigPath w = Ok path
        /\ json.MarshalIndent c = Ok data
        /\ (forall p, p <> path ->
              files (fst (saveConfig w c)) p = files w p)
        /\ ((writeResult w path data = OpenError
             /\ files (fst (saveConfig w c)) path = files w path)
            \/ exists n,
                 writeResult w path data = WriteError n
                 /\ files (fst (saveConfig w c)) path
                    = File match files w path with
                           | Absent => true
                           | File readable _ => readable
                           end (take n data))).
Proof.
  unfold saveConfig, getConfigPath, os_MkdirAll, os_WriteFile.
  destruct (getConfigDir w) as [dir | e0] eqn:Hd.
  2:{ assert (e0 = ErrUserHomeDir) as ->.
      { revert Hd. unfold getConfigDir.
        destruct (UserHomeDir w); [discriminate | now intros [= <-]]. }
      cbn [snd fst]. intros [= <-]. split; [reflexivity | discriminate]. }
  destruct (mkdirFails w dir); cbn [negb].
  { cbn [snd fst]. intros [= <-]. split; [reflexivity | discriminate]. }
  assert (getConfigDir (called (MkdirAll dir) w) = Ok dir) as -> by exact Hd.
  destruct (json.MarshalIndent c) as [data | e1].
  2:{ cbn [snd fst]. intros [= <-]. split; [reflexivity | discriminate]. }
  cbn [writeResult called].
  destruct (writeResult w _ data) as [| | n] eqn:Hw; cbn [snd fst];
    [discriminate | |]; intros [= <-]; (split; [congruence |]); intros _;
    exists (filepath_Join dir "config.json"), data;
    (split; [reflexivity |]); (split; [reflexivity |]).
  - split; [reflexivity |]. left. split; [exact Hw | reflexivity].
  - split.
    + intros p Hne. unfold written. cbn [files called].
      apply String.eqb_neq in Hne. now rewrite Hne.
    + right. exists n. split; [exact Hw |].
      unfold written. cbn [files called]. rewrite String.eqb_refl.
      now destruct (files w _) as [| rd d].
Qed.

(** What [Update] does on a key that carries out one of the four
    operations: it puts the new configuration in the model, refreshes the
    list, goes to the manage view, and leaves the world as [saveConfig]
    left it, with no command. *)
Lemma mutates_Update (w : World) (m : model) (key : string) :
  mutates m key = true ->
  Update w m (KeyMsg key)
  = (fst (saveConfig w (mutated m)),
     set_state managePresetsView (refreshList (set_config (mutated m) m)),
     nil_Cmd).
Proof.
  unfold mutates, mutated, Update, updateKey. intros H.
  assert (forall k, key_is key ["enter"] = true -> key_is key k = true ->
            In "enter" k) as Henter.
  { intros k Hk Hin. cbn in Hk. rewrite orb_false_r in Hk.
    apply String.eqb_eq in Hk. subst key.
    unfold key_is in Hin. apply existsb_exists in Hin as (x & Hx & E).
    apply String.eqb_eq in E. now subst x. }
  destruct (state m) eqn:Hst; try discriminate;
    try (apply andb_prop in H as [Hk Hg]);
    try (destruct (key_is key ["esc"]) eqn:He;
         [ apply (Henter _ Hk) in He; cbn in He; intuition discriminate |];
         destruct (key_is key ["tab"; "shift+tab"]) eqn:Ht;
         [ apply (Henter _ Hk) in Ht; cbn in Ht; intuition discriminate |]);
    try rewrite Hk; try rewrite Hg; try rewrite H; msimpl;
    destruct (saveConfig w _) as [w' e]; reflexivity.
Qed.

Lemma elems_slice_set {A} (s : slice A) (i : nat) (x : A) :
  elems (slice_set s i x) = list_set (elems s) i x.
Proof. destruct s; [now destruct i | reflexivity]. Qed.

(** C1: in the add view, [enter] with a name and a URL that are both
    non-empty once trimmed appends the entry made of the trimmed name and
    URL at the end of the presets, saves the configuration, refreshes the
    list and goes to the manage view. The world is what [saveConfig] made
    of it on the new configuration: when the directory can be created and
    the file written, the configuration file holds the text of the new
    configuration, from which [loadConfig] reads it back. When the name or
    the URL is empty once trimmed, nothing happens: the view stays, and the
    configuration, the model and the world are as before. *)
Theorem add_preset_on_enter (w : World) (m : model) :
  state m = addPresetView ->
  let name := strings.TrimSpace (Value (nameInput m)) in
  let url := strings.TrimSpace (Value (urlInput m)) in
  let r := Update w m (KeyMsg "enter") in
  (name <> "" /\ url <> "" ->
     elems (Presets (config (model_of r)))
       = (elems (Presets (config m)) ++ [{| Name := name; URL := url |}])%list
     /\ world_of r = fst (saveConfig w (config (model_of r)))
     /\ persisted w (config (model_of r)) (world_of r)
     /\ items (list_ (model_of r)) = elems (Presets (config (model_of r)))
     /\ state (model_of r) = managePresetsView)
  /\ (name = "" \/ url = "" ->
     state (model_of r) = addPresetView
     /\ config (model_of r) = config m
     /\ model_of r = m /\ world_of r = w /\ cmd_of r = nil_Cmd).
Proof.
  intros Hst name url r. split.
  - intros [Hn Hu]. apply nonempty_true in Hn, Hu.
    assert (mutates m "enter" = true) as Hmut.
    { unfold mutates. rewrite Hst. key_case. fold name url.
      now rewrite Hn, Hu. }
    subst r. rewrite (mutates_Update w m "enter" Hmut). msimpl.
    unfold mutated. rewrite Hst. fold name url.
    split; [reflexivity |]. split; [reflexivity |].
    split; [apply saveConfig_persisted |]. split; reflexivity.
  - intros H. subst r. unfold Update, updateKey. rewrite Hst.
    key_case. fold name url.
    assert (nonempty name && nonempty url = false) as ->.
    { destruct H as [H | H]; rewrite H; cbn; auto using andb_false_r. }
    msimpl. auto.
Qed.

(** C2: a [streamURLMsg] that carries an error, as the resolver sends when
    it fails, sends the model to the main menu and changes nothing else:
    the configuration, the list with its items and its highlighted index,
    every other field, and the world, in which no call was made, are as
    before. This holds in the loading view as in any other. *)
Theorem resolution_failure_returns_to_menu
  (w : World) (m : model) (url err : string) :
  let r := Update w m (streamURLMsg url (Some err)) in
  Update w m (resolved (Err err)) = Update w m (streamURLMsg "" (Some err))
  /\ state (model_of r) = mainMenuView
  /\ config (model_of r) = config m
  /\ items (list_ (model_of r)) = items (list_ m)
  /\ Index (list_ (model_of r)) = Index (list_ m)
  /\ model_of r = set_state mainMenuView m
  /\ world_of r = w
  /\ calls (world_of r) = calls w
  /\ cmd_of r = nil_Cmd.
Proof. cbn. repeat split. Qed.

(** A key in the loading view reaches the spinner only. *)
Lemma loading_key (w : World) (m : model) (key : string) :
  state m = loadingView ->
  Update w m (KeyMsg key)
  = (w, set_spinner (fst (spinner_Update (KeyMsg key) (spinner m))) m,
     snd (spinner_Update (KeyMsg key) (spinner m))).
Proof.
  intros Hst. unfold Update, updateKey, updateWidget. rewrite Hst.
  now destruct (spinner_Update _ _).
Qed.

(** C7: in the loading view a key changes neither the view, nor the
    configuration, nor the world, and so does any sequence of keys; a
    message after which the view is no longer the loading view is a
    [streamURLMsg] or the [streamEndedMsg]. *)
Theorem loading_ignores_keys (w : World) (m : model) :
  state m = loadingView ->
  (forall key,
     let r := Update w m (KeyMsg key) in
     state (model_of r) = loadingView
     /\ config (model_of r) = config m
     /\ world_of r = w)
  /\ (forall keys,
     let r := run w m (map KeyMsg keys) in
     state (snd r) = loadingView
     /\ config (snd r) = config m
     /\ fst r = w)
  /\ (forall msg,
     state (model_of (Update w m msg)) <> loadingView ->
     (exists url err, msg = streamURLMsg url err) \/ msg = streamEndedMsg).
Proof.
  intros Hst. split; [| split].
  - intros key r. subst r. rewrite loading_key by assumption. msimpl. auto.
  - intros keys. revert m Hst.
    induction keys as [| key keys IH]; intros m Hst; [cbn; auto |].
    cbn [map run]. rewrite loading_key by assumption.
    specialize (IH (set_spinner (fst (spinner_Update (KeyMsg key) (spinner m))) m)
                  Hst).
    exact IH.
  - intros msg Hleft. destruct msg as [url err | | W H | key | tag].
    + left. eauto.
    + right. reflexivity.
    + exfalso. apply Hleft. unfold Update. msimpl. exact Hst.
    + exfalso. apply Hleft. rewrite loading_key by assumption. exact Hst.
    + exfalso. apply Hleft. unfold Update, updateWidget.
      rewrite Hst. destruct (spinner_Update _ _) as [s c]. msimpl. exact Hst.
Qed.

(** C10: in the custom URL view, [enter] on a text that is not empty, made
    of white space or not, goes to the loading view and hands the text as
    it stands, untrimmed, to the resolver; the text input is empty
    afterwards, as it is after [esc] or [ctrl+c], which go back to the main
    menu. *)
Theorem custom_url_on_enter (w : World) (m : model) :
  state m = customURLView ->
  (Value (textInput m) <> "" ->
     let r := Update w m (KeyMsg "enter") in
     state (model_of r) = loadingView
     /\ cmd_of r = tea_Batch spinner_Tick (extractStreamURL (Value (textInput m)))
     /\ Value (textInput (model_of r)) = "")
  /\ (forall key, key = "esc" \/ key = "ctrl+c" ->
     let r := Update w m (KeyMsg key) in
     state (model_of r) = mainMenuView
     /\ Value (textInput (model_of r)) = "").
Proof.
  intros Hst. split.
  - intros Hne r. subst r. unfold Update, updateKey. rewrite Hst. key_case.
    apply nonempty_true in Hne. rewrite Hne. msimpl. auto.
  - intros key [-> | ->] r; subst r; unfold Update, updateKey; rewrite Hst;
      key_case; msimpl; auto.
Qed.

(** C4: in the delete confirmation, [y] (or [Y]) always goes back to the
    manage view. When the remembered index is below the number of presets,
    the preset at that index is removed: the presets before it stay in
    place, those after it move down by one, there is one preset fewer, the
    configuration is saved and the list refreshed. The world is what
    [saveConfig] made of it on the new configuration: when the directory
    can be created and the file written, the configuration file holds the
    text of the configuration with its one preset fewer, from which
    [loadConfig] reads it back. When the index is not below the number of
    presets, the configuration, the list and the world are as before. [n],
    [N] and [esc] go back to the manage view and change neither the
    configuration nor the world. *)
Theorem delete_on_confirm (w : World) (m : model) :
  state m = deleteConfirmView ->
  let i := selectedIndex m in
  let l := elems (Presets (config m)) in
  (forall key, key = "y" \/ key = "Y" ->
     let r := Update w m (KeyMsg key) in
     let l' := elems (Presets (config (model_of r))) in
     state (model_of r) = managePresetsView
     /\ ((i < List.length l)%nat ->
           l' = (firstn i l ++ skipn (S i) l)%list
           /\ (forall j, nth_error l' j
                 = if (j <? i)%nat then nth_error l j else nth_error l (S j))
           /\ (List.length l' + 1 = List.length l)%nat
           /\ world_of r = fst (saveConfig w (config (model_of r)))
           /\ persisted w (config (model_of r)) (world_of r)
           /\ items (list_ (model_of r)) = l')
     /\ ((List.length l <= i)%nat ->
           config (model_of r) = config m
           /\ list_ (model_of r) = list_ m
           /\ world_of r = w))
  /\ (forall key, key = "n" \/ key = "N" \/ key = "esc" ->
     let r := Update w m (KeyMsg key) in
     state (model_of r) = managePresetsView
     /\ config (model_of r) = config m
     /\ world_of r = w).
Proof.
  intros Hst i l. split.
  - intros key Hkey r l'.
    assert (key_is key ["y"; "Y"] = true) as Hk.
    { destruct Hkey as [-> | ->]; reflexivity. }
    destruct (i <? List.length l)%nat eqn:Hi.
    + assert (mutates m key = true) as Hmut.
      { unfold mutates. rewrite Hst, Hk. unfold len. fold i l. now rewrite Hi. }
      apply Nat.ltb_lt in Hi. subst r l'.
      rewrite (mutates_Update w m key Hmut). msimpl.
      unfold mutated. rewrite Hst. cbn [Presets].
      rewrite elems_remove. fold i l.
      split; [reflexivity |]. split; [| intros; lia]. intros _.
      split; [reflexivity |]. split; [intros j; apply nth_error_remove |].
      split; [now apply length_remove |]. split; [reflexivity |].
      split; [apply saveConfig_persisted | reflexivity].
    + apply Nat.ltb_ge in Hi. subst r l'.
      unfold Update, updateKey. rewrite Hst, Hk. unfold len. fold i l.
      apply Nat.ltb_ge in Hi. rewrite Hi. msimpl.
      split; [reflexivity |]. apply Nat.ltb_ge in Hi.
      split; [intros; lia | auto].
  - intros key Hkey r. subst r.
    destruct Hkey as [-> | [-> | ->]]; unfold Update, updateKey;
      rewrite Hst; key_case; msimpl; auto.
Qed.

Lemma length_list_set {A} (l : list A) (i : nat) (x : A) :
  List.length (list_set l i x) = List.length l.
Proof.
  revert i. induction l as [| a l IH]; intros [| i]; cbn; auto.
Qed.


(** C9: a key that carries out an add, an edit, a delete or a restore of
    the defaults gives the same model and the same command, [nil], whatever
    the world, hence whether or not [saveConfig] succeeds: the change is
    made to the configuration in the model (the entry appended, the entry
    at the remembered index replaced or removed, the defaults put back),
    the list shows it, the view is the manage view. The world is left as
    [saveConfig] left it. When [saveConfig] returned an error, the disk
    does not follow the model: every file is as it was, unless the error is
    that of [os.WriteFile], and then the configuration file is as it was,
    when it could not be opened, or holds a beginning of the new text and
    nothing else. *)
Theorem save_result_is_discarded (w : World) (m : model) (key : string) :
  mutates m key = true ->
  let r := Update w m (KeyMsg key) in
  let entry := {| Name := strings.TrimSpace (Value (nameInput m));
                  URL := strings.TrimSpace (Value (urlInput m)) |} in
  let l := elems (Presets (config m)) in
  let l' := elems (Presets (config (model_of r))) in
  (forall w2, model_of (Update w2 m (KeyMsg key)) = model_of r
              /\ cmd_of (Update w2 m (KeyMsg key)) = cmd_of r)
  /\ (state m = addPresetView -> l' = (l ++ [entry])%list)
  /\ (state m = editPresetView -> l' = list_set l (selectedIndex m) entry)
  /\ (state m = deleteConfirmView ->
        l' = (firstn (selectedIndex m) l ++ skipn (S (selectedIndex m)) l)%list)
  /\ (state m = restoreDefaultsConfirmView ->
        config (model_of r) = getDefaultConfig)
  /\ state (model_of r) = managePresetsView
  /\ items (list_ (model_of r)) = l'
  /\ cmd_of r = nil_Cmd
  /\ world_of r = fst (saveConfig w (config (model_of r)))
  /\ (forall e, snd (saveConfig w (config (model_of r))) = Some e ->
        (e <> ErrWriteConfig -> forall p, files (world_of r) p = files w p)
        /\ (e = ErrWriteConfig ->
            exists path data,
              getConfigPath w = Ok path
              /\ json.MarshalIndent (config (model_of r)) = Ok data
              /\ (forall p, p <> path -> files (world_of r) p = files w p)
              /\ ((writeResult w path data = OpenError
                   /\ files (world_of r) path = files w path)
                  \/ exists n readable,
                       writeResult w path data = WriteError n
                       /\ files (world_of r) path
                          = File readable (take n data)))).
Proof.
  intros H r entry l l'. subst r l'. split.
  - intros w2. now rewrite (mutates_Update w2 m key H), (mutates_Update w m key H).
  - rewrite (mutates_Update w m key H). msimpl. unfold mutated.
    split; [now intros -> |].
    split; [intros ->; apply elems_slice_set |].
    split; [intros ->; apply elems_remove |].
    split; [now intros -> |].
    split; [reflexivity |]. split; [reflexivity |]. split; [reflexivity |].
    split; [reflexivity |].
    intros e He. destruct (saveConfig_failure w _ e He) as [H1 H2].
    split; [exact H1 |]. intros E.
    destruct (H2 E) as (path & data & Hp & Hj & Hrest & Hcase).
    exists path, data. split; [exact Hp |]. split; [exact Hj |].
    split; [exact Hrest |].
    destruct Hcase as [Ho | (n & Hn & Hf)]; [now left | right; eauto].
Qed.

(** C3: with the path of the configuration file at hand, [loadConfig]
    returns the defaults and no error when no file stands there; it returns
    an error, and no configuration, when the file cannot be read or when
    [json.Unmarshal] rejects its content, as it does every content that is
    not well-formed JSON. When [loadConfig] returns an error, [initialModel]
    takes the defaults, shows them in the list, and calls [saveConfig] on
    them, whose result it drops: the world is left as that call left it,
    whether it failed or not. *)
Theorem load_config_and_startup (w : World) (path : string) :
  getConfigPath w = Ok path ->
  (files w path = Absent -> loadConfig w = Ok getDefaultConfig)
  /\ (forall data, files w path = File false data ->
        loadConfig w = Err ErrReadConfig)
  /\ (forall data e, files w path = File true data ->
        json.Unmarshal data = Err e ->
        loadConfig w = Err (ErrParseConfig e))
  /\ (forall data, json.scan data = None ->
        json.Unmarshal data = Err json.SyntaxError)
  /\ (forall e, loadConfig w = Err e ->
        config (snd (initialModel w)) = getDefaultConfig
        /\ items (list_ (snd (initialModel w))) = elems (Presets getDefaultConfig)
        /\ state (snd (initialModel w)) = mainMenuView
        /\ fst (initialModel w) = fst (saveConfig w getDefaultConfig)).
Proof.
  intros Hp. repeat split.
  - intros Hf. unfold loadConfig, os_IsNotExist. now rewrite Hp, Hf.
  - intros data Hf. unfold loadConfig, os_IsNotExist, os_ReadFile.
    now rewrite Hp, Hf.
  - intros data e Hf Hu. unfold loadConfig, os_IsNotExist, os_ReadFile.
    now rewrite Hp, Hf, Hu.
  - intros data Hs. unfold json.Unmarshal. now rewrite Hs.
  - unfold initialModel. rewrite H.
    destruct (saveConfig w getDefaultConfig). reflexivity.
  - unfold initialModel. rewrite H.
    destruct (saveConfig w getDefaultConfig). reflexivity.
  - unfold initialModel. rewrite H.
    destruct (saveConfig w getDefaultConfig). reflexivity.
  - unfold initialModel. rewrite H.
    destruct (saveConfig w getDefaultConfig). reflexivity.
Qed.

(** In the manage view the delete keys go to the confirmation and
    remember [list.Index()], whether an item is selected or not. *)
Lemma delete_key_goes_to_confirmation (w : World) (m : model) (key : string) :
  key = "d" \/ key = "x" ->
  Update w (set_state managePresetsView m) (KeyMsg key)
  = (w, set_selectedIndex (Index (list_ m)) (set_state deleteConfirmView m),
     nil_Cmd).
Proof. intros [-> | ->]; reflexivity. Qed.

(** The element at [i] replaced, the others in place. *)
Lemma nth_error_list_set {A} (l : list A) (i j : nat) (x : A) :
  (i < List.length l)%nat ->
  nth_error (list_set l i x) j
  = if (j =? i)%nat then Some x else nth_error l j.
Proof.
  revert i j. induction l as [| a l IH]; intros i j Hi; [cbn in Hi; lia |].
  destruct i as [| i], j as [| j]; cbn; try reflexivity.
  apply IH. cbn in Hi. lia.
Qed.

(** In the edit view, [enter] with a name and a URL that are both non-empty
    once trimmed and a remembered index below the number of presets puts
    the entry made of the trimmed name and URL at that index, leaves the
    other presets in place, saves the configuration, refreshes the list and
    goes to the manage view: when the directory can be created and the file
    written, the configuration file holds the text of the new
    configuration, from which [loadConfig] reads it back. Otherwise nothing
    happens. *)
Theorem edit_preset_on_enter (w : World) (m : model) :
  state m = editPresetView ->
  let name := strings.TrimSpace (Value (nameInput m)) in
  let url := strings.TrimSpace (Value (urlInput m)) in
  let i := selectedIndex m in
  let l := elems (Presets (config m)) in
  let r := Update w m (KeyMsg "enter") in
  let l' := elems (Presets (config (model_of r))) in
  (name <> "" /\ url <> "" /\ (i < List.length l)%nat ->
     (forall j, nth_error l' j
        = if (j =? i)%nat then Some {| Name := name; URL := url |}
          else nth_error l j)
     /\ List.length l' = List.length l
     /\ world_of r = fst (saveConfig w (config (model_of r)))
     /\ persisted w (config (model_of r)) (world_of r)
     /\ items (list_ (model_of r)) = l'
     /\ state (model_of r) = managePresetsView)
  /\ (name = "" \/ url = "" \/ (List.length l <= i)%nat ->
     model_of r = m /\ world_of r = w /\ cmd_of r = nil_Cmd).
Proof.
  intros Hst name url i l r l'. split.
  - intros (Hn & Hu & Hi).
    apply nonempty_true in Hn, Hu.
    assert (mutates m "enter" = true) as Hmut.
    { unfold mutates. rewrite Hst. key_case. fold name url i.
      unfold len. fold l. apply Nat.ltb_lt in Hi. now rewrite Hn, Hu, Hi. }
    subst r l'. rewrite (mutates_Update w m "enter" Hmut). msimpl.
    unfold mutated. rewrite Hst. fold name url i. cbn [Presets].
    rewrite elems_slice_set. fold l.
    split; [intros j; now apply nth_error_list_set |].
    split; [apply length_list_set |]. split; [reflexivity |].
    split; [apply saveConfig_persisted |]. split; reflexivity.
  - intros H. subst r l'. unfold Update, updateKey. rewrite Hst. key_case.
    fold name url i. unfold len. fold l.
    assert (nonempty name && nonempty url && (i <? List.length l)%nat = false)
      as ->.
    { destruct H as [H | [H | H]].
      - rewrite H. reflexivity.
      - rewrite H. cbn. now rewrite andb_false_r.
      - apply Nat.ltb_ge in H. rewrite H. apply andb_false_r. }
    msimpl. auto.
Qed.

(** In the restore confirmation, [y] (or [Y]) puts the ten defaults back in
    their order, saves them, refreshes the list and goes to the manage
    view: when the directory can be created and the file written, the
    configuration file holds the text of the defaults, from which
    [loadConfig] reads them back. [n], [N] and [esc] go to the manage view
    and change neither the configuration nor the world. *)
Theorem restore_defaults_on_confirm (w : World) (m : model) :
  state m = restoreDefaultsConfirmView ->
  (forall key, key = "y" \/ key = "Y" ->
     let r := Update w m (KeyMsg key) in
     config (model_of r) = getDefaultConfig
     /\ len (Presets (config (model_of r))) = 10%nat
     /\ items (list_ (model_of r)) = elems (Presets getDefaultConfig)
     /\ world_of r = fst (saveConfig w getDefaultConfig)
     /\ persisted w getDefaultConfig (world_of r)
     /\ state (model_of r) = managePresetsView)
  /\ (forall key, key = "n" \/ key = "N" \/ key = "esc" ->
     let r := Update w m (KeyMsg key) in
     state (model_of r) = managePresetsView
     /\ config (model_of r) = config m
     /\ world_of r = w).
Proof.
  intros Hst. split.
  - intros key Hkey r.
    assert (mutates m key = true) as Hmut.
    { unfold mutates. rewrite Hst. destruct Hkey as [-> | ->]; reflexivity. }
    subst r. rewrite (mutates_Update w m key Hmut). msimpl.
    unfold mutated. rewrite Hst.
    split; [reflexivity |]. split; [reflexivity |]. split; [reflexivity |].
    split; [reflexivity |]. split; [apply saveConfig_persisted | reflexivity].
  - intros key [-> | [-> | ->]] r; subst r; unfold Update, updateKey;
      rewrite Hst; key_case; msimpl; auto.
Qed.

(** What [MarshalIndent] writes, [Unmarshal] reads back as the same
    configuration, its ill-formed bytes replaced by U+FFFD; it is the same
    configuration when its names and URLs are valid UTF-8. *)
Theorem Unmarshal_after_MarshalIndent (c : Config) :
  match json.MarshalIndent c with
  | Ok data =>
    json.Unmarshal data = Ok (json.coerceConfig c)
    /\ json.wellFormed (json.coerceConfig c) = true
    /\ (json.wellFormed c = true -> json.Unmarshal data = Ok c)
  | Err _ => False
  end.
Proof.
  destruct (json.MarshalIndent c) as [data | e] eqn:H; [| discriminate].
  pose proof (Unmarshal_MarshalIndent c data H) as Hu.
  split; [exact Hu |]. split; [apply wellFormed_coerceConfig |].
  intros Hwf. now rewrite Hu, coerceConfig_wellFormed.
Qed.

End Properties.

(** * What the rest of the program shows *)

(** Every case of [Update], one goal for each. *)
Ltac step_cases :=
  repeat (cbv beta iota zeta;
          match goal with
          | |- context [if ?b then _ else _] => destruct b eqn:?
          | |- context [SelectedItem ?l] => destruct (SelectedItem l) eqn:?
          | |- context [saveConfig ?w ?c] => destruct (saveConfig w c) eqn:?
          | |- context [list_Update ?a ?l] => destruct (list_Update a l) eqn:?
          | |- context [textinput_Update ?a ?t] =>
            destruct (textinput_Update a t) eqn:?
          | |- context [spinner_Update ?a ?t] =>
            destruct (spinner_Update a t) eqn:?
          end);
  cbv beta iota zeta.

(** A guard of [mutates] that the case at hand contradicts. *)
Ltac guard_false H :=
  exfalso;
  repeat match goal with
         | E : _ = true |- _ => rewrite E in H; clear E
         end;
  cbn in H; discriminate H.

Section Navigation.

Context {L : Libs}.

(** ** What changes the presets, and what never does *)

(** A message that carries out none of the four operations leaves the
    configuration and the world as they are. *)
Lemma Update_frame (w : World) (m : model) (msg : Msg) :
  (forall key, msg = KeyMsg key -> mutates m key = false) ->
  config (model_of (Update w m msg)) = config m
  /\ world_of (Update w m msg) = w.
Proof.
  intros H. destruct msg as [url [err |] | | W H0 | key | tag];
    try (cbn; auto; fail).
  - specialize (H key eq_refl). unfold mutates in H.
    unfold Update, updateKey, updateWidget, toggleFocus.
    destruct (state m) eqn:Hst; step_cases; msimpl; auto; guard_false H.
  - unfold Update, updateWidget. destruct (state m); step_cases; msimpl; auto.
Qed.

Lemma key_is_In (key : string) (l : list string) :
  key_is key l = true <-> In key l.
Proof.
  unfold key_is. rewrite existsb_exists. split.
  - intros (x & Hx & E). apply String.eqb_eq in E. now subst x.
  - intros H. exists key. split; [exact H | apply String.eqb_refl].
Qed.

Lemma key_is_incl (key : string) (a b : list string) :
  incl a b -> key_is key a = true -> key_is key b = true.
Proof. rewrite !key_is_In. auto. Qed.

(** The four operations are carried out on [enter], [y] and [Y] only. *)
Lemma mutates_confirms (m : model) (key : string) :
  mutates m key = true -> confirms (KeyMsg key) = true.
Proof.
  unfold mutates, confirms.
  destruct (state m); try discriminate; intros H;
    try apply andb_prop in H as [H _];
    revert H; apply key_is_incl; intros x; cbn; tauto.
Qed.

Lemma run_cons (w : World) (m : model) (msg : Msg) (rest : list Msg) :
  run w m (msg :: rest)
  = run (world_of (Update w m msg)) (model_of (Update w m msg)) rest.
Proof. cbn [run]. now destruct (Update w m msg) as [[w' m'] c]. Qed.

Lemma quiet_step (w : World) (m : model) (msg : Msg) :
  confirms msg = false ->
  config (model_of (Update w m msg)) = config m
  /\ world_of (Update w m msg) = w.
Proof.
  intros H. apply Update_frame. intros key ->.
  destruct (mutates m key) eqn:E; [| reflexivity].
  apply mutates_confirms in E. congruence.
Qed.

(** The presets change on a confirmation only: a message that carries out
    none of the four operations leaves the configuration in the model and
    the world as they are, and so does every sequence of messages that
    holds none of the keys [enter], [y] and [Y]. *)
Theorem presets_change_on_confirmation_only (w : World) (m : model) :
  (forall msg,
     (forall key, msg = KeyMsg key -> mutates m key = false) ->
     config (model_of (Update w m msg)) = config m
     /\ world_of (Update w m msg) = w)
  /\ (forall msgs,
        forallb (fun msg => negb (confirms msg)) msgs = true ->
        config (snd (run w m msgs)) = config m /\ fst (run w m msgs) = w).
Proof.
  split; [intros msg; apply Update_frame |].
  intros msgs. revert m.
  induction msgs as [| msg rest IH]; intros m H; [cbn; auto |].
  cbn [forallb] in H. apply andb_prop in H as [Hq Hrest].
  apply negb_true_iff in Hq.
  destruct (quiet_step w m msg Hq) as [Hc Hw].
  rewrite run_cons, Hw.
  destruct (IH (model_of (Update w m msg)) Hrest) as [IHc IHw].
  rewrite IHc, IHw. auto.
Qed.

(** ** Quitting *)

Lemma quitting_step (w : World) (m : model) (msg : Msg) :
  quitting (model_of (Update w m msg)) = true ->
  quitting m = true
  \/ (state m = quitConfirmView /\ (msg = KeyMsg "y" \/ msg = KeyMsg "Y")).
Proof.
  destruct msg as [url [err |] | | W H0 | key | tag];
    try (cbn; auto; fail).
  - unfold Update, updateKey, updateWidget, toggleFocus.
    destruct (state m) eqn:Hst; step_cases; msimpl; auto.
    intros _. right. split; [reflexivity |].
    match goal with
    | E : key_is key ["y"; "Y"] = true |- _ =>
      apply key_is_In in E; cbn in E
    end.
    intuition (subst; auto).
  - unfold Update, updateWidget. destruct (state m); step_cases; msimpl; auto.
Qed.

Lemma quitting_quiet (w : World) (m : model) (msg : Msg) :
  confirms msg = false ->
  quitting (model_of (Update w m msg)) = quitting m.
Proof.
  destruct msg as [url [err |] | | W H0 | key | tag];
    try (cbn; auto; fail); intros Hq.
  - unfold Update, updateKey, updateWidget, toggleFocus.
    destruct (state m) eqn:Hst; step_cases; msimpl; auto.
    exfalso. cbn [confirms] in Hq.
    match goal with
    | E : key_is key ["y"; "Y"] = true |- _ =>
      apply (key_is_incl key _ ["enter"; "y"; "Y"]) in E;
        [congruence | intros x; cbn; tauto]
    end.
  - unfold Update, updateWidget. destruct (state m); step_cases; msimpl; auto.
Qed.

(** No step enables the quit keys of the list again. *)
Lemma quit_keys_step (w : World) (m : model) (msg : Msg) :
  widgets_never_quit L ->
  disableQuitKeybindings (list_ m) = true ->
  disableQuitKeybindings (list_ (model_of (Update w m msg))) = true.
Proof.
  intros (Hq & _) H.
  assert (forall a l', fst (list_Update a (list_ m)) = l' ->
            disableQuitKeybindings l' = true) as Hl.
  { intros a l' <-. now apply Hq. }
  destruct msg as [url [err |] | | W H0 | key | tag];
    try (cbn; exact H).
  - unfold Update, updateKey, updateWidget, toggleFocus.
    destruct (state m) eqn:Hst; step_cases; msimpl; try exact H;
      match goal with
      | E : list_Update ?a _ = (?l', _) |- _ =>
        apply (Hl a); now rewrite E
      end.
  - unfold Update, updateWidget.
    destruct (state m) eqn:Hst; step_cases; msimpl; try exact H;
      match goal with
      | E : list_Update ?a _ = (?l', _) |- _ =>
        apply (Hl a); now rewrite E
      end.
Qed.

(** What [Update] returns holds [tea.Quit] on [y] and [Y] in the quit
    confirmation only, when the quit keys of the list are disabled. *)
Lemma quit_step (w : World) (m : model) (msg : Msg) :
  widgets_never_quit L ->
  disableQuitKeybindings (list_ m) = true ->
  existsb quits (atoms (cmd_of (Update w m msg))) = true ->
  state m = quitConfirmView /\ (msg = KeyMsg "y" \/ msg = KeyMsg "Y").
Proof.
  intros (Hq1 & Hq2 & Hq3) Hd.
  assert (forall a l' c, list_Update a (list_ m) = (l', c) ->
            existsb quits (atoms c) = true -> False) as H1.
  { intros a l' c E. destruct (Hq1 a (list_ m) Hd) as [Hq _].
    rewrite E in Hq. cbn [snd] in Hq. congruence. }
  assert (forall a t t' c, textinput_Update a t = (t', c) ->
            existsb quits (atoms c) = true -> False) as H2.
  { intros a t t' c E. specialize (Hq2 a t). rewrite E in Hq2. cbn [snd] in Hq2.
    congruence. }
  assert (forall a x x' c, spinner_Update a x = (x', c) ->
            existsb quits (atoms c) = true -> False) as H3.
  { intros a x x' c E. specialize (Hq3 a x). rewrite E in Hq3. cbn [snd] in Hq3.
    congruence. }
  destruct msg as [url [err |] | | W H0 | key | tag];
    try (cbn; discriminate).
  - unfold Update, updateKey, updateWidget, toggleFocus.
    destruct (state m) eqn:Hst; step_cases; msimpl;
      cbn [atoms app existsb quits orb];
      try discriminate;
      try (intros Hc; exfalso; eauto; fail).
    intros _. split; [reflexivity |].
    match goal with
    | E : key_is key ["y"; "Y"] = true |- _ =>
      apply key_is_In in E; cbn in E
    end.
    intuition (subst; auto).
  - unfold Update, updateWidget.
    destruct (state m) eqn:Hst; step_cases; msimpl;
      cbn [atoms app existsb quits orb];
      try discriminate;
      try (intros Hc; exfalso; eauto; fail).
Qed.

(** Quitting needs a confirmation. [q] and [ctrl+c] in the main menu open
    the confirmation and quit nothing; there [y] and [Y] set [quitting] and
    return [tea.Quit], while [n], [N] and [esc] go back to the main menu.
    No other message sets [quitting], and [quitting] is as it was after any
    sequence of messages without [enter], [y] and [Y]. [initialModel]
    disables the quit keys of the list; when a list in that state returns
    no [tea.Quit] and stays in that state, the quit keys are disabled
    after every sequence of messages from the start, and no message but
    [y] and [Y] in the confirmation makes [Update] return [tea.Quit],
    alone or in a batch. *)
Theorem quit_needs_confirmation (w : World) (m : model) :
  widgets_never_quit L ->
  (state m = mainMenuView ->
     forall key, key = "q" \/ key = "ctrl+c" ->
       Update w m (KeyMsg key) = (w, set_state quitConfirmView m, nil_Cmd))
  /\ (state m = quitConfirmView ->
        (forall key, key = "y" \/ key = "Y" ->
           Update w m (KeyMsg key) = (w, set_quitting true m, tea_Quit))
        /\ (forall key, key = "n" \/ key = "N" \/ key = "esc" ->
           Update w m (KeyMsg key) = (w, set_state mainMenuView m, nil_Cmd)))
  /\ (forall msg,
        quitting (model_of (Update w m msg)) = true ->
        quitting m = true
        \/ (state m = quitConfirmView
            /\ (msg = KeyMsg "y" \/ msg = KeyMsg "Y")))
  /\ (forall msgs,
        forallb (fun msg => negb (confirms msg)) msgs = true ->
        quitting (snd (run w m msgs)) = quitting m)
  /\ (forall w0 msgs,
        disableQuitKeybindings
          (list_ (snd (run (fst (initialModel w0)) (snd (initialModel w0))
                         msgs))) = true)
  /\ (disableQuitKeybindings (list_ m) = true ->
      forall msg,
        existsb quits (atoms (cmd_of (Update w m msg))) = true ->
        state m = quitConfirmView
        /\ (msg = KeyMsg "y" \/ msg = KeyMsg "Y")).
Proof.
  intros Hq. split; [| split; [| split; [| split; [| split]]]].
  - intros Hst key [-> | ->]; unfold Update, updateKey; rewrite Hst;
      reflexivity.
  - intros Hst. split.
    + intros key [-> | ->]; unfold Update, updateKey; rewrite Hst;
        reflexivity.
    + intros key [-> | [-> | ->]]; unfold Update, updateKey; rewrite Hst;
        reflexivity.
  - apply quitting_step.
  - intros msgs. revert m.
    induction msgs as [| msg rest IH]; intros m H; [reflexivity |].
    cbn [forallb] in H. apply andb_prop in H as [Hq0 Hrest].
    apply negb_true_iff in Hq0.
    rewrite run_cons. destruct (quiet_step w m msg Hq0) as [_ ->].
    rewrite (IH _ Hrest). now apply quitting_quiet.
  - intros w0 msgs.
    assert (forall msgs w1 m1,
              disableQuitKeybindings (list_ m1) = true ->
              disableQuitKeybindings (list_ (snd (run w1 m1 msgs))) = true)
      as Hrun.
    { clear msgs. intros msgs.
      induction msgs as [| msg rest IH]; intros w1 m1 H1; [exact H1 |].
      rewrite run_cons. apply IH. now apply quit_keys_step. }
    apply Hrun. unfold initialModel.
    destruct (loadConfig w0); [reflexivity |].
    now destruct (saveConfig w0 getDefaultConfig).
  - intros Hd msg. now apply quit_step.
Qed.

End Navigation.

Section Flows.

Context {L : Libs}.

(** ** Going back *)

Lemma esc_step (w : World) (m : model) :
  state (model_of (Update w m (KeyMsg "esc"))) = back (state m).
Proof.
  unfold Update, updateKey, updateWidget.
  destruct (state m) eqn:Hst; key_case; step_cases; msimpl; auto.
Qed.

(** [esc] leads back: from a form or a confirmation of the manage view to
    the manage view, from there and from the custom URL view and the quit
    confirmation to the main menu. From every view but the loading view,
    two [esc] reach the main menu, and the configuration and the world are
    as they were. *)
Theorem escape_leads_home (w : World) (m : model) :
  state (model_of (Update w m (KeyMsg "esc"))) = back (state m)
  /\ (state m <> loadingView ->
        let r := run w m [KeyMsg "esc"; KeyMsg "esc"] in
        state (snd r) = mainMenuView
        /\ config (snd r) = config m
        /\ fst r = w).
Proof.
  split; [apply esc_step |]. intros Hst r. subst r.
  rewrite !run_cons. cbn [run snd fst].
  destruct (quiet_step w m (KeyMsg "esc") eq_refl) as [Hc Hw].
  rewrite Hw.
  destruct (quiet_step w (model_of (Update w m (KeyMsg "esc")))
              (KeyMsg "esc") eq_refl) as [Hc' Hw'].
  rewrite Hc', Hw', Hc, !esc_step.
  destruct (state m); try contradiction; auto.
Qed.

(** ** Playing a preset *)

(** [enter] on the highlighted preset, in the main menu or in the manage
    view, goes to the loading view under the name of the preset and hands
    its URL to the resolver. When the resolver has answered with an output,
    the player is started on the output trimmed, and the view is still the
    loading view; when the player ends, however it does, the view is the
    main menu, also when the preset was played from the manage view. The
    configuration, the list and the world are as they were throughout.
    With nothing highlighted [enter] is left to the list. *)
Theorem play_cycle (w : World) (m : model) :
  state m = mainMenuView \/ state m = managePresetsView ->
  (forall p out err,
     SelectedItem (list_ m) = Some p ->
     let r1 := Update w m (KeyMsg "enter") in
     let r2 := Update (world_of r1) (model_of r1) (resolved (Ok out)) in
     let r3 := Update (world_of r2) (model_of r2) (played err) in
     state (model_of r1) = loadingView
     /\ loadingTitle (model_of r1) = Name p
     /\ cmd_of r1 = tea_Batch spinner_Tick (extractStreamURL (URL p))
     /\ state (model_of r2) = loadingView
     /\ cmd_of r2 = playMPV (strings.TrimSpace out)
     /\ state (model_of r3) = mainMenuView
     /\ cmd_of r3 = nil_Cmd
     /\ config (model_of r3) = config m
     /\ list_ (model_of r3) = list_ m
     /\ world_of r3 = w)
  /\ (SelectedItem (list_ m) = None ->
      let r := Update w m (KeyMsg "enter") in
      state (model_of r) = state m
      /\ config (model_of r) = config m
      /\ cmd_of r = snd (list_Update (KeyMsg "enter") (list_ m))
      /\ world_of r = w).
Proof.
  intros Hst. split.
  - intros p out err Hsel r1 r2 r3. subst r1 r2 r3.
    unfold resolved, played, Update, updateKey.
    destruct Hst as [Hst | Hst]; rewrite Hst; key_case; rewrite Hsel;
      msimpl; repeat split.
  - intros Hsel r. subst r. unfold Update, updateKey, updateWidget.
    destruct Hst as [Hst | Hst]; rewrite Hst; key_case; rewrite Hsel;
      destruct (list_Update _ _); msimpl; rewrite ?Hst; auto.
Qed.

(** The case of a key that returns the command of the resolver, or leads to
    the loading view, is one of the three [enter] cases. *)
Lemma updateKey_resolver
  (w w' : World) (m m' : model) (key url : string) (c : Cmd) :
  updateKey w m key = Some (w', m', c) ->
  (c = tea_Batch spinner_Tick (extractStreamURL url)
   \/ state m' = loadingView) ->
  key = "enter"
  /\ c = tea_Batch spinner_Tick (extractStreamURL (
           match state m with
           | customURLView => Value (textInput m)
           | _ => match SelectedItem (list_ m) with
                  | Some p => URL p
                  | None => ""
                  end
           end))
  /\ state m' = loadingView
  /\ w' = w
  /\ config m' = config m
  /\ match state m with
     | customURLView => Value (textInput m) <> ""
     | mainMenuView | managePresetsView => SelectedItem (list_ m) <> None
     | _ => False
     end.
Proof.
  unfold updateKey, toggleFocus.
  destruct (state m) eqn:Hst; step_cases; intros [= <- <- <-] Hc;
    msimpl;
    try (destruct Hc as [Hc | Hc]; [discriminate Hc | ];
         msimpl; try rewrite Hst in Hc; try discriminate Hc);
    match goal with
    | E : key_is key ["enter"] = true |- _ =>
      apply key_is_In in E; cbn in E; destruct E as [<- | []]
    | _ => idtac
    end;
    repeat split; try discriminate; try (now apply nonempty_true).
Qed.

(** ** The size of the terminal *)




(** ** The add form *)

(** [a] in the manage view opens the add form with both texts empty,
    whatever the inputs held before, and with the focus on the name; the
    configuration and the world are as they were. [enter] on the form as
    it was opened changes nothing. *)
Theorem add_form_opens_empty (w : World) (m : model) :
  state m = managePresetsView ->
  let r := Update w m (KeyMsg "a") in
  let m' := model_of r in
  state m' = addPresetView
  /\ Value (nameInput m') = "" /\ Value (urlInput m') = ""
  /\ focusedInput m' = 0%nat
  /\ focus (nameInput m') = true /\ focus (urlInput m') = false
  /\ cmd_of r = textinput_Blink
  /\ config m' = config m /\ list_ m' = list_ m /\ world_of r = w
  /\ Update w m' (KeyMsg "enter") = (w, m', nil_Cmd).
Proof.
  intros Hst r m'. subst m' r. unfold Update, updateKey. rewrite Hst.
  key_case. msimpl. cbn [SetValue]. repeat split.
Qed.

End Flows.

Section Invariants.

Context {L : Libs}.

(** ** What holds of every model the program reaches *)

(** What every step keeps, every run keeps. *)
Lemma run_invariant (P : model -> Prop) :
  (forall w m msg, P m -> P (model_of (Update w m msg))) ->
  forall msgs w m, P m -> P (snd (run w m msgs)).
Proof.
  intros Hstep msgs. induction msgs as [| msg rest IH]; intros w m H;
    [exact H |].
  rewrite run_cons. apply IH. now apply Hstep.
Qed.

Lemma initialModel_mirror (w : World) :
  items (list_ (snd (initialModel w)))
  = elems (Presets (config (snd (initialModel w)))).
Proof.
  unfold initialModel. destruct (loadConfig w); [reflexivity |].
  now destruct (saveConfig w getDefaultConfig).
Qed.

Ltac list_kept Hk :=
  repeat match goal with
         | E : list_Update ?a ?l = (_, _) |- _ =>
           let H := fresh in
           pose proof (Hk a l) as H; rewrite E in H; cbn [fst] in H;
           clear E
         end.

Lemma mirror_step (w : World) (m : model) (msg : Msg) :
  keeps_items L ->
  items (list_ m) = elems (Presets (config m)) ->
  items (list_ (model_of (Update w m msg)))
  = elems (Presets (config (model_of (Update w m msg)))).
Proof.
  intros Hk H. destruct msg as [url [err |] | | W H0 | key | tag];
    try (cbn; auto; fail).
  - unfold Update, updateKey, updateWidget, toggleFocus.
    destruct (state m) eqn:Hst; step_cases; msimpl; auto; list_kept Hk;
      congruence.
  - unfold Update, updateWidget.
    destruct (state m); step_cases; msimpl; auto; list_kept Hk; congruence.
Qed.

(** When the list widget leaves its items alone, the list shows the presets
    of the configuration, the same ones in the same order, at the start
    and after every sequence of messages; the highlighted item is then the
    preset that stands at the highlighted index. *)
Theorem list_mirrors_config (w : World) (msgs : list Msg) :
  keeps_items L ->
  let m := snd (run (fst (initialModel w)) (snd (initialModel w)) msgs) in
  items (list_ m) = elems (Presets (config m))
  /\ SelectedItem (list_ m)
     = nth_error (elems (Presets (config m))) (Index (list_ m)).
Proof.
  intros Hk m.
  assert (items (list_ m) = elems (Presets (config m))) as H.
  { subst m.
    apply (run_invariant
             (fun m => items (list_ m) = elems (Presets (config m)))).
    - intros w0 m0 msg. now apply mirror_step.
    - apply initialModel_mirror. }
  split; [exact H |]. unfold SelectedItem, Index. now rewrite H.
Qed.

Ltac focus_kept Hk :=
  repeat match goal with
         | E : textinput_Update ?a ?t = (_, _) |- _ =>
           let H := fresh in
           pose proof (Hk a t) as H; rewrite E in H; cbn [fst] in H;
           clear E
         end.

Lemma form_step (w : World) (m : model) (msg : Msg) :
  keeps_focus L -> form_ok m -> form_ok (model_of (Update w m msg)).
Proof.
  unfold form_ok, focus_agrees. intros Hk H.
  destruct msg as [url [err |] | | W H0 | key | tag].
  - cbn. intros [E | E]; discriminate E.
  - exact H.
  - cbn. intros [E | E]; discriminate E.
  - unfold Update. msimpl. exact H.
  - unfold Update, updateKey, updateWidget, toggleFocus.
    destruct (state m) eqn:Hst; step_cases; msimpl; rewrite ?Hst;
      intros Hs; try (destruct Hs as [E | E]; discriminate E);
      try (specialize (H Hs); destruct H as [[H1 H2] H3]);
      focus_kept Hk;
      try match goal with
          | E : (focusedInput m =? 0)%nat = _ |- _ => rewrite ?E
          end;
      cbn [negb] in *; repeat split; cbn; try congruence; try lia.
  - unfold Update, updateWidget.
    destruct (state m) eqn:Hst; step_cases; msimpl; rewrite ?Hst;
      intros Hs; try (destruct Hs as [E | E]; discriminate E);
      try (specialize (H Hs); destruct H as [[H1 H2] H3]);
      focus_kept Hk;
      try match goal with
          | E : (focusedInput m =? 0)%nat = _ |- _ => rewrite ?E
          end;
      cbn [negb] in *; repeat split; cbn; try congruence; try lia.
Qed.

(** When a text input leaves its focus alone, then in the add and edit
    views, after every sequence of messages from the start, [focusedInput]
    is 0 or 1 and the input that it names, to which [Update] hands the
    keys, is the one that has the focus, the other one having none. *)
Theorem form_focus_follows_tab (w : World) (msgs : list Msg) :
  keeps_focus L ->
  let m := snd (run (fst (initialModel w)) (snd (initialModel w)) msgs) in
  state m = addPresetView \/ state m = editPresetView ->
  (focusedInput m <= 1)%nat
  /\ focus (nameInput m) = (focusedInput m =? 0)%nat
  /\ focus (urlInput m) = negb (focusedInput m =? 0)%nat.
Proof.
  intros Hk m Hst.
  assert (form_ok m) as H.
  { subst m. apply (run_invariant form_ok).
    - intros w0 m0 msg. now apply form_step.
    - unfold form_ok, initialModel. destruct (loadConfig w);
        [| destruct (saveConfig w getDefaultConfig)];
        intros [E | E]; discriminate E. }
  destruct (H Hst) as [[H1 H2] H3]. auto.
Qed.

End Invariants.

Section Storage.

Context {L : Libs}.

(** ** The store and the file system *)

(** [saveConfig] changes neither the environment nor what the calls will
    do. *)
Lemma saveConfig_env (w : World) (c : Config) :
  let w1 := fst (saveConfig w c) in
  UserHomeDir w1 = UserHomeDir w
  /\ XDG_CONFIG_HOME w1 = XDG_CONFIG_HOME w
  /\ mkdirFails w1 = mkdirFails w
  /\ writeResult w1 = writeResult w.
Proof.
  unfold saveConfig, getConfigPath, getConfigDir, os_MkdirAll, os_WriteFile.
  destruct (UserHomeDir w) eqn:Hh; [| cbn; auto].
  destruct (mkdirFails w _); cbn [negb]; [cbn; auto |].
  cbn [UserHomeDir called]. rewrite Hh.
  destruct (json.MarshalIndent c); [| cbn; auto].
  destruct (writeResult _ _ _); cbn; auto.
Qed.

Lemma getConfigPath_env (w w1 : World) :
  UserHomeDir w1 = UserHomeDir w ->
  XDG_CONFIG_HOME w1 = XDG_CONFIG_HOME w ->
  getConfigPath w1 = getConfigPath w.
Proof.
  unfold getConfigPath, getConfigDir. now intros -> ->.
Qed.

(** The calls of [saveConfig], and the files it leaves alone. *)
Lemma saveConfig_calls (w : World) (c : Config) (path : string) :
  getConfigPath w = Ok path ->
  exists dir data,
    getConfigDir w = Ok dir
    /\ json.MarshalIndent c = Ok data
    /\ calls (fst (saveConfig w c))
       = ((if mkdirFails w dir then [MkdirAll dir]
           else [WriteFile path data; MkdirAll dir]) ++ calls w)%list
    /\ forall p, p <> path -> files (fst (saveConfig w c)) p = files w p.
Proof.
  unfold saveConfig, getConfigPath, os_MkdirAll, os_WriteFile.
  destruct (getConfigDir w) as [dir | e] eqn:Hd; [| discriminate].
  intros [= <-]. exists dir.
  destruct (json.MarshalIndent c) as [data | e] eqn:Hj; [| discriminate].
  exists data. split; [reflexivity |]. split; [reflexivity |].
  destruct (mkdirFails w dir); cbn [negb]; [split; reflexivity |].
  assert (getConfigDir (called (MkdirAll dir) w) = Ok dir) as -> by exact Hd.
  cbn [writeResult called].
  destruct (writeResult w _ data); cbn [fst];
    (split; [reflexivity |]); try reflexivity;
    intros p Hp; unfold written; cbn [files called];
    apply String.eqb_neq in Hp; now rewrite Hp.
Qed.

(** The world after a step is the world before it, or what a call of
    [saveConfig] made of it. *)
Lemma Update_world (w : World) (m : model) (msg : Msg) :
  world_of (Update w m msg) = w
  \/ exists c, world_of (Update w m msg) = fst (saveConfig w c).
Proof.
  destruct msg as [url err | | W H | key | tag];
    try (left; apply Update_frame; intros key [=]).
  destruct (mutates m key) eqn:E.
  - right. exists (mutated m). now rewrite (mutates_Update w m key E).
  - left. apply Update_frame. now intros k [= <-].
Qed.

(** The program writes no file but its configuration file. A call of
    [saveConfig] first creates the directory and then, if that succeeded,
    writes the file, and makes no other call; it leaves every other path
    as it was, and so does every sequence of messages. *)
Theorem only_the_config_file_is_written (w : World) (path : string) :
  getConfigPath w = Ok path ->
  (forall c, exists dir data,
     getConfigDir w = Ok dir
     /\ json.MarshalIndent c = Ok data
     /\ calls (fst (saveConfig w c))
        = ((if mkdirFails w dir then [MkdirAll dir]
            else [WriteFile path data; MkdirAll dir]) ++ calls w)%list
     /\ forall p, p <> path -> files (fst (saveConfig w c)) p = files w p)
  /\ (forall m msgs p, p <> path -> files (fst (run w m msgs)) p = files w p).
Proof.
  intros Hp. split; [intros c; now apply saveConfig_calls |].
  intros m msgs. revert w m Hp.
  induction msgs as [| msg rest IH]; intros w m Hp p Hne; [reflexivity |].
  rewrite run_cons.
  destruct (Update_world w m msg) as [-> | [c ->]]; [now apply IH |].
  destruct (saveConfig_env w c) as (Hh & Hx & _).
  rewrite IH; [| now rewrite (getConfigPath_env _ _ Hh Hx) | exact Hne].
  destruct (saveConfig_calls w c path Hp) as (_ & _ & _ & _ & _ & Hf).
  now apply Hf.
Qed.

(** Without a home directory the program has no configuration file, even
    when [XDG_CONFIG_HOME] is set: [loadConfig] and [saveConfig] return the
    error of [os.UserHomeDir] and make no call, the program starts on the
    defaults, and the world is as it was after every sequence of
    messages. *)
Theorem no_home_no_disk (w : World) :
  UserHomeDir w = None ->
  getConfigPath w = Err ErrUserHomeDir
  /\ loadConfig w = Err ErrUserHomeDir
  /\ (forall c, saveConfig w c = (w, Some ErrUserHomeDir))
  /\ fst (initialModel w) = w
  /\ config (snd (initialModel w)) = getDefaultConfig
  /\ (forall m msgs, fst (run w m msgs) = w).
Proof.
  intros Hh.
  assert (getConfigPath w = Err ErrUserHomeDir) as Hp.
  { unfold getConfigPath, getConfigDir. now rewrite Hh. }
  assert (forall c, saveConfig w c = (w, Some ErrUserHomeDir)) as Hs.
  { intros c. unfold saveConfig, getConfigDir. now rewrite Hh. }
  assert (loadConfig w = Err ErrUserHomeDir) as Hl.
  { unfold loadConfig. now rewrite Hp. }
  repeat split; auto.
  - unfold initialModel. now rewrite Hl, Hs.
  - unfold initialModel. now rewrite Hl, Hs.
  - intros m msgs. revert m.
    induction msgs as [| msg rest IH]; intros m; [reflexivity |].
    rewrite run_cons.
    destruct (Update_world w m msg) as [-> | [c ->]]; [apply IH |].
    rewrite Hs. apply IH.
Qed.

(** When [loadConfig] succeeds, the program starts on what it returned and
    writes nothing: the list shows the presets loaded, the first one
    highlighted if there is one, in the main menu, with empty inputs, and
    the model is not ready before the size of the terminal is known. *)
Theorem startup_shows_loaded_presets (w : World) (c : Config) :
  loadConfig w = Ok c ->
  let m := snd (initialModel w) in
  fst (initialModel w) = w
  /\ config m = c
  /\ items (list_ m) = elems (Presets c)
  /\ SelectedItem (list_ m) = hd_error (elems (Presets c))
  /\ list_height (list_ m) = Z.of_nat (len (Presets c))
  /\ state m = mainMenuView
  /\ ready m = false /\ quitting m = false
  /\ Value (textInput m) = "" /\ Value (nameInput m) = ""
  /\ Value (urlInput m) = "".
Proof.
  intros Hl m. subst m. unfold initialModel. rewrite Hl. msimpl.
  repeat split.
Qed.

End Storage.

Section Showing.

Context {L : Libs} {scr : Screen}.

(** ** The screen *)

Lemma ready_step (w : World) (m : model) (msg : Msg) :
  ready (model_of (Update w m msg)) = ready m || resizes msg.
Proof.
  destruct msg as [url [err |] | | W H | key | tag]; cbn [resizes];
    rewrite ?orb_false_r, ?orb_true_r; try reflexivity.
  - unfold Update, updateKey, updateWidget, toggleFocus.
    destruct (state m); step_cases; reflexivity.
  - unfold Update, updateWidget. destruct (state m); step_cases; reflexivity.
Qed.

(** From the start, the model is ready as soon as a [WindowSizeMsg] has
    come in, and not before: until then [View] shows the line
    "Initializing..." and nothing else, whatever the view and whatever
    keys were pressed. *)
Theorem initializing_until_sized (w : World) (msgs : list Msg) :
  let m := snd (run (fst (initialModel w)) (snd (initialModel w)) msgs) in
  ready m = existsb resizes msgs
  /\ (existsb resizes msgs = false -> View m = LF ++ "  Initializing...").
Proof.
  intros m.
  assert (forall msgs w0 m0,
            ready (snd (run w0 m0 msgs)) = ready m0 || existsb resizes msgs)
    as H.
  { clear. intros msgs.
    induction msgs as [| msg rest IH]; intros w0 m0;
      [cbn; now rewrite orb_false_r |].
    rewrite run_cons, IH, ready_step. cbn [existsb].
    now rewrite orb_assoc. }
  assert (ready m = existsb resizes msgs) as Hr.
  { subst m. rewrite H. unfold initialModel.
    destruct (loadConfig w); [reflexivity |].
    now destruct (saveConfig w getDefaultConfig). }
  split; [exact Hr |]. intros Hn. unfold View. now rewrite Hr, Hn.
Qed.

(** The width of a dialog: [min(hi, max(lo, width - margin))], the
    subtraction being that of [int]. *)
Lemma dialog_width (x lo hi : Z) :
  (lo <= hi)%Z ->
  (let dialogWidth := if (x <? lo)%Z then lo else x in
   if (hi <? dialogWidth)%Z then hi else dialogWidth)
  = Z.min hi (Z.max lo x).
Proof.
  intros H. cbv zeta. destruct (Z.ltb_spec x lo);
    repeat match goal with
           | |- context [(?a <? ?b)%Z] => destruct (Z.ltb_spec a b)
           end; lia.
Qed.

(** In the manage view, with the list showing the presets of the
    configuration, [d] (or [x]) on the highlighted preset opens a
    confirmation that names it, in a dialog between 40 and 60 columns wide;
    [y] then removes that preset and no other, saves the configuration
    and shows the presets left: when the directory can be created and the
    file written, the configuration file holds the text of the presets
    left, from which [loadConfig] reads them back. [n], [N] and [esc] leave
    the configuration and the world as they were. *)
Theorem delete_removes_the_highlighted_preset
  (w : World) (m : model) (p : Preset) (key : string) :
  state m = managePresetsView ->
  ready m = true ->
  items (list_ m) = elems (Presets (config m)) ->
  SelectedItem (list_ m) = Some p ->
  key = "d" \/ key = "x" ->
  let i := Index (list_ m) in
  let l := elems (Presets (config m)) in
  let r1 := Update w m (KeyMsg key) in
  let r2 := Update (world_of r1) (model_of r1) (KeyMsg "y") in
  let dialogWidth := Z.min 60 (Z.max 40 (int_sub (width m) 20)) in
  state (model_of r1) = deleteConfirmView
  /\ nth_error l i = Some p
  /\ View (model_of r1)
     = lipgloss_Place (width m) (height m)
         (Render (dialogStyle "196" dialogWidth)
            ("Delete preset '" ++ Name p ++ "'?" ++ LF ++ LF
             ++ Render hintStyle "Press Y to confirm • N to cancel"))
  /\ (40 <= dialogWidth <= 60)%Z
  /\ elems (Presets (config (model_of r2)))
     = (firstn i l ++ skipn (S i) l)%list
  /\ items (list_ (model_of r2)) = elems (Presets (config (model_of r2)))
  /\ state (model_of r2) = managePresetsView
  /\ world_of r2 = fst (saveConfig w (config (model_of r2)))
  /\ persisted w (config (model_of r2)) (world_of r2)
  /\ (forall no, no = "n" \/ no = "N" \/ no = "esc" ->
        Update (world_of r1) (model_of r1) (KeyMsg no)
        = (w, set_state managePresetsView (model_of r1), nil_Cmd)
        /\ config (model_of r1) = config m).
Proof.
  intros Hst Hr Hm Hsel Hkey i l r1 r2 dialogWidth.
  assert (nth_error l i = Some p) as Hn.
  { subst i l. unfold SelectedItem, Index in *. now rewrite <- Hm. }
  assert (i < List.length l)%nat as Hi.
  { apply nth_error_Some. congruence. }
  assert (r1 = (w, set_selectedIndex i (set_state deleteConfirmView m),
                nil_Cmd)) as ->.
  { subst r1. unfold Update, updateKey. rewrite Hst.
    destruct Hkey as [-> | ->]; reflexivity. }
  assert (mutates (set_selectedIndex i (set_state deleteConfirmView m)) "y"
          = true) as Hmut.
  { unfold mutates. msimpl. key_case. unfold len. fold l.
    now apply Nat.ltb_lt in Hi. }
  subst r2. cbn [world_of model_of fst snd].
  rewrite (mutates_Update w _ "y" Hmut).
  unfold mutated. msimpl. rewrite elems_remove. fold l.
  split; [reflexivity |]. split; [exact Hn |].
  split; [| split; [subst dialogWidth; lia |]].
  - unfold View. msimpl. rewrite Hr. cbn [negb]. unfold len. fold l.
    apply Nat.ltb_lt in Hi. rewrite Hi, Hn.
    rewrite (dialog_width _ 40 60) by lia. reflexivity.
  - split; [reflexivity |]. split; [reflexivity |]. split; [reflexivity |].
    split; [reflexivity |]. split; [apply saveConfig_persisted |].
    intros no [-> | [-> | ->]]; split; reflexivity.
Qed.

End Showing.

(** * Valid UTF-8 throughout *)

(** A number below 64, case by case. *)
Ltac small_cases q :=
  destruct q as [| q]; [reflexivity |];
  do 6 (try destruct q as [q | q |]);
  first [reflexivity | exfalso; lia].

(** The cases of the comparisons in the goal. *)
Ltac ncases :=
  repeat (cbv beta iota zeta;
          match goal with
          | |- context [(?a <? ?b)%N] => destruct (N.ltb_spec a b); try lia
          | |- context [(?a <=? ?b)%N] => destruct (N.leb_spec a b); try lia
          | |- context [(?a =? ?b)%N] => destruct (N.eqb_spec a b); try lia
          end);
  cbv beta iota zeta.

(** Arithmetic with quotients and remainders. *)
Ltac euclid := zify; Z.to_euclidean_division_equations; lia.

Section Unicode.

(** ** Strings made of well-formed sequences *)

Lemma append_empty (s : string) : s ++ "" = s.
Proof. induction s as [| c t IH]; cbn; [reflexivity | now rewrite IH]. Qed.

Lemma take_all (s : string) : take (String.length s) s = s.
Proof. induction s as [| c t IH]; cbn; [reflexivity | now rewrite IH]. Qed.

Lemma take_app_le (n : nat) (a b : string) :
  (n <= String.length a)%nat -> take n (a ++ b) = take n a.
Proof.
  revert a. induction n as [| n IH]; intros [| c t]; cbn; intros H;
    try reflexivity; try lia.
  rewrite IH; [reflexivity | lia].
Qed.

Lemma drop_app_le (n : nat) (a b : string) :
  (n <= String.length a)%nat -> drop n (a ++ b) = drop n a ++ b.
Proof.
  revert a. induction n as [| n IH]; intros [| c t]; cbn; intros H;
    try reflexivity; try lia.
  apply IH. lia.
Qed.

(** Any fuel that covers the string will do. *)
Lemma valid_go_fuel (n : nat) :
  forall (m : nat) (s : string),
    (String.length s <= n)%nat -> (String.length s <= m)%nat ->
    utf8.valid_go n s = utf8.valid_go m s.
Proof.
  induction n as [| n IH]; intros m s Hn Hm.
  - destruct s; [| cbn in Hn; lia]. now destruct m.
  - destruct m as [| m]; [destruct s; [reflexivity | cbn in Hm; lia] |].
    destruct s as [| c t]; [reflexivity |].
    cbn [utf8.valid_go].
    pose proof (decode_size (String c t) ltac:(discriminate)) as Hsize.
    unfold json.ill_formed in Hsize.
    destruct (utf8.DecodeRuneInString (String c t)) as [r size].
    destruct ((r =? utf8.RuneError)%N && (size =? 1)%nat); [reflexivity |].
    specialize (Hsize eq_refl). cbn [snd String.length] in *.
    apply IH; rewrite length_drop; cbn [String.length]; lia.
Qed.

(** A string is valid when its first sequence is well-formed and what
    follows it is valid. *)
Lemma ValidString_step (c : ascii) (t : string) :
  utf8.ValidString (String c t)
  = if json.ill_formed (String c t) then false
    else utf8.ValidString
           (drop (snd (utf8.DecodeRuneInString (String c t))) (String c t)).
Proof.
  unfold utf8.ValidString at 1. cbn [String.length utf8.valid_go].
  pose proof (decode_size (String c t) ltac:(discriminate)) as Hsize.
  unfold json.ill_formed in *.
  destruct (utf8.DecodeRuneInString (String c t)) as [r size].
  destruct ((r =? utf8.RuneError)%N && (size =? 1)%nat); [reflexivity |].
  specialize (Hsize eq_refl). cbn [snd String.length] in *.
  apply valid_go_fuel; rewrite length_drop; cbn [String.length]; lia.
Qed.

Lemma decode_rune_app (u r : string) :
  one_rune u ->
  utf8.DecodeRuneInString (u ++ r) = utf8.DecodeRuneInString u.
Proof.
  intros (Hne & Hi & Hs).
  pose proof (decode_prefix u r Hne Hi) as H.
  now rewrite Hs, take_all in H.
Qed.

Lemma ValidString_rune_app (u r : string) :
  one_rune u -> utf8.ValidString (u ++ r) = utf8.ValidString r.
Proof.
  intros Hu. pose proof (decode_rune_app u r Hu) as Hd.
  destruct Hu as (Hne & Hi & Hs).
  destruct u as [| c t]; [congruence |].
  change (String c t ++ r) with (String c (t ++ r)) in *.
  rewrite ValidString_step. unfold json.ill_formed in *. rewrite Hd, Hi, Hs.
  change (String c (t ++ r)) with (String c t ++ r).
  now rewrite drop_app.
Qed.

Lemma one_rune_take (s : string) :
  s <> "" -> json.ill_formed s = false ->
  one_rune (take (snd (utf8.DecodeRuneInString s)) s).
Proof.
  intros Hne Hi.
  pose proof (decode_size s Hne Hi) as Hsize.
  pose proof (decode_prefix s "" Hne Hi) as Hd. rewrite append_empty in Hd.
  repeat split.
  - destruct s as [| c t]; [congruence |].
    destruct (snd _); [lia | discriminate].
  - unfold json.ill_formed in *. now rewrite Hd.
  - rewrite Hd, length_take; [reflexivity | lia].
Qed.

(** Valid strings put end to end. *)
Lemma ValidString_app (a b : string) :
  utf8.ValidString a = true ->
  utf8.ValidString (a ++ b) = utf8.ValidString b.
Proof.
  remember (String.length a) as n eqn:Hn.
  assert (String.length a <= n)%nat as Hle by lia. clear Hn.
  revert a Hle. induction n as [| n IH]; intros a Hle Ha.
  - destruct a; [reflexivity | cbn in Hle; lia].
  - destruct a as [| c t]; [reflexivity |].
    rewrite ValidString_step in Ha.
    destruct (json.ill_formed (String c t)) eqn:Hi; [discriminate |].
    pose proof (decode_size (String c t) ltac:(discriminate) Hi) as Hsize.
    set (size := snd (utf8.DecodeRuneInString (String c t))) in *.
    rewrite <- (take_drop size (String c t)) at 1.
    rewrite append_assoc, ValidString_rune_app
      by (apply one_rune_take; [discriminate | exact Hi]).
    apply IH; [| exact Ha].
    rewrite length_drop. cbn [String.length] in *. lia.
Qed.

Lemma one_rune_ascii (c : ascii) :
  (N_of_ascii c <? utf8.RuneSelf)%N = true -> one_rune (String c "").
Proof.
  intros H. destruct (decode_ascii c "" H) as [Hi Hs].
  split; [discriminate |]. split; [exact Hi | exact Hs].
Qed.

Lemma one_rune_replacement : one_rune json.replacement.
Proof. split; [discriminate |]. split; reflexivity. Qed.


(** ** What [EncodeRune] writes *)

Lemma ascii_byte (n : N) : (n < 256)%N -> N_of_ascii (byte n) = n.
Proof. apply N_ascii_embedding. Qed.

(** Setting the leading bits of a byte and adding them come to the
    same. *)
Lemma lor_80 (q : N) : (q < 64)%N -> N.lor 0x80 q = (0x80 + q)%N.
Proof. intros H. small_cases q. Qed.

Lemma lor_C0 (q : N) : (q < 32)%N -> N.lor 0xC0 q = (0xC0 + q)%N.
Proof. intros H. small_cases q. Qed.

Lemma lor_E0 (q : N) : (q < 16)%N -> N.lor 0xE0 q = (0xE0 + q)%N.
Proof. intros H. small_cases q. Qed.

Lemma lor_F0 (q : N) : (q < 8)%N -> N.lor 0xF0 q = (0xF0 + q)%N.
Proof. intros H. small_cases q. Qed.

Lemma low_six (x : N) : N.land x 0x3F = (x mod 64)%N.
Proof. change 0x3F%N with (N.ones 6). now rewrite N.land_ones. Qed.

Lemma shift_div (x : N) (n : N) : N.shiftr x n = (x / 2 ^ n)%N.
Proof. apply N.shiftr_div_pow2. Qed.

Lemma one_rune_sized (u : string) (x : N) :
  utf8.DecodeRuneInString u = (x, String.length u) ->
  (2 <= String.length u)%nat -> one_rune u.
Proof.
  intros Hd Hl. split; [destruct u; [cbn in Hl; lia | discriminate] |].
  unfold json.ill_formed. rewrite Hd. cbn [snd]. split; [| reflexivity].
  apply andb_false_iff. right. apply Nat.eqb_neq. lia.
Qed.

Lemma one_rune_two (b0 b1 : N) :
  (0xC2 <= b0 <= 0xDF)%N -> (0x80 <= b1 <= 0xBF)%N ->
  one_rune (String (byte b0) (String (byte b1) "")).
Proof.
  intros H0 H1.
  apply one_rune_sized
    with (x := N.lor (N.shiftl (N.land b0 0x1F) 6) (N.land b1 0x3F));
    [| cbn; lia].
  unfold utf8.DecodeRuneInString. rewrite !ascii_byte by lia.
  unfold utf8.RuneSelf, utf8.first, utf8.outside. ncases. reflexivity.
Qed.

Lemma one_rune_three (b0 b1 b2 : N) :
  (0xE0 <= b0 <= 0xEF)%N -> (0x80 <= b1 <= 0xBF)%N ->
  (0x80 <= b2 <= 0xBF)%N ->
  (b0 = 0xE0 -> 0xA0 <= b1)%N -> (b0 = 0xED -> b1 <= 0x9F)%N ->
  one_rune (String (byte b0) (String (byte b1) (String (byte b2) ""))).
Proof.
  intros H0 H1 H2 Hlo Hhi.
  apply one_rune_sized
    with (x := N.lor (N.shiftl (N.land b0 0x0F) 12)
                 (N.lor (N.shiftl (N.land b1 0x3F) 6) (N.land b2 0x3F)));
    [| cbn; lia].
  unfold utf8.DecodeRuneInString. rewrite !ascii_byte by lia.
  unfold utf8.RuneSelf, utf8.first, utf8.outside. ncases; reflexivity.
Qed.

Lemma one_rune_four (b0 b1 b2 b3 : N) :
  (0xF0 <= b0 <= 0xF4)%N -> (0x80 <= b1 <= 0xBF)%N ->
  (0x80 <= b2 <= 0xBF)%N -> (0x80 <= b3 <= 0xBF)%N ->
  (b0 = 0xF0 -> 0x90 <= b1)%N -> (b0 = 0xF4 -> b1 <= 0x8F)%N ->
  one_rune (String (byte b0)
              (String (byte b1) (String (byte b2) (String (byte b3) "")))).
Proof.
  intros H0 H1 H2 H3 Hlo Hhi.
  apply one_rune_sized
    with (x := N.lor (N.shiftl (N.land b0 0x07) 18)
                 (N.lor (N.shiftl (N.land b1 0x3F) 12)
                    (N.lor (N.shiftl (N.land b2 0x3F) 6) (N.land b3 0x3F))));
    [| cbn; lia].
  unfold utf8.DecodeRuneInString. rewrite !ascii_byte by lia.
  unfold utf8.RuneSelf, utf8.first, utf8.outside. ncases; reflexivity.
Qed.

(** The encoding of any rune is one well-formed sequence. *)
Lemma one_rune_EncodeRune (r : N) : one_rune (utf8.EncodeRune r).
Proof.
  unfold utf8.EncodeRune.
  destruct (N.leb_spec r 0x7F) as [H1 | H1].
  { apply one_rune_ascii. rewrite ascii_byte by lia.
    apply N.ltb_lt. unfold utf8.RuneSelf. lia. }
  destruct (N.leb_spec r 0x7FF) as [H2 | H2].
  { rewrite low_six, shift_div. change (2 ^ 6)%N with 64%N.
    rewrite (lor_C0 (r / 64)), (lor_80 (r mod 64)) by euclid.
    apply one_rune_two; euclid. }
  destruct ((0x10FFFF <? r)%N || ((0xD800 <=? r)%N && (r <=? 0xDFFF)%N))
    eqn:Hs; [exact one_rune_replacement |].
  apply orb_false_iff in Hs as [Hmax Hsur]. apply N.ltb_ge in Hmax.
  assert (r < 0xD800 \/ 0xDFFF < r)%N as Hns.
  { apply andb_false_iff in Hsur as [H | H];
      [apply N.leb_gt in H | apply N.leb_gt in H]; lia. }
  destruct (N.leb_spec r 0xFFFF) as [H3 | H3].
  { rewrite !low_six, !shift_div.
    change (2 ^ 6)%N with 64%N. change (2 ^ 12)%N with 4096%N.
    rewrite (lor_E0 (r / 4096)), (lor_80 ((r / 64) mod 64)),
      (lor_80 (r mod 64)) by euclid.
    apply one_rune_three; euclid. }
  rewrite !low_six, !shift_div.
  change (2 ^ 6)%N with 64%N. change (2 ^ 12)%N with 4096%N.
  change (2 ^ 18)%N with 262144%N.
  rewrite (lor_F0 (r / 262144)), (lor_80 ((r / 4096) mod 64)),
    (lor_80 ((r / 64) mod 64)), (lor_80 (r mod 64)) by euclid.
  apply one_rune_four; euclid.
Qed.

(** What a text input holds is valid UTF-8, whatever runes it was
    given. *)
Lemma ValidString_string_of_runes (rs : list N) :
  utf8.ValidString (utf8.string_of_runes rs) = true.
Proof.
  induction rs as [| r rs IH]; [reflexivity |].
  cbn [utf8.string_of_runes].
  now rewrite ValidString_rune_app by apply one_rune_EncodeRune.
Qed.

End Unicode.

(** The cases of a function, taken from the head of a hypothesis. *)
Ltac head_cases H :=
  repeat (cbv beta iota zeta in H;
          lazymatch type of H with
          | (if ?b then _ else _) = _ => destruct b eqn:?
          | match ?x with Some _ => _ | None => _ end = _ =>
            destruct x as [? |] eqn:?
          | match ?x with EmptyString => _ | String _ _ => _ end = _ =>
            destruct x as [| ? ?] eqn:?
          | (let '(_, _) := ?x in _) = _ => destruct x as [? ?] eqn:?
          end).

Section Reading.

(** ** What [Unmarshal] returns is valid UTF-8 *)

Lemma prepend_Some (p : string) (o : option (string * string))
      (str r : string) :
  json.prepend p o = Some (str, r) ->
  exists str', o = Some (str', r) /\ str = p ++ str'.
Proof.
  destruct o as [[s0 r0] |]; [| discriminate]. cbn. intros [= <- <-]. eauto.
Qed.

Lemma unescape_ascii (e ch : ascii) :
  json.unescape e = Some ch -> (N_of_ascii ch <? utf8.RuneSelf)%N = true.
Proof.
  destruct e as [[] [] [] [] [] [] [] []]; cbn; intros [= <-];
    reflexivity.
Qed.

(** The string that a literal denotes is valid, whatever bytes and escapes
    the literal holds. *)
Lemma unquote_go_valid (fuel : nat) :
  forall s str r,
    json.unquote_go fuel s = Some (str, r) -> utf8.ValidString str = true.
Proof.
  induction fuel as [| k IH]; intros s str r H; [discriminate |].
  cbn [json.unquote_go] in H. head_cases H; try discriminate;
    try (injection H as <- <-; reflexivity);
    apply prepend_Some in H as (str' & H & ->);
    apply IH in H;
    (rewrite ValidString_rune_app; [exact H |]).
  - apply one_rune_ascii. eapply unescape_ascii. eassumption.
  - exact one_rune_replacement.
  - apply one_rune_EncodeRune.
  - exact one_rune_replacement.
  - apply one_rune_EncodeRune.
  - now apply one_rune_ascii.
  - exact one_rune_replacement.
  - apply one_rune_take; [discriminate | assumption].
Qed.

Lemma forallb_rev {A} (f : A -> bool) (l : list A) :
  forallb f (rev l) = forallb f l.
Proof.
  induction l as [| a l IH]; [reflexivity |].
  cbn [rev forallb]. rewrite forallb_app, IH. cbn.
  rewrite andb_true_r. apply andb_comm.
Qed.

Lemma parse_valid (fuel : nat) :
  forall depth m s v r,
    json.parse fuel depth m s = Some (v, r) ->
    acc_valid m = true -> vvalid v = true.
Proof.
  induction fuel as [| k IH]; intros depth m s v r H Hacc; [discriminate |].
  cbn [json.parse] in H. destruct m as [| acc | acc].
  - head_cases H; try discriminate;
      try (injection H as <- <-; reflexivity);
      try (eapply IH; [eassumption | reflexivity]).
    injection H as <- <-. cbn [vvalid].
    eapply unquote_go_valid. eassumption.
  - head_cases H; try discriminate.
    + eapply IH; [eassumption |]. cbn [acc_valid forallb].
      erewrite IH by (eassumption || reflexivity). exact Hacc.
    + injection H as <- <-. cbn [vvalid].
      rewrite forallb_app, forallb_rev. cbn [forallb acc_valid] in *.
      rewrite Hacc. erewrite IH by (eassumption || reflexivity).
      reflexivity.
  - head_cases H; try discriminate.
    + eapply IH; [eassumption |]. cbn [acc_valid forallb snd].
      erewrite IH by (eassumption || reflexivity). exact Hacc.
    + injection H as <- <-. cbn [vvalid].
      rewrite forallb_app, forallb_rev. cbn [forallb acc_valid snd] in *.
      rewrite Hacc. erewrite IH by (eassumption || reflexivity).
      reflexivity.
Qed.

Lemma decodeString_valid (v : json.value) (s0 : string) :
  vvalid v = true -> utf8.ValidString s0 = true ->
  utf8.ValidString (fst (json.decodeString v s0)) = true.
Proof. destruct v; cbn; auto. Qed.

Lemma decodePresetFields_valid (kvs : list (string * json.value)) :
  forall p,
    forallb (fun kv => vvalid (snd kv)) kvs = true -> pvalid p = true ->
    pvalid (fst (json.decodePresetFields kvs p)) = true.
Proof.
  induction kvs as [| [key v] rest IH]; intros p Hv Hp; [exact Hp |].
  cbn [forallb snd] in Hv. apply andb_prop in Hv as [Hv Hrest].
  unfold pvalid in Hp. apply andb_prop in Hp as [Hn Hu].
  cbn [json.decodePresetFields].
  destruct (json.names "name" key).
  - pose proof (decodeString_valid v (Name p) Hv Hn) as Hs.
    destruct (json.decodeString v (Name p)) as [s ok]. cbn [fst] in Hs.
    specialize (IH {| Name := s; URL := URL p |} Hrest).
    destruct (json.decodePresetFields rest _) as [p' ok']. cbn [fst] in *.
    apply IH. unfold pvalid. cbn [Name URL]. now rewrite Hs, Hu.
  - destruct (json.names "url" key).
    + pose proof (decodeString_valid v (URL p) Hv Hu) as Hs.
      destruct (json.decodeString v (URL p)) as [s ok]. cbn [fst] in Hs.
      specialize (IH {| Name := Name p; URL := s |} Hrest).
      destruct (json.decodePresetFields rest _) as [p' ok']. cbn [fst] in *.
      apply IH. unfold pvalid. cbn [Name URL]. now rewrite Hs, Hn.
    + apply IH; [exact Hrest |]. unfold pvalid. now rewrite Hn, Hu.
Qed.

Lemma decodePreset_valid (v : json.value) (p0 : Preset) :
  vvalid v = true -> pvalid p0 = true ->
  pvalid (fst (json.decodePreset v p0)) = true.
Proof.
  destruct v; cbn [json.decodePreset fst]; auto.
  cbn [vvalid]. apply decodePresetFields_valid.
Qed.

Lemma decodeArray_valid (vs : list json.value) :
  forall old,
    forallb vvalid vs = true -> forallb pvalid old = true ->
    forallb pvalid (fst (json.decodeArray vs old)) = true.
Proof.
  induction vs as [| v vs IH]; intros old Hv Ho; [reflexivity |].
  cbn [forallb] in Hv. apply andb_prop in Hv as [Hv Hrest].
  cbn [json.decodeArray].
  assert (pvalid match old with
                 | p :: _ => p
                 | [] => {| Name := ""; URL := "" |}
                 end = true) as Hp0.
  { destruct old as [| p old']; [reflexivity |].
    cbn [forallb] in Ho. now apply andb_prop in Ho as [Ho _]. }
  assert (forallb pvalid (tl old) = true) as Htl.
  { destruct old as [| p old']; [reflexivity |].
    cbn [forallb tl] in *. now apply andb_prop in Ho as [_ Ho]. }
  pose proof (decodePreset_valid v _ Hv Hp0) as Hp.
  destruct (json.decodePreset v _) as [p ok]. cbn [fst] in Hp.
  specialize (IH (tl old) Hrest Htl).
  destruct (json.decodeArray vs (tl old)) as [ps ok']. cbn [fst] in *.
  cbn [forallb]. now rewrite Hp, IH.
Qed.

Lemma forallb_skipn {A} (f : A -> bool) (n : nat) (l : list A) :
  forallb f l = true -> forallb f (skipn n l) = true.
Proof.
  revert l. induction n as [| n IH]; intros [| a l] H; auto.
  cbn [forallb] in H. apply andb_prop in H as [_ H]. now apply IH.
Qed.

(** What is decoded into a slice that holds valid strings, over a backing
    array that holds valid strings, is a slice and a backing array of the
    same kind. *)
Lemma decodeSlice_valid (v : json.value) (s0 : slice Preset)
  (spare : list Preset) :
  vvalid v = true ->
  forallb pvalid (elems s0) = true -> forallb pvalid spare = true ->
  forallb pvalid (elems (fst (fst (json.decodeSlice v s0 spare)))) = true
  /\ forallb pvalid (snd (fst (json.decodeSlice v s0 spare))) = true.
Proof.
  intros Hv Hs Hsp. destruct v; cbn [json.decodeSlice fst snd]; auto.
  destruct vs as [| v vs]; [auto |].
  assert (forallb pvalid (elems s0 ++ spare) = true) as Hb.
  { now rewrite forallb_app, Hs, Hsp. }
  pose proof (decodeArray_valid (v :: vs) _ Hv Hb) as Ha.
  destruct (json.decodeArray (v :: vs) _) as [ps ok]. cbn [fst snd elems] in *.
  split; [exact Ha | now apply forallb_skipn].
Qed.

Lemma decodeConfigFields_valid (kvs : list (string * json.value)) :
  forall c spare,
    forallb (fun kv => vvalid (snd kv)) kvs = true ->
    json.wellFormed c = true ->
    forallb pvalid spare = true ->
    json.wellFormed (fst (json.decodeConfigFields kvs c spare)) = true.
Proof.
  induction kvs as [| [key v] rest IH]; intros c spare Hv Hc Hsp; [exact Hc |].
  cbn [forallb snd] in Hv. apply andb_prop in Hv as [Hv Hrest].
  cbn [json.decodeConfigFields].
  destruct (json.names "presets" key); [| now apply IH].
  destruct (decodeSlice_valid v (Presets c) spare Hv Hc Hsp) as [Hs Hsp'].
  destruct (json.decodeSlice v (Presets c) spare) as [[s spare'] ok].
  cbn [fst snd] in Hs, Hsp'.
  specialize (IH {| Presets := s |} spare' Hrest Hs Hsp').
  destruct (json.decodeConfigFields rest _ _) as [c' ok']. exact IH.
Qed.

(** Whatever the text, the configuration that [Unmarshal] returns holds
    valid UTF-8 only. *)
Lemma Unmarshal_valid (data : string) (c : Config) :
  json.Unmarshal data = Ok c -> json.wellFormed c = true.
Proof.
  unfold json.Unmarshal, json.scan.
  destruct (json.parse _ _ _ _) as [[v r] |] eqn:Hp; [| discriminate].
  apply parse_valid in Hp; [| reflexivity].
  destruct (json.skip_ws r); [| discriminate].
  assert (json.wellFormed (fst (json.decodeConfig v)) = true) as H.
  { destruct v; try reflexivity. cbn [json.decodeConfig].
    now apply decodeConfigFields_valid. }
  destruct (json.decodeConfig v) as [c0 ok]. cbn [fst] in H.
  destruct ok; [| discriminate]. now intros [= <-].
Qed.

End Reading.

Section Truncation.

(** ** A text that is cut short *)

Lemma high_drop (n : nat) (s : string) : high s = true -> high (drop n s) = true.
Proof.
  revert s. induction n as [| n IH]; intros [| c t] H; auto.
  cbn [high] in H. apply andb_prop in H as [_ H]. now apply IH.
Qed.

Lemma first_lo (s0 : N) (sz : nat) (lo hi : N) :
  utf8.first s0 = Some (sz, lo, hi) -> (utf8.RuneSelf <= lo)%N.
Proof.
  unfold utf8.first, utf8.RuneSelf.
  repeat match goal with
         | |- context [if ?b then _ else _] => destruct b
         end; intros H; inversion H; lia.
Qed.

Lemma inside_high (lo hi b : N) :
  (utf8.RuneSelf <= lo)%N -> utf8.outside lo hi b = false ->
  (utf8.RuneSelf <=? b)%N = true.
Proof.
  unfold utf8.outside. intros Hlo H. apply orb_false_iff in H as [H _].
  apply N.ltb_ge in H. apply N.leb_le. lia.
Qed.

(** What [DecodeRuneInString] finds at the head of a string is what it
    finds there when the string goes on, unless the string is the
    beginning of one sequence and no more. *)
Lemma decode_app_or_high (c : ascii) (t x : string) :
  utf8.DecodeRuneInString (String c t ++ x)
  = utf8.DecodeRuneInString (String c t)
  \/ high (String c t) = true.
Proof.
  cbn [String.append]. unfold utf8.DecodeRuneInString.
  destruct (N_of_ascii c <? utf8.RuneSelf)%N eqn:E0; [now left |].
  assert ((utf8.RuneSelf <=? N_of_ascii c)%N = true) as H0.
  { apply N.leb_le. apply N.ltb_ge in E0. exact E0. }
  destruct (utf8.first _) as [[[sz lo] hi] |] eqn:F; [| now left].
  pose proof (first_size _ _ _ _ F) as Hsz.
  pose proof (first_lo _ _ _ _ F) as Hlo.
  destruct t as [| c1 t1].
  { right. cbn [high]. now rewrite H0. }
  cbn [String.append].
  destruct (utf8.outside lo hi (N_of_ascii c1)) eqn:E1.
  { left. now do 2 destruct (_ <? sz)%nat. }
  pose proof (inside_high _ _ _ Hlo E1) as H1.
  destruct (sz <=? 2)%nat eqn:S2.
  { left. apply Nat.leb_le in S2.
    replace (String.length (String c (String c1 (t1 ++ x))) <? sz)%nat
      with false by (symmetry; apply Nat.ltb_ge; cbn [String.length]; lia).
    replace (String.length (String c (String c1 t1)) <? sz)%nat
      with false by (symmetry; apply Nat.ltb_ge; cbn [String.length]; lia).
    reflexivity. }
  apply Nat.leb_gt in S2.
  destruct t1 as [| c2 t2].
  { right. cbn [high]. now rewrite H0, H1. }
  cbn [String.append].
  destruct (utf8.outside 0x80 0xBF (N_of_ascii c2)) eqn:E2.
  { left. now do 2 destruct (_ <? sz)%nat. }
  pose proof (inside_high _ _ _ (N.le_refl _) E2) as H2.
  destruct (sz <=? 3)%nat eqn:S3.
  { left. apply Nat.leb_le in S3.
    replace (String.length (String c (String c1 (String c2 (t2 ++ x)))) <? sz)%nat
      with false by (symmetry; apply Nat.ltb_ge; cbn [String.length]; lia).
    replace (String.length (String c (String c1 (String c2 t2))) <? sz)%nat
      with false by (symmetry; apply Nat.ltb_ge; cbn [String.length]; lia).
    reflexivity. }
  apply Nat.leb_gt in S3.
  destruct t2 as [| c3 t3].
  { right. cbn [high]. now rewrite H0, H1, H2. }
  cbn [String.append].
  left.
  replace (String.length (String c (String c1 (String c2 (String c3 (t3 ++ x))))) <? sz)%nat
    with false by (symmetry; apply Nat.ltb_ge; cbn [String.length]; lia).
  replace (String.length (String c (String c1 (String c2 (String c3 t3)))) <? sz)%nat
    with false by (symmetry; apply Nat.ltb_ge; cbn [String.length]; lia).
  reflexivity.
Qed.

(** A string of such bytes holds no closing quote. *)
Lemma unquote_go_high (f : nat) :
  forall s, high s = true -> json.unquote_go f s = None.
Proof.
  induction f as [| k IH]; intros s H; [reflexivity |].
  destruct s as [| c t]; [reflexivity |].
  cbn [high] in H. apply andb_prop in H as [H0 Ht].
  apply N.leb_le in H0. unfold utf8.RuneSelf in H0.
  cbn [json.unquote_go]. cbv zeta.
  replace (N_of_ascii c =? 0x22)%N with false by (symmetry; apply N.eqb_neq; lia).
  replace (N_of_ascii c =? 0x5C)%N with false by (symmetry; apply N.eqb_neq; lia).
  replace (N_of_ascii c <? 0x20)%N with false by (symmetry; apply N.ltb_ge; lia).
  replace (N_of_ascii c <? utf8.RuneSelf)%N with false
    by (symmetry; apply N.ltb_ge; unfold utf8.RuneSelf; lia).
  destruct (json.ill_formed _).
  - now rewrite (IH t Ht).
  - rewrite IH; [reflexivity |]. apply high_drop. cbn [high].
    replace (utf8.RuneSelf <=? N_of_ascii c)%N with true
      by (symmetry; apply N.leb_le; unfold utf8.RuneSelf; lia).
    exact Ht.
Qed.

Lemma hex4_app (s : string) (v : N) (r x : string) :
  json.hex4 s = Some (v, r) -> json.hex4 (s ++ x) = Some (v, r ++ x).
Proof.
  destruct s as [| a [| b [| c [| d t]]]]; try discriminate.
  cbn [json.hex4 String.append].
  destruct (json.hexval a), (json.hexval b), (json.hexval c), (json.hexval d);
    try discriminate.
  now intros [= <- <-].
Qed.

Lemma getu4_app (s : string) (v : N) (r x : string) :
  json.getu4 s = Some (v, r) -> json.getu4 (s ++ x) = Some (v, r ++ x).
Proof.
  destruct s as [| a [| b t]]; try discriminate;
    destruct a as [[] [] [] [] [] [] [] []]; try discriminate;
    destruct b as [[] [] [] [] [] [] [] []]; try discriminate.
  cbn [json.getu4 String.append]. apply hex4_app.
Qed.


Lemma unquote_go_empty (k : nat) : json.unquote_go k "" = None.
Proof. now destruct k. Qed.

Lemma unquote_go_backslash (k : nat) :
  json.unquote_go k (String "\" "") = None.
Proof. now destruct k. Qed.

(** Where [getu4] finds no escape, it finds none when the string goes on,
    or the string holds no literal. *)
Lemma getu4_None_app (k : nat) (s x : string) :
  json.getu4 s = None ->
  json.getu4 (s ++ x) = None \/ json.unquote_go k s = None.
Proof.
  destruct s as [| a [| b t]].
  - intros _. right. apply unquote_go_empty.
  - intros _. destruct a as [[] [] [] [] [] [] [] []];
      try (left; reflexivity).
    right. apply unquote_go_backslash.
  - destruct a as [[] [] [] [] [] [] [] []]; try (left; reflexivity).
    destruct b as [[] [] [] [] [] [] [] []]; try (left; reflexivity).
    cbn [json.getu4 String.append]. intros H.
    destruct t as [| h0 [| h1 [| h2 [| h3 t]]]];
      try (right; destruct k; reflexivity).
    left. cbn [json.hex4 String.append] in *.
    destruct (json.hexval h0), (json.hexval h1), (json.hexval h2),
      (json.hexval h3); try reflexivity; discriminate H.
Qed.

(** A literal is read the same way when the string goes on behind it. *)
Lemma unquote_go_app (f : nat) :
  forall s str r f' x,
    json.unquote_go f s = Some (str, r) -> (f <= f')%nat ->
    json.unquote_go f' (s ++ x) = Some (str, r ++ x).
Proof.
  induction f as [| k IH]; intros s str r f' x H Hf; [discriminate |].
  destruct f' as [| k']; [lia |]. assert (k <= k')%nat as Hk by lia.
  destruct s as [| c t]; [discriminate |].
  pose proof H as H'.
  cbn [json.unquote_go String.append] in H |- *. cbv zeta in H |- *.
  destruct (N_of_ascii c =? 0x22)%N. { injection H as <- <-. reflexivity. }
  destruct (N_of_ascii c =? 0x5C)%N.
  { destruct t as [| e t1]; [discriminate |]. cbn [String.append].
    destruct (json.unescape e) as [ch |].
    { apply prepend_Some in H as (s0 & H0 & ->).
      now rewrite (IH _ _ _ k' x H0 Hk). }
    destruct (e =? "u")%char; [| discriminate].
    destruct (json.hex4 t1) as [[rr t2] |] eqn:Eh; [| discriminate].
    rewrite (hex4_app _ _ _ x Eh).
    destruct (json.IsSurrogate rr).
    - destruct (json.getu4 t2) as [[rr1 t3] |] eqn:Eg.
      + rewrite (getu4_app _ _ _ x Eg).
        destruct (_ =? utf8.RuneError)%N;
          apply prepend_Some in H as (s0 & H0 & ->);
          now rewrite (IH _ _ _ k' x H0 Hk).
      + apply prepend_Some in H as (s0 & H0 & ->).
        destruct (getu4_None_app k t2 x Eg) as [-> | E]; [| congruence].
        now rewrite (IH _ _ _ k' x H0 Hk).
    - apply prepend_Some in H as (s0 & H0 & ->).
      now rewrite (IH _ _ _ k' x H0 Hk). }
  destruct (N_of_ascii c <? 0x20)%N; [discriminate |].
  destruct (N_of_ascii c <? utf8.RuneSelf)%N.
  { apply prepend_Some in H as (s0 & H0 & ->).
    now rewrite (IH _ _ _ k' x H0 Hk). }
  destruct (decode_app_or_high c t x) as [Hd | Hh].
  2:{ rewrite (unquote_go_high _ _ Hh) in H'. discriminate. }
  cbn [String.append] in Hd. unfold json.ill_formed in *. rewrite Hd.
  destruct (utf8.DecodeRuneInString (String c t)) as [rn size] eqn:Ed.
  destruct ((rn =? utf8.RuneError)%N && (size =? 1)%nat) eqn:Ei.
  { apply prepend_Some in H as (s0 & H0 & ->).
    now rewrite (IH _ _ _ k' x H0 Hk). }
  cbn [snd] in *.
  assert (1 <= size <= String.length (String c t))%nat as Hsize.
  { pose proof (decode_size (String c t) ltac:(discriminate)) as Hs.
    unfold json.ill_formed in Hs. rewrite Ed in Hs. cbn [snd] in Hs.
    now apply Hs. }
  apply prepend_Some in H as (s0 & H0 & ->).
  change (String c (t ++ x)) with (String c t ++ x).
  rewrite take_app_le, drop_app_le by lia.
  now rewrite (IH _ _ _ k' x H0 Hk).
Qed.

Lemma unquote_app (s str r x : string) :
  json.unquote s = Some (str, r) ->
  json.unquote (s ++ x) = Some (str, r ++ x).
Proof.
  unfold json.unquote. intros H. apply (unquote_go_app _ _ _ _ _ _ H).
  rewrite length_append. lia.
Qed.


Lemma skip_ws_app (s x : string) :
  json.skip_ws s <> "" -> json.skip_ws (s ++ x) = json.skip_ws s ++ x.
Proof.
  induction s as [| c t IH]; [cbn; congruence |].
  cbn [json.skip_ws String.append]. destruct (json.isSpace c); auto.
Qed.

Lemma strip_app (p s r x : string) :
  json.strip p s = Some r -> json.strip p (s ++ x) = Some (r ++ x).
Proof.
  revert s. induction p as [| a p IH]; intros s.
  - cbn. now intros [= <-].
  - destruct s as [| b s]; [discriminate |]. cbn [json.strip String.append].
    destruct (a =? b)%char; [apply IH | discriminate].
Qed.

Lemma strip_head (p s r : string) : json.strip p s = Some r -> s = p ++ r.
Proof.
  revert s. induction p as [| a p IH]; intros s.
  - cbn. now intros [= <-].
  - destruct s as [| b s]; [discriminate |]. cbn [json.strip String.append].
    destruct (Ascii.eqb_spec a b) as [<- |]; [| discriminate].
    intros H. now rewrite (IH s H).
Qed.

Lemma digits_app (s x : string) :
  json.digits s <> "" -> json.digits (s ++ x) = json.digits s ++ x.
Proof.
  induction s as [| c t IH]; [cbn; congruence |].
  cbn [json.digits String.append]. destruct (json.isDigit c); auto.
Qed.

Lemma exponent_app (s r x : string) :
  json.exponent s = Some r -> r <> "" ->
  json.exponent (s ++ x) = Some (r ++ x).
Proof.
  destruct s as [| c t]; [cbn; intros [= <-]; congruence |].
  cbn [json.exponent String.append]. cbv zeta.
  destruct ((c =? "e") || (c =? "E"))%char.
  - destruct t as [| g t']; [discriminate |]. cbn [String.append].
    destruct ((g =? "+") || (g =? "-"))%char.
    + destruct t' as [| d r0]; [discriminate |]. cbn [String.append].
      destruct (json.isDigit d); [| discriminate].
      intros [= <-] Hr. now rewrite digits_app.
    + destruct (json.isDigit g); [| discriminate].
      intros [= <-] Hr. now rewrite digits_app.
  - now intros [= <-] _.
Qed.

Lemma fraction_app (s r x : string) :
  json.fraction s = Some r -> r <> "" ->
  json.fraction (s ++ x) = Some (r ++ x).
Proof.
  destruct s as [| c t]; [cbn; intros [= <-]; congruence |].
  cbn [json.fraction String.append].
  destruct (c =? ".")%char.
  - destruct t as [| d r0]; [discriminate |]. cbn [String.append].
    destruct (json.isDigit d); [| discriminate].
    intros H Hr.
    assert (json.digits r0 <> "") as Hd.
    { intros E. rewrite E in H. cbn in H. congruence. }
    rewrite digits_app by assumption. now apply exponent_app.
  - intros H Hr. now apply (exponent_app (String c t)).
Qed.

Lemma number_app (s r x : string) :
  json.number s = Some r -> r <> "" ->
  json.number (s ++ x) = Some (r ++ x).
Proof.
  assert (forall s1,
            match s1 with
            | String c t =>
              if (c =? "0")%char then json.fraction t
              else if json.isDigit c then json.fraction (json.digits t)
              else None
            | EmptyString => None
            end = Some r -> r <> "" ->
            match s1 ++ x with
            | String c t =>
              if (c =? "0")%char then json.fraction t
              else if json.isDigit c then json.fraction (json.digits t)
              else None
            | EmptyString => None
            end = Some (r ++ x)) as H1.
  { intros [| c t]; [discriminate |]. cbn [String.append].
    destruct (c =? "0")%char; [apply fraction_app |].
    destruct (json.isDigit c); [| discriminate].
    intros H Hr.
    assert (json.digits t <> "") as Hd.
    { intros E. rewrite E in H. cbn in H. congruence. }
    rewrite digits_app by assumption. now apply fraction_app. }
  unfold json.number. destruct s as [| c t]; [discriminate |].
  cbn [String.append]. cbv zeta.
  destruct (c =? "-")%char; [apply H1 |].
  apply (H1 (String c t)).
Qed.


Lemma parse_empty (f : nat) (d : N) (m : json.mode) :
  json.parse f d m "" = None.
Proof. destruct f as [| [| k]]; destruct m; reflexivity. Qed.

Lemma parse_skip (f : nat) (d : N) (m : json.mode) (s x : string)
  (res : json.value * string) :
  json.parse f d m (json.skip_ws s) = Some res ->
  json.skip_ws (s ++ x) = json.skip_ws s ++ x.
Proof.
  intros H. apply skip_ws_app. intros E. rewrite E, parse_empty in H.
  discriminate.
Qed.

(** A value is read the same way when the input goes on behind it, unless
    it is a number on which the input ends. *)
Lemma parse_app (f : nat) :
  forall d m s v r f' x,
    json.parse f d m s = Some (v, r) -> (f <= f')%nat ->
    (m = json.AValue -> starts_number s = true -> r <> "") ->
    json.parse f' d m (s ++ x) = Some (v, r ++ x).
Proof.
  induction f as [| k IH]; intros d m s v r f' x H Hf Hn; [discriminate |].
  destruct f' as [| k']; [lia |]. assert (k <= k')%nat as Hk by lia.
  cbn [json.parse] in H |- *. destruct m as [| acc | acc].
  - destruct s as [| c t]; [discriminate |]. cbn [String.append].
    specialize (Hn eq_refl). cbn [starts_number] in Hn.
    destruct (c =? "{")%char.
    { destruct (_ <? _)%N; [discriminate |].
      destruct (json.skip_ws t) as [| c' r0] eqn:Ews; [discriminate |].
      rewrite skip_ws_app, Ews by (rewrite Ews; discriminate).
      cbn [String.append].
      destruct (c' =? "}")%char; [now injection H as <- <- |].
      apply (IH _ _ _ _ _ k' x) in H; [exact H | exact Hk | discriminate]. }
    destruct (c =? "[")%char.
    { destruct (_ <? _)%N; [discriminate |].
      destruct (json.skip_ws t) as [| c' r0] eqn:Ews; [discriminate |].
      rewrite skip_ws_app, Ews by (rewrite Ews; discriminate).
      cbn [String.append].
      destruct (c' =? "]")%char; [now injection H as <- <- |].
      apply (IH _ _ _ _ _ k' x) in H; [exact H | exact Hk | discriminate]. }
    destruct (N_of_ascii c =? 0x22)%N.
    { destruct (json.unquote t) as [[str r1] |] eqn:Eu; [| discriminate].
      rewrite (unquote_app _ _ _ x Eu). now injection H as <- <-. }
    destruct ((c =? "-")%char || json.isDigit c).
    { destruct (json.number (String c t)) as [r1 |] eqn:En; [| discriminate].
      injection H as <- <-.
      change (String c (t ++ x)) with (String c t ++ x).
      now rewrite (number_app _ _ x En (Hn eq_refl)). }
    change (String c (t ++ x)) with (String c t ++ x).
    destruct (json.strip "true" (String c t)) as [r1 |] eqn:E1.
    { rewrite (strip_app _ _ _ x E1). now injection H as <- <-. }
    destruct (json.strip "false" (String c t)) as [r1 |] eqn:E2.
    { rewrite (strip_app _ _ _ x E2). apply strip_head in E2. rewrite E2.
      now injection H as <- <-. }
    destruct (json.strip "null" (String c t)) as [r1 |] eqn:E3;
      [| discriminate].
    rewrite (strip_app _ _ _ x E3). apply strip_head in E3. rewrite E3.
    now injection H as <- <-.
  - destruct (json.parse k d json.AValue s) as [[v1 r1] |] eqn:Ev;
      [| discriminate].
    destruct (json.skip_ws r1) as [| c r'] eqn:Ews; [discriminate |].
    assert (r1 <> "") as Hr1 by (intros ->; discriminate).
    rewrite (IH _ _ _ _ _ k' x Ev Hk (fun _ _ => Hr1)).
    rewrite skip_ws_app, Ews by (rewrite Ews; discriminate).
    cbn [String.append].
    destruct (c =? ",")%char.
    { rewrite (parse_skip _ _ _ _ x _ H).
      apply (IH _ _ _ _ _ k' x) in H; [exact H | exact Hk | discriminate]. }
    destruct (c =? "]")%char; [| discriminate]. now injection H as <- <-.
  - destruct s as [| c t]; [discriminate |]. cbn [String.append].
    destruct (negb _); [discriminate |].
    destruct (json.unquote t) as [[key r0] |] eqn:Eu; [| discriminate].
    rewrite (unquote_app _ _ _ x Eu).
    destruct (json.skip_ws r0) as [| c1 r1] eqn:Ews; [discriminate |].
    rewrite skip_ws_app, Ews by (rewrite Ews; discriminate).
    cbn [String.append].
    destruct (negb _); [discriminate |].
    destruct (json.parse k d json.AValue (json.skip_ws r1)) as [[v1 r2] |]
      eqn:Ev; [| discriminate].
    destruct (json.skip_ws r2) as [| c2 r3] eqn:Ews2; [discriminate |].
    assert (r2 <> "") as Hr2 by (intros ->; discriminate).
    rewrite (parse_skip _ _ _ _ x _ Ev).
    rewrite (IH _ _ _ _ _ k' x Ev Hk (fun _ _ => Hr2)).
    rewrite skip_ws_app, Ews2 by (rewrite Ews2; discriminate).
    cbn [String.append].
    destruct (c2 =? ",")%char.
    { rewrite (parse_skip _ _ _ _ x _ H).
      apply (IH _ _ _ _ _ k' x) in H; [exact H | exact Hk | discriminate]. }
    destruct (c2 =? "}")%char; [| discriminate]. now injection H as <- <-.
Qed.


Lemma skip_ws_tail (a b : string) :
  json.skip_ws (a ++ b) = "" -> json.skip_ws b = "".
Proof.
  induction a as [| c a IH]; [auto |].
  cbn [json.skip_ws String.append].
  destruct (json.isSpace c); [exact IH | discriminate].
Qed.

Lemma starts_number_app (a b : string) :
  a <> "" -> starts_number (a ++ b) = starts_number a.
Proof. destruct a; [congruence | reflexivity]. Qed.

(** A text that ends on a byte that is no white space, and does not begin
    with a number: no proper beginning of it is a JSON text. *)
Lemma scan_cut_short (data body : string) (c : ascii) (v : json.value)
  (n : nat) :
  json.scan data = Some v ->
  starts_number (json.skip_ws data) = false ->
  data = body ++ String c "" -> json.isSpace c = false ->
  (n < String.length data)%nat ->
  json.scan (take n data) = None.
Proof.
  intros Hs Hnum Hd Hc Hn.
  destruct (json.scan (take n data)) as [v' |] eqn:E; [exfalso | reflexivity].
  unfold json.scan in Hs, E.
  destruct (json.parse _ 0 json.AValue (json.skip_ws (take n data)))
    as [[v1 r1] |] eqn:Ep; [| discriminate].
  destruct (json.skip_ws r1) eqn:Er1; [| discriminate]. clear E.
  assert (json.skip_ws (take n data) <> "") as Hne.
  { intros E0. rewrite E0, parse_empty in Ep. discriminate. }
  assert (json.skip_ws (take n data) ++ drop n data = json.skip_ws data)
    as Hsplit.
  { rewrite <- skip_ws_app by assumption. now rewrite take_drop. }
  assert (starts_number (json.skip_ws (take n data)) = false) as Hnum'.
  { rewrite <- (starts_number_app _ (drop n data)) by assumption.
    now rewrite Hsplit. }
  apply (parse_app _ _ _ _ _ _ (2 * String.length data + 2) (drop n data))
    in Ep.
  2:{ pose proof (length_take n data). lia. }
  2:{ intros _ E. congruence. }
  rewrite Hsplit in Ep. rewrite Ep in Hs.
  destruct (json.skip_ws (r1 ++ drop n data)) eqn:Er; [| discriminate].
  apply skip_ws_tail in Er.
  assert (drop n data = drop n body ++ String c "") as Hdrop.
  { rewrite Hd. apply drop_app_le. rewrite Hd, length_append in Hn.
    cbn [String.length] in Hn. lia. }
  rewrite Hdrop in Er. apply skip_ws_tail in Er.
  cbn [json.skip_ws] in Er. rewrite Hc in Er. discriminate.
Qed.

(** No proper beginning of the text of a configuration can be parsed. *)
Lemma Unmarshal_cut_short_text (config : Config) (data : string) (n : nat) :
  json.MarshalIndent config = Ok data ->
  (n < String.length data)%nat ->
  json.Unmarshal (take n data) = Err json.SyntaxError.
Proof.
  intros H Hn.
  pose proof (scan_MarshalIndent config data H) as Hs.
  assert (json.scan (take n data) = None) as E.
  { injection H as <-.
    apply (scan_cut_short _
             ("{" ++ json.nl ++ "  " ++ json.quote ++ "presets" ++ json.quote
              ++ ": " ++ json.encodeSlice (Presets config) ++ json.nl)
             "}"%char _ n Hs); try reflexivity; try exact Hn.
    now rewrite !append_assoc. }
  unfold json.Unmarshal. now rewrite E.
Qed.

End Truncation.

Section Trimming.

(** ** Trimming keeps a string valid *)

Lemma TrimLeftFunc_go_valid (fuel : nat) (f : N -> bool) :
  forall s,
    utf8.ValidString s = true ->
    utf8.ValidString (strings.TrimLeftFunc_go fuel f s) = true.
Proof.
  induction fuel as [| k IH]; intros s H; [exact H |].
  destruct s as [| c t]; [reflexivity |].
  cbn [strings.TrimLeftFunc_go].
  pose proof H as H'. rewrite ValidString_step in H'.
  destruct (json.ill_formed (String c t)); [discriminate |].
  destruct (utf8.DecodeRuneInString (String c t)) as [r size].
  cbn [snd] in H'. destruct (f r); [now apply IH | exact H].
Qed.

(** The table [first] allows continuation bytes only after a leading
    byte. *)
Lemma first_range (s0 : N) (sz : nat) (lo hi : N) :
  utf8.first s0 = Some (sz, lo, hi) ->
  (0xC2 <= s0 /\ 0x80 <= lo /\ hi <= 0xBF)%N.
Proof.
  unfold utf8.first. ncases; intros [= <- <- <-]; lia.
Qed.

Lemma outside_false (lo hi b : N) :
  utf8.outside lo hi b = false -> (lo <= b <= hi)%N.
Proof.
  unfold utf8.outside. intros H. apply orb_false_iff in H as [H1 H2].
  apply N.ltb_ge in H1, H2. lia.
Qed.

(** The bytes of a well-formed sequence after the first are continuation
    bytes; the first is none. *)
Lemma decode_cont (s : string) (i : nat) :
  s <> "" -> json.ill_formed s = false ->
  (1 <= i < snd (utf8.DecodeRuneInString s))%nat ->
  (0x80 <= utf8.byte_at s i <= 0xBF)%N.
Proof.
  unfold json.ill_formed, utf8.DecodeRuneInString, utf8.byte_at.
  destruct s as [| c0 t0]; [congruence |]. intros _.
  destruct (_ <? utf8.RuneSelf)%N; [cbn; lia |].
  destruct (utf8.first _) as [[[sz lo] hi] |] eqn:F; [| discriminate].
  apply first_range in F as (_ & Hlo & Hhi).
  destruct (_ <? sz)%nat; [discriminate |].
  destruct t0 as [| c1 t1]; [discriminate |].
  destruct (utf8.outside lo hi _) eqn:E1; [discriminate |].
  apply outside_false in E1.
  destruct (sz <=? 2)%nat.
  { cbn [snd]. intros _ Hi. assert (i = 1%nat) as -> by lia. cbn. lia. }
  destruct t1 as [| c2 t2]; [discriminate |].
  destruct (utf8.outside _ _ _) eqn:E2; [discriminate |].
  apply outside_false in E2.
  destruct (sz <=? 3)%nat.
  { cbn [snd]. intros _ Hi.
    assert (i = 1 \/ i = 2)%nat as [-> | ->] by lia; cbn; lia. }
  destruct t2 as [| c3 t3]; [discriminate |].
  destruct (utf8.outside _ _ _) eqn:E3; [discriminate |].
  apply outside_false in E3.
  cbn [snd]. intros _ Hi.
  assert (i = 1 \/ i = 2 \/ i = 3)%nat as [-> | [-> | ->]] by lia; cbn; lia.
Qed.

Lemma rune_head (u : string) :
  u <> "" -> json.ill_formed u = false ->
  (utf8.byte_at u 0 < 0x80 \/ 0xC2 <= utf8.byte_at u 0)%N.
Proof.
  unfold json.ill_formed, utf8.DecodeRuneInString, utf8.byte_at.
  destruct u as [| c0 t0]; [congruence |]. intros _. cbn [String.get].
  destruct (N.ltb_spec (N_of_ascii c0) utf8.RuneSelf) as [H | H];
    [unfold utf8.RuneSelf in H; lia |].
  destruct (utf8.first _) as [[[sz lo] hi] |] eqn:F; [| discriminate].
  apply first_range in F. lia.
Qed.

Lemma byte_at_app (a u : string) :
  utf8.byte_at (a ++ u) (String.length a) = utf8.byte_at u 0.
Proof.
  unfold utf8.byte_at. induction a as [| c t IH]; [reflexivity | exact IH].
Qed.

(** A valid string that ends with a well-formed sequence is valid before
    it. *)
Lemma valid_before_rune (u : string) :
  u <> "" -> json.ill_formed u = false ->
  forall a, utf8.ValidString (a ++ u) = true -> utf8.ValidString a = true.
Proof.
  intros Hne Hu a.
  remember (String.length a) as n eqn:Hn.
  assert (String.length a <= n)%nat as Hle by lia. clear Hn.
  revert a Hle. induction n as [| n IH]; intros a Hle H.
  - destruct a; [reflexivity | cbn in Hle; lia].
  - destruct a as [| c t]; [reflexivity |].
    change (String c t ++ u) with (String c (t ++ u)) in H.
    rewrite ValidString_step in H.
    destruct (json.ill_formed (String c (t ++ u))) eqn:Hi; [discriminate |].
    pose proof (decode_size (String c (t ++ u)) ltac:(discriminate) Hi)
      as Hsize.
    pose proof (decode_cont (String c (t ++ u)) (String.length (String c t))
                  ltac:(discriminate) Hi) as Hcont.
    pose proof (decode_prefix (String c (t ++ u))) as Hp.
    set (k := snd (utf8.DecodeRuneInString (String c (t ++ u)))) in *.
    change (String c (t ++ u)) with (String c t ++ u) in *.
    destruct (Nat.le_gt_cases k (String.length (String c t))) as [Hk | Hk].
    + specialize (Hp (drop k (String c t)) ltac:(discriminate) Hi).
      rewrite take_app_le, take_drop in Hp by exact Hk.
      rewrite drop_app_le in H by exact Hk.
      rewrite ValidString_step. unfold json.ill_formed in *.
      rewrite Hp, Hi. fold k. apply IH; [| exact H].
      rewrite length_drop. cbn [String.length] in *. lia.
    + exfalso. rewrite byte_at_app in Hcont.
      pose proof (rune_head u Hne Hu).
      cbn [String.length] in *. lia.
Qed.

(** The last rune of a string, when it is no [RuneError], is a well-formed
    sequence at its end. *)
Lemma drop_last (s : string) (n : nat) :
  String.length s = S n ->
  exists c, drop n s = String c "" /\ String.get n s = Some c.
Proof.
  revert s. induction n as [| n IH]; intros [| c t] H; try discriminate.
  - destruct t; [| discriminate]. cbn. eauto.
  - cbn in H. apply IH. lia.
Qed.

Lemma DecodeLast_split (s : string) (r : N) (size : nat) :
  utf8.DecodeLastRuneInString s = (r, size) -> r <> utf8.RuneError ->
  exists start,
    (start + size = String.length s)%nat
    /\ utf8.DecodeRuneInString (drop start s) = (r, size).
Proof.
  unfold utf8.DecodeLastRuneInString. intros H Hr.
  destruct (String.length s) as [| e1] eqn:Hlen;
    [injection H as <- _; congruence |].
  destruct (utf8.byte_at s e1 <? utf8.RuneSelf)%N eqn:Ea.
  - injection H as <- <-. exists e1. split; [lia |].
    destruct (drop_last s e1 Hlen) as (c & -> & Hg).
    unfold utf8.byte_at in *. rewrite Hg in *.
    unfold utf8.DecodeRuneInString. now rewrite Ea.
  - cbv zeta in H.
    match type of H with
    | context [drop ?st s] => set (start := st) in H
    end.
    destruct (utf8.DecodeRuneInString (drop start s)) as [r0 size0] eqn:Hdec.
    destruct (start + size0 =? S e1)%nat eqn:E.
    + injection H as <- <-. apply Nat.eqb_eq in E.
      exists start. split; [exact E | exact Hdec].
    + injection H as <- _. congruence.
Qed.

Lemma TrimRightFunc_go_valid (fuel : nat) (f : N -> bool) :
  f utf8.RuneError = false ->
  forall s,
    utf8.ValidString s = true ->
    utf8.ValidString (strings.TrimRightFunc_go fuel f s) = true.
Proof.
  intros Hf. induction fuel as [| k IH]; intros s H; [exact H |].
  destruct s as [| c t]; [reflexivity |].
  cbn [strings.TrimRightFunc_go].
  destruct (utf8.DecodeLastRuneInString (String c t)) as [r size] eqn:Hd.
  destruct (f r) eqn:Hr; [| exact H].
  apply IH.
  assert (r <> utf8.RuneError) as Hne by congruence.
  destruct (DecodeLast_split _ r size Hd Hne) as (start & Hs & Hdec).
  replace (String.length (String c t) - size)%nat with start by lia.
  set (s := String c t) in *.
  assert (drop start s <> "") as Hu.
  { intros E. rewrite E in Hdec. injection Hdec as <- _. congruence. }
  apply (valid_before_rune (drop start s) Hu).
  - unfold json.ill_formed. rewrite Hdec.
    apply andb_false_iff. left. now apply N.eqb_neq.
  - now rewrite take_drop.
Qed.

(** [TrimSpace] of a valid string is valid. *)
Lemma TrimSpace_valid (s : string) :
  utf8.ValidString s = true -> utf8.ValidString (strings.TrimSpace s) = true.
Proof.
  intros H. unfold strings.TrimSpace, strings.TrimRightFunc,
    strings.TrimLeftFunc.
  apply TrimRightFunc_go_valid; [reflexivity |].
  now apply TrimLeftFunc_go_valid.
Qed.

End Trimming.

Section Valid.

Context {L : Libs}.

(** ** The configuration of the program is valid UTF-8 *)

Lemma wellFormed_default : json.wellFormed getDefaultConfig = true.
Proof. vm_compute. reflexivity. Qed.

Lemma forallb_list_set {A} (f : A -> bool) (l : list A) (i : nat) (x : A) :
  f x = true -> forallb f l = true -> forallb f (list_set l i x) = true.
Proof.
  intros Hx. revert i. induction l as [| a l IH]; intros i H; [exact H |].
  cbn [forallb] in H. apply andb_prop in H as [Ha Hl].
  destruct i as [| i]; cbn [list_set forallb].
  - now rewrite Hx, Hl.
  - now rewrite Ha, IH.
Qed.

Lemma forallb_remove {A} (f : A -> bool) (l : list A) (i : nat) :
  forallb f l = true -> forallb f (firstn i l ++ skipn (S i) l) = true.
Proof.
  revert i. induction l as [| a l IH]; intros i H.
  - now destruct i.
  - cbn [forallb] in H. apply andb_prop in H as [Ha Hl].
    destruct i as [| i]; cbn [firstn skipn app forallb]; [exact Hl |].
    rewrite Ha. now apply IH.
Qed.

(** None of the four operations brings in an ill-formed byte: what is
    typed is valid, and so is what is left of it once trimmed. *)
Lemma wellFormed_mutated (m : model) :
  json.wellFormed (config m) = true -> json.wellFormed (mutated m) = true.
Proof.
  intros H. unfold mutated.
  assert (pvalid {| Name := strings.TrimSpace (Value (nameInput m));
                    URL := strings.TrimSpace (Value (urlInput m)) |} = true)
    as He.
  { unfold pvalid, Value. cbn [Name URL].
    now rewrite !TrimSpace_valid by apply ValidString_string_of_runes. }
  unfold json.wellFormed in *.
  destruct (state m); try exact H.
  - cbn [Presets append elems]. rewrite forallb_app, H. cbn [forallb].
    fold (pvalid {| Name := strings.TrimSpace (Value (nameInput m));
                    URL := strings.TrimSpace (Value (urlInput m)) |}).
    now rewrite He.
  - cbn [Presets]. rewrite elems_slice_set.
    now apply forallb_list_set.
  - cbn [Presets]. rewrite elems_remove. now apply forallb_remove.
  - exact wellFormed_default.
Qed.

Lemma valid_step (w : World) (m : model) (msg : Msg) :
  json.wellFormed (config m) = true ->
  json.wellFormed (config (model_of (Update w m msg))) = true.
Proof.
  intros H.
  assert (forall key, msg = KeyMsg key -> mutates m key = true ->
            json.wellFormed (config (model_of (Update w m msg))) = true)
    as Hm.
  { intros key -> E. rewrite (mutates_Update w m key E). msimpl.
    now apply wellFormed_mutated. }
  assert ((forall key, msg = KeyMsg key -> mutates m key = false) ->
          json.wellFormed (config (model_of (Update w m msg))) = true)
    as Hq.
  { intros Hq. destruct (Update_frame w m msg Hq) as [-> _]. exact H. }
  destruct msg as [url err | | W H0 | key | tag];
    try (apply Hq; intros k [=]; fail).
  destruct (mutates m key) eqn:E; [now apply (Hm key) |].
  apply Hq. now intros k [= <-].
Qed.

Lemma loadConfig_valid (w : World) (c : Config) :
  loadConfig w = Ok c -> json.wellFormed c = true.
Proof.
  unfold loadConfig.
  destruct (getConfigPath w) as [path | e]; [| discriminate].
  destruct (os_IsNotExist w path).
  { intros [= <-]. exact wellFormed_default. }
  destruct (os_ReadFile w path) as [data |]; [| discriminate].
  destruct (json.Unmarshal data) as [c0 | e] eqn:Hu; [| discriminate].
  intros [= <-]. now apply Unmarshal_valid in Hu.
Qed.

(** Every configuration that the program reaches holds valid UTF-8. *)
Lemma reached_valid (w : World) (msgs : list Msg) :
  json.wellFormed
    (config (snd (run (fst (initialModel w)) (snd (initialModel w)) msgs)))
  = true.
Proof.
  apply (run_invariant (fun m => json.wellFormed (config m) = true)).
  - intros w0 m0 msg. apply valid_step.
  - unfold initialModel.
    destruct (loadConfig w) as [c | e] eqn:Hl.
    + now apply loadConfig_valid in Hl.
    + destruct (saveConfig w getDefaultConfig). exact wellFormed_default.
Qed.

(** Whatever stands in the file, a configuration that [loadConfig] returns
    holds valid UTF-8 only, the ill-formed bytes of the file having become
    U+FFFD; when it is saved and the file read again, [loadConfig] returns
    the same configuration. *)
Theorem loaded_configuration_is_valid (w : World) (c : Config) :
  loadConfig w = Ok c ->
  json.wellFormed c = true
  /\ (forall w1 path data,
        getConfigPath w = Ok path ->
        saveConfig w c = (w1, None) ->
        os_ReadFile w1 path = Some data ->
        json.MarshalIndent c = Ok data /\ loadConfig w1 = Ok c).
Proof.
  intros Hl. pose proof (loadConfig_valid w c Hl) as Hv.
  split; [exact Hv |]. intros w1 path data Hp Hs Hr.
  destruct (load_after_save w w1 c path data Hp Hs Hr) as [Hj Hl1].
  split; [exact Hj |]. now rewrite Hl1, coerceConfig_wellFormed.
Qed.

(** From the start and after every sequence of messages, whatever the
    configuration file held and whatever the widgets put in the inputs,
    the names and URLs of the configuration are valid UTF-8; a [saveConfig]
    of it that succeeds is therefore read back by [loadConfig] as the very
    same configuration, and saving that one again leaves the file with the
    same bytes. *)
Theorem configuration_stays_valid (w : World) (msgs : list Msg) :
  let r := run (fst (initialModel w)) (snd (initialModel w)) msgs in
  json.wellFormed (config (snd r)) = true
  /\ (forall w0 w1 path data,
        getConfigPath w0 = Ok path ->
        saveConfig w0 (config (snd r)) = (w1, None) ->
        os_ReadFile w1 path = Some data ->
        loadConfig w1 = Ok (config (snd r))
        /\ snd (saveConfig w1 (config (snd r))) = None
        /\ os_ReadFile (fst (saveConfig w1 (config (snd r)))) path
           = Some data).
Proof.
  intros r.
  assert (json.wellFormed (config (snd r)) = true) as Hv.
  { subst r.
    apply (run_invariant (fun m => json.wellFormed (config m) = true)).
    - intros w0 m0 msg. apply valid_step.
    - unfold initialModel.
      destruct (loadConfig w) as [c | e] eqn:Hl.
      + now apply loadConfig_valid in Hl.
      + destruct (saveConfig w getDefaultConfig). exact wellFormed_default. }
  split; [exact Hv |]. intros w0 w1 path data Hp Hs Hr.
  destruct (load_after_save w0 w1 _ path data Hp Hs Hr) as [_ Hl1].
  split; [now rewrite Hl1, coerceConfig_wellFormed |].
  destruct (save_again w0 w1 _ path data Hp Hs Hr) as (H1 & H2 & _). auto.
Qed.

(** C8: save after load is stable. [saveConfig] is called on the
    configuration of the program only, as it is at the start or after the
    messages that have come in. Whatever that configuration, when a
    [saveConfig] of it has succeeded and the file that it wrote can be
    read, the file holds the text that [json.MarshalIndent] gives for the
    presets in their order, [loadConfig] returns the very configuration
    that was saved, and a [saveConfig] of what was loaded succeeds and
    leaves the file holding the same bytes. *)
Theorem save_after_load_is_stable
  (w0 : World) (msgs : list Msg) (w w1 : World) (path data : string) :
  let c :=
    config (snd (run (fst (initialModel w0)) (snd (initialModel w0)) msgs)) in
  getConfigPath w = Ok path ->
  saveConfig w c = (w1, None) ->
  os_ReadFile w1 path = Some data ->
  json.MarshalIndent c = Ok data
  /\ exists c1,
       loadConfig w1 = Ok c1
       /\ c1 = c
       /\ snd (saveConfig w1 c1) = None
       /\ os_ReadFile (fst (saveConfig w1 c1)) path = Some data
       /\ files (fst (saveConfig w1 c1)) path = files w1 path.
Proof.
  intros c Hp Hs Hr.
  pose proof (reached_valid w0 msgs) as Hv. fold c in Hv.
  destruct (load_after_save w w1 c path data Hp Hs Hr) as [Hj Hl].
  rewrite (coerceConfig_wellFormed c Hv) in Hl.
  split; [exact Hj |]. exists c. split; [exact Hl |]. split; [reflexivity |].
  now apply (save_again w).
Qed.

End Valid.

Section Trimmed.

Context {L : Libs}.

(** ** What [TrimSpace] leaves *)

Lemma decode_pos (s : string) (r : N) (size : nat) :
  utf8.DecodeRuneInString s = (r, size) -> r <> utf8.RuneError ->
  s <> "" /\ json.ill_formed s = false /\ (1 <= size <= String.length s)%nat.
Proof.
  intros Hd Hr.
  assert (s <> "") as Hne.
  { intros ->. injection Hd as <- _. congruence. }
  assert (json.ill_formed s = false) as Hi.
  { unfold json.ill_formed. rewrite Hd. apply andb_false_iff. left.
    now apply N.eqb_neq. }
  pose proof (decode_size s Hne Hi) as Hs. rewrite Hd in Hs. auto.
Qed.

(** What is left of a string trimmed on the left begins with no rune
    that [f] holds of. *)
Lemma TrimLeftFunc_go_head (fuel : nat) (f : N -> bool) :
  forall s,
    (String.length s <= fuel)%nat ->
    let t := strings.TrimLeftFunc_go fuel f s in
    t = "" \/ f (fst (utf8.DecodeRuneInString t)) = false.
Proof.
  induction fuel as [| k IH]; intros s Hs t; subst t.
  - destruct s; [now left | cbn in Hs; lia].
  - destruct s as [| c t]; [now left |].
    cbn [strings.TrimLeftFunc_go].
    destruct (utf8.DecodeRuneInString (String c t)) as [r size] eqn:Hd.
    destruct (f r) eqn:Hf; [| right; now rewrite Hd].
    apply IH. rewrite length_drop.
    assert (1 <= size)%nat.
    { revert Hd. unfold utf8.DecodeRuneInString.
      repeat match goal with
             | |- context [match ?x with _ => _ end] => destruct x
             end; intros [= _ <-]; lia. }
    cbn [String.length] in *. lia.
Qed.

(** What is left of a string trimmed on the right is the beginning of the
    string, and ends with no rune that [f] holds of. *)
Lemma TrimRightFunc_go_tail (fuel : nat) (f : N -> bool) :
  f utf8.RuneError = false ->
  forall s,
    (String.length s <= fuel)%nat ->
    let t := strings.TrimRightFunc_go fuel f s in
    (exists x, s = t ++ x)
    /\ (t = "" \/ f (fst (utf8.DecodeLastRuneInString t)) = false).
Proof.
  intros Hf. induction fuel as [| k IH]; intros s Hs t; subst t.
  - destruct s; [| cbn in Hs; lia]. split; [now exists "" | now left].
  - destruct s as [| c t]; [split; [now exists "" | now left] |].
    cbn [strings.TrimRightFunc_go].
    destruct (utf8.DecodeLastRuneInString (String c t)) as [r size] eqn:Hd.
    destruct (f r) eqn:Hr.
    2:{ split; [exists ""; now rewrite append_empty | right; now rewrite Hd]. }
    assert (r <> utf8.RuneError) as Hne by congruence.
    destruct (DecodeLast_split _ r size Hd Hne) as (start & Hst & Hdec).
    destruct (decode_pos _ r size Hdec Hne) as (_ & _ & Hsize).
    set (s := String c t) in *.
    destruct (IH (take (String.length s - size) s)) as [[x Hx] Hend].
    { rewrite length_take by lia. subst s. cbn [String.length] in *. lia. }
    split; [| exact Hend].
    exists (x ++ drop (String.length s - size) s).
    rewrite <- append_assoc, <- Hx. symmetry. apply take_drop.
Qed.

(** The first rune of the beginning of a string, when it is no
    [RuneError], is the first rune of the string. *)
Lemma decode_app (t x : string) :
  fst (utf8.DecodeRuneInString t) <> utf8.RuneError ->
  utf8.DecodeRuneInString (t ++ x) = utf8.DecodeRuneInString t.
Proof.
  destruct (utf8.DecodeRuneInString t) as [r size] eqn:Hd. cbn [fst].
  intros Hr. destruct (decode_pos t r size Hd Hr) as (Hne & Hi & Hs).
  pose proof (decode_prefix t (drop size t ++ x) Hne Hi) as Hp.
  rewrite Hd in Hp. cbn [snd] in Hp.
  now rewrite <- append_assoc, take_drop in Hp.
Qed.

(** [TrimSpace] leaves nothing, or a string with no white space at either
    end. *)
Lemma TrimSpace_trimmed (s : string) :
  strings.TrimSpace s = "" \/ trimmed (strings.TrimSpace s).
Proof.
  unfold strings.TrimSpace, strings.TrimRightFunc.
  pose proof (TrimLeftFunc_go_head (String.length s) unicode.IsSpace s
                (Nat.le_refl _)) as Hl.
  fold (strings.TrimLeftFunc s unicode.IsSpace) in Hl. cbv zeta in Hl.
  remember (strings.TrimLeftFunc s unicode.IsSpace) as l eqn:El. clear El.
  destruct (TrimRightFunc_go_tail (String.length l) unicode.IsSpace
              eq_refl l (Nat.le_refl _)) as [[x Hx] Hend].
  remember (strings.TrimRightFunc_go (String.length l) unicode.IsSpace l)
    as t eqn:Et. clear Et.
  destruct Hend as [Hend | Hend]; [now left |].
  destruct (string_dec t "") as [Ht | Ht]; [now left |]. right.
  split; [| exact Hend].
  destruct (unicode.IsSpace (fst (utf8.DecodeRuneInString t))) eqn:Hsp;
    [| reflexivity].
  exfalso.
  assert (fst (utf8.DecodeRuneInString t) <> utf8.RuneError) as Hr.
  { intros E. rewrite E in Hsp. discriminate Hsp. }
  pose proof (decode_app t x Hr) as Hd. rewrite <- Hx in Hd.
  destruct Hl as [E | E].
  - rewrite E in Hx. destruct t; [congruence | discriminate Hx].
  - rewrite Hd in E. congruence.
Qed.

(** What the forms store is trimmed: the preset that [enter] puts in the
    configuration, at the end of the presets from the add form and at the
    remembered index from the edit form, has a name and a URL that are not
    empty, that neither begin nor end with white space, and that are valid
    UTF-8. *)
Theorem stored_entries_are_trimmed (w : World) (m : model) :
  state m = addPresetView \/ state m = editPresetView ->
  mutates m "enter" = true ->
  let c' := config (model_of (Update w m (KeyMsg "enter"))) in
  let i := match state m with
           | addPresetView => len (Presets (config m))
           | _ => selectedIndex m
           end in
  exists p,
    nth_error (elems (Presets c')) i = Some p
    /\ p = {| Name := strings.TrimSpace (Value (nameInput m));
              URL := strings.TrimSpace (Value (urlInput m)) |}
    /\ Name p <> "" /\ URL p <> ""
    /\ trimmed (Name p) /\ trimmed (URL p)
    /\ utf8.ValidString (Name p) = true /\ utf8.ValidString (URL p) = true.
Proof.
  intros Hst Hm c' i. subst c' i.
  rewrite (mutates_Update w m "enter" Hm). msimpl.
  exists {| Name := strings.TrimSpace (Value (nameInput m));
            URL := strings.TrimSpace (Value (urlInput m)) |}.
  cbn [Name URL].
  assert (strings.TrimSpace (Value (nameInput m)) <> ""
          /\ strings.TrimSpace (Value (urlInput m)) <> ""
          /\ (state m = editPresetView ->
              (selectedIndex m < len (Presets (config m)))%nat))
    as (Hn & Hu & Hi).
  { unfold mutates in Hm.
    destruct Hst as [Hst | Hst]; rewrite Hst in Hm; cbn [key_is existsb] in Hm;
      repeat (apply andb_prop in Hm as [Hm ?]);
      repeat match goal with
             | H : _ && _ = true |- _ => apply andb_prop in H as [? ?]
             | H : nonempty _ = true |- _ => apply nonempty_true in H
             | H : (_ <? _)%nat = true |- _ => apply Nat.ltb_lt in H
             end;
      repeat split; auto; intros E; congruence. }
  split.
  { unfold mutated. destruct Hst as [Hst | Hst]; rewrite Hst.
    - cbn [Presets append elems]. unfold len.
      now rewrite nth_error_app2, Nat.sub_diag by lia.
    - cbn [Presets]. rewrite elems_slice_set, nth_error_list_set
        by (apply (Hi Hst)).
      now rewrite Nat.eqb_refl. }
  split; [reflexivity |]. split; [exact Hn |]. split; [exact Hu |].
  split; [now destruct (TrimSpace_trimmed (Value (nameInput m))) |].
  split; [now destruct (TrimSpace_trimmed (Value (urlInput m))) |].
  split; apply TrimSpace_valid, ValidString_string_of_runes.
Qed.

End Trimmed.

Section Restart.

Context {L : Libs} {scr : Screen}.

(** ** The views, one after the other *)

(** A key leaves the view as it is or leads to one of its successors: from
    the main menu to the quit confirmation, the custom URL view, the
    manage view or the loading view; from the manage view to its forms and
    confirmations, to the main menu or to the loading view; from those
    back to the manage view; from the loading view nowhere. The two
    messages that end a resolution or a playback lead to the main menu, a
    successful resolution and every other message leave the view as it
    is. *)
Theorem transitions_follow_the_menu (w : World) (m : model) (msg : Msg) :
  let st' := state (model_of (Update w m msg)) in
  match msg with
  | KeyMsg _ => st' = state m \/ In st' (successors (state m))
  | streamURLMsg _ (Some _) | streamEndedMsg => st' = mainMenuView
  | _ => st' = state m
  end.
Proof.
  intros st'. subst st'.
  destruct msg as [url [err |] | | W H | key | tag]; try reflexivity.
  - unfold Update, updateKey, updateWidget, toggleFocus.
    destruct (state m) eqn:Hst; step_cases; msimpl; rewrite ?Hst;
      cbn [successors In]; tauto.
  - unfold Update, updateWidget.
    destruct (state m) eqn:Hst; step_cases; msimpl; now rewrite ?Hst.
Qed.

(** ** Deleting with nothing highlighted *)

(** In the manage view, with the list showing the presets of the
    configuration and no item highlighted, as when there is no preset, [d]
    (or [x]) opens the confirmation all the same, which names no preset
    (its width is [min(60, max(40, width - 20))] on [int]);
    [y] then deletes nothing: the view is the manage view again, and the
    configuration, the list and the world are as they were. *)
Theorem delete_on_nothing_is_harmless
  (w : World) (m : model) (key : string) :
  state m = managePresetsView ->
  items (list_ m) = elems (Presets (config m)) ->
  SelectedItem (list_ m) = None ->
  key = "d" \/ key = "x" ->
  let r1 := Update w m (KeyMsg key) in
  let r2 := Update (world_of r1) (model_of r1) (KeyMsg "y") in
  state (model_of r1) = deleteConfirmView
  /\ (ready m = true ->
        View (model_of r1)
        = lipgloss_Place (width m) (height m)
            (Render (dialogStyle "196"
                       (Z.min 60 (Z.max 40 (int_sub (width m) 20))))
               ("Delete preset ''?" ++ LF ++ LF
                ++ Render hintStyle "Press Y to confirm • N to cancel")))
  /\ state (model_of r2) = managePresetsView
  /\ config (model_of r2) = config m
  /\ list_ (model_of r2) = list_ m
  /\ world_of r2 = w
  /\ cmd_of r2 = nil_Cmd.
Proof.
  intros Hst Hm Hsel Hkey r1 r2.
  assert (List.length (elems (Presets (config m))) <= Index (list_ m))%nat
    as Hi.
  { apply nth_error_None. unfold SelectedItem, Index in *.
    now rewrite <- Hm. }
  assert (r1 = (w, set_selectedIndex (Index (list_ m))
                     (set_state deleteConfirmView m), nil_Cmd)) as ->.
  { subst r1. unfold Update, updateKey. rewrite Hst.
    destruct Hkey as [-> | ->]; reflexivity. }
  subst r2. msimpl. apply Nat.ltb_ge in Hi.
  split; [reflexivity |]. split.
  - intros Hr. unfold View. msimpl. rewrite Hr. cbn [negb]. unfold len.
    rewrite Hi. rewrite (dialog_width _ 40 60) by lia. reflexivity.
  - unfold Update, updateKey. msimpl. key_case. unfold len. rewrite Hi.
    msimpl. repeat split.
Qed.

(** ** Restarting *)

(** [loadConfig] looks at the environment and at the files only. *)
Lemma loadConfig_env (w w' : World) :
  UserHomeDir w' = UserHomeDir w ->
  XDG_CONFIG_HOME w' = XDG_CONFIG_HOME w ->
  (forall p, files w' p = files w p) ->
  loadConfig w' = loadConfig w.
Proof.
  intros Hh Hx Hf. unfold loadConfig, os_IsNotExist, os_ReadFile.
  rewrite (getConfigPath_env w w' Hh Hx).
  destruct (getConfigPath w) as [path | e]; [| reflexivity].
  now rewrite Hf.
Qed.

(** A change that was saved is there after a restart. When the program,
    after any sequence of messages, carries out one of the four operations
    and [saveConfig] succeeds (the configuration file being readable if it
    stood there), a program started on the world as it then is loads the
    very configuration that the model held, shows its presets in the list,
    and writes nothing. *)
Theorem changes_survive_restart
  (w : World) (msgs : list Msg) (key path : string) :
  let w0 := fst (run (fst (initialModel w)) (snd (initialModel w)) msgs) in
  let m := snd (run (fst (initialModel w)) (snd (initialModel w)) msgs) in
  let r := Update w0 m (KeyMsg key) in
  mutates m key = true ->
  getConfigPath w0 = Ok path ->
  (forall d, files w0 path <> File false d) ->
  snd (saveConfig w0 (config (model_of r))) = None ->
  loadConfig (world_of r) = Ok (config (model_of r))
  /\ initialModel (world_of r)
     = (world_of r, snd (initialModel (world_of r)))
  /\ config (snd (initialModel (world_of r))) = config (model_of r)
  /\ items (list_ (snd (initialModel (world_of r))))
     = elems (Presets (config (model_of r))).
Proof.
  intros w0 m r Hm Hp Hf Hs. subst r.
  pose proof (reached_valid w msgs) as Hv. fold m in Hv.
  apply wellFormed_mutated in Hv.
  rewrite (mutates_Update w0 m key Hm) in *. msimpl.
  destruct (saveConfig w0 (mutated m)) as [w1 e] eqn:Hsave.
  cbn [snd fst] in *. subst e.
  assert (exists data, os_ReadFile w1 path = Some data) as [data Hr].
  { destruct (saveConfig_success w0 w1 _ path Hp Hsave)
      as (dir & data0 & _ & _ & _ & _ & ->).
    unfold os_ReadFile, written. cbn [files called].
    rewrite String.eqb_refl.
    destruct (files w0 path) as [| [|] d] eqn:E; eauto.
    now destruct (Hf d). }
  destruct (load_after_save w0 w1 _ path data Hp Hsave Hr) as [_ Hl].
  rewrite (coerceConfig_wellFormed _ Hv) in Hl.
  split; [exact Hl |]. unfold initialModel. rewrite Hl. repeat split.
Qed.

(** A change whose save failed before the configuration file was opened
    is gone after a restart. When [saveConfig] returns an error on one of
    the four operations, and the error is not that of [os.WriteFile] or the
    file could not be opened, every file is as it was: [loadConfig] returns
    in the world as it then is what it returned before, and a program
    started there starts on the model it would have started on before the
    change. When the write broke off once the file was open, the
    configuration file holds a beginning of the new text, and what it held
    before is lost with the change: if the text was not written to its
    end, [loadConfig] cannot parse the file, and a program started there
    starts on the defaults. *)
Theorem unsaved_changes_are_lost_at_restart
  (w : World) (m : model) (key : string) (e : error) :
  mutates m key = true ->
  snd (saveConfig w (config (model_of (Update w m (KeyMsg key))))) = Some e ->
  let c' := config (model_of (Update w m (KeyMsg key))) in
  let w' := world_of (Update w m (KeyMsg key)) in
  ((e = ErrWriteConfig ->
    forall path data,
      getConfigPath w = Ok path -> json.MarshalIndent c' = Ok data ->
      writeResult w path data = OpenError) ->
   (forall p, files w' p = files w p)
   /\ loadConfig w' = loadConfig w
   /\ snd (initialModel w') = snd (initialModel w))
  /\ (e = ErrWriteConfig ->
      forall path data n,
        getConfigPath w = Ok path -> json.MarshalIndent c' = Ok data ->
        writeResult w path data = WriteError n ->
        (exists readable, files w' path = File readable (take n data))
        /\ (forall p, p <> path -> files w' p = files w p)
        /\ ((forall d, files w path <> File false d) ->
            os_ReadFile w' path = Some (take n data)
            /\ ((n < String.length data)%nat ->
                loadConfig w' = Err (ErrParseConfig json.SyntaxError)
                /\ config (snd (initialModel w')) = getDefaultConfig))).
Proof.
  intros Hm Hs c' w'. subst c' w'. revert Hs.
  rewrite (mutates_Update w m key Hm). msimpl. intros Hs.
  destruct (saveConfig_env w (mutated m)) as (Hh & Hx & _ & Hwf).
  destruct (saveConfig_failure w (mutated m) e Hs) as [Hother Hwrite].
  split.
  - intros Hopen.
    assert (forall p, files (fst (saveConfig w (mutated m))) p = files w p)
      as Hf.
    { destruct e; try (apply Hother; discriminate).
      destruct (Hwrite eq_refl)
        as (path & data & Hp & Hj & Hrest & [[_ Hsame] | (n & Hn & _)]).
      - intros p. destruct (String.eqb_spec p path) as [-> | Hne];
          [exact Hsame | now apply Hrest].
      - rewrite (Hopen eq_refl path data Hp Hj) in Hn. discriminate. }
    assert (loadConfig (fst (saveConfig w (mutated m))) = loadConfig w) as Hl.
    { now apply loadConfig_env. }
    split; [exact Hf |]. split; [exact Hl |].
    unfold initialModel. rewrite Hl.
    destruct (loadConfig w); [reflexivity |].
    now do 2 destruct (saveConfig _ getDefaultConfig).
  - intros -> path data n Hp Hj Hn.
    destruct (Hwrite eq_refl)
      as (path0 & data0 & Hp0 & Hj0 & Hrest & [[Ho _] | (n0 & Hn0 & Hfile)]).
    + assert (path0 = path) as -> by congruence.
      assert (data0 = data) as -> by congruence. congruence.
    + assert (path0 = path) as -> by congruence.
      assert (data0 = data) as -> by congruence.
      assert (n0 = n) as -> by congruence.
      split; [eauto |]. split; [exact Hrest |]. intros Hread.
      assert (files (fst (saveConfig w (mutated m))) path
              = File true (take n data)) as Hfile'.
      { rewrite Hfile. destruct (files w path) as [| [|] d]; try reflexivity.
        now destruct (Hread d). }
      assert (os_ReadFile (fst (saveConfig w (mutated m))) path
              = Some (take n data)) as Hr.
      { unfold os_ReadFile. now rewrite Hfile'. }
      split; [exact Hr |]. intros Hlen.
      assert (loadConfig (fst (saveConfig w (mutated m)))
              = Err (ErrParseConfig json.SyntaxError)) as Hl.
      { unfold loadConfig, os_IsNotExist.
        rewrite (getConfigPath_env _ _ Hh Hx), Hp, Hr, Hfile'.
        now rewrite (Unmarshal_cut_short_text _ _ n Hj Hlen). }
      split; [exact Hl |]. unfold initialModel. rewrite Hl.
      now destruct (saveConfig _ getDefaultConfig).
Qed.

End Restart.

Section Editing.

Context {L : Libs}.

(** ** The edit form *)

(** A message that does not leave a form changes what is typed, the focus
    and the size at most. *)
Lemma form_stays (w : World) (m : model) (msg : Msg) :
  state m = addPresetView \/ state m = editPresetView ->
  leaves_form msg = false ->
  let m' := model_of (Update w m msg) in
  state m' = state m
  /\ selectedIndex m' = selectedIndex m
  /\ config m' = config m
  /\ world_of (Update w m msg) = w.
Proof.
  intros Hst Hl m'. subst m'.
  destruct msg as [url [err |] | | W H | key | tag]; try discriminate Hl;
    try (cbn; auto; fail).
  - cbn [leaves_form] in Hl.
    assert (key_is key ["esc"] = false /\ key_is key ["enter"] = false)
      as [He Hn].
    { split; apply not_true_is_false; intros E;
        apply (key_is_incl key _ ["esc"; "enter"]) in E;
        try congruence; intros x; cbn; tauto. }
    unfold Update, updateKey, updateWidget, toggleFocus.
    destruct Hst as [Hst | Hst]; rewrite Hst, He, Hn;
      step_cases; msimpl; auto.
  - unfold Update, updateWidget.
    destruct Hst as [Hst | Hst]; rewrite Hst; step_cases; msimpl; auto.
Qed.

(** In the manage view, with the list showing the presets of the
    configuration, [e] on the highlighted preset opens the edit form on its
    name and URL, as the sanitizer of the inputs leaves them. Whatever is
    typed then, and whatever else comes in that does not leave the form,
    the configuration and the world are as they were; [enter] on a name
    and a URL that are not empty once trimmed then replaces the preset that
    was highlighted, and no other, by the trimmed name and URL, and saves
    the configuration: when the directory can be created and the file
    written, the configuration file holds the text of the new
    configuration, from which [loadConfig] reads it back. *)
Theorem edit_replaces_the_highlighted_preset
  (w : World) (m : model) (p : Preset) (msgs : list Msg) :
  state m = managePresetsView ->
  items (list_ m) = elems (Presets (config m)) ->
  SelectedItem (list_ m) = Some p ->
  forallb (fun msg => negb (leaves_form msg)) msgs = true ->
  let i := Index (list_ m) in
  let l := elems (Presets (config m)) in
  let r1 := Update w m (KeyMsg "e") in
  let r2 := run (world_of r1) (model_of r1) msgs in
  let r3 := Update (fst r2) (snd r2) (KeyMsg "enter") in
  let name := strings.TrimSpace (Value (nameInput (snd r2))) in
  let url := strings.TrimSpace (Value (urlInput (snd r2))) in
  state (model_of r1) = editPresetView
  /\ nth_error l i = Some p
  /\ Value (nameInput (model_of r1))
     = utf8.string_of_runes (flat_map sanitize_rune (utf8.runes (Name p)))
  /\ Value (urlInput (model_of r1))
     = utf8.string_of_runes (flat_map sanitize_rune (utf8.runes (URL p)))
  /\ state (snd r2) = editPresetView
  /\ config (snd r2) = config m
  /\ fst r2 = w
  /\ (name <> "" -> url <> "" ->
        elems (Presets (config (model_of r3)))
        = list_set l i {| Name := name; URL := url |}
        /\ (forall j, nth_error (elems (Presets (config (model_of r3)))) j
              = if (j =? i)%nat then Some {| Name := name; URL := url |}
                else nth_error l j)
        /\ state (model_of r3) = managePresetsView
        /\ world_of r3 = fst (saveConfig w (config (model_of r3)))
        /\ persisted w (config (model_of r3)) (world_of r3)).
Proof.
  intros Hst Hm Hsel Hmsgs i l r1 r2 r3 name url.
  assert (nth_error l i = Some p) as Hn.
  { subst i l. unfold SelectedItem, Index in *. now rewrite <- Hm. }
  assert (i < List.length l)%nat as Hi.
  { apply nth_error_Some. congruence. }
  assert (r1 = (w,
                set_urlInput (Blur (SetValue (URL p) (urlInput m)))
                  (set_nameInput (Focus (SetValue (Name p) (nameInput m)))
                     (set_focusedInput 0
                        (set_selectedIndex i (set_state editPresetView m)))),
                textinput_Blink)) as E1.
  { subst r1. unfold Update, updateKey. rewrite Hst. key_case.
    rewrite Hsel. reflexivity. }
  assert (forall msgs w0 m0,
            state m0 = editPresetView ->
            forallb (fun msg => negb (leaves_form msg)) msgs = true ->
            state (snd (run w0 m0 msgs)) = editPresetView
            /\ selectedIndex (snd (run w0 m0 msgs)) = selectedIndex m0
            /\ config (snd (run w0 m0 msgs)) = config m0
            /\ fst (run w0 m0 msgs) = w0) as Hrun.
  { clear. intros msgs.
    induction msgs as [| msg rest IH]; intros w0 m0 Hst H; [cbn; auto |].
    cbn [forallb] in H. apply andb_prop in H as [Hq Hrest].
    apply negb_true_iff in Hq.
    destruct (form_stays w0 m0 msg (or_intror Hst) Hq)
      as (Hs & Hi & Hc & Hw).
    rewrite run_cons, Hw.
    destruct (IH w0 (model_of (Update w0 m0 msg))) as (IH1 & IH2 & IH3 & IH4);
      [congruence | exact Hrest |].
    rewrite IH1, IH2, IH3, IH4. auto. }
  destruct (Hrun msgs (world_of r1) (model_of r1)) as (H2s & H2i & H2c & H2w);
    [now rewrite E1 | exact Hmsgs |].
  fold r2 in H2s, H2i, H2c, H2w.
  rewrite E1 in H2i, H2c, H2w. cbn [world_of model_of fst snd] in H2i, H2c, H2w.
  clearbody r2. msimpl.
  split; [now rewrite E1 |]. split; [exact Hn |].
  split; [now rewrite E1 |]. split; [now rewrite E1 |].
  split; [exact H2s |]. split; [exact H2c |]. split; [exact H2w |].
  intros Hne Hue. subst r3. unfold Update, updateKey. rewrite H2s. key_case.
  fold name url. apply nonempty_true in Hne, Hue. rewrite Hne, Hue.
  rewrite H2i, H2c. unfold len. fold l.
  apply Nat.ltb_lt in Hi. rewrite Hi. cbn [andb]. msimpl.
  rewrite ?H2w, ?H2c, ?H2i.
  match goal with
  | |- context [saveConfig w ?c] =>
    pose proof (saveConfig_persisted w c) as Hpers
  end.
  destruct (saveConfig w _) as [w' e] eqn:Hs. msimpl. rewrite Hs.
  rewrite elems_slice_set. fold l. apply Nat.ltb_lt in Hi.
  split; [reflexivity |]. split; [intros j; now apply nth_error_list_set |].
  split; [reflexivity |]. split; [reflexivity | exact Hpers].
Qed.

(** ** A configuration file that cannot be parsed *)

(** A configuration file that [loadConfig] cannot make sense of is
    replaced at startup: when [loadConfig] returns an error while the path
    is known and the file, if there is one, can be read, the error is a
    parse error; [initialModel] then writes the defaults, and when that
    succeeds the file holds them, so that [loadConfig] returns the
    defaults from then on and what the file held is lost. *)
Theorem broken_config_is_replaced_by_defaults
  (w : World) (path : string) (e : error) :
  getConfigPath w = Ok path ->
  loadConfig w = Err e ->
  (forall d, files w path <> File false d) ->
  snd (saveConfig w getDefaultConfig) = None ->
  let w1 := fst (initialModel w) in
  (exists je, e = ErrParseConfig je)
  /\ (exists data,
        json.MarshalIndent getDefaultConfig = Ok data
        /\ os_ReadFile w1 path = Some data)
  /\ loadConfig w1 = Ok getDefaultConfig
  /\ config (snd (initialModel w)) = getDefaultConfig.
Proof.
  intros Hp Hl Hf Hs w1. subst w1.
  assert (exists je, e = ErrParseConfig je) as He.
  { revert Hl. unfold loadConfig, os_IsNotExist, os_ReadFile. rewrite Hp.
    destruct (files w path) as [| [|] d] eqn:E; try discriminate.
    - destruct (json.Unmarshal d); [discriminate |]. intros [= <-]. eauto.
    - now destruct (Hf d). }
  unfold initialModel. rewrite Hl.
  destruct (saveConfig w getDefaultConfig) as [w1 e1] eqn:Hsave.
  cbn [snd fst] in *. subst e1.
  assert (exists data, os_ReadFile w1 path = Some data) as [data Hr].
  { destruct (saveConfig_success w w1 _ path Hp Hsave)
      as (dir & data0 & _ & _ & _ & _ & ->).
    unfold os_ReadFile, written. cbn [files called].
    rewrite String.eqb_refl.
    destruct (files w path) as [| [|] d] eqn:E; eauto.
    now destruct (Hf d). }
  destruct (load_after_save w w1 _ path data Hp Hsave Hr) as [Hj Hl1].
  rewrite (coerceConfig_wellFormed _ wellFormed_default) in Hl1.
  split; [exact He |]. split; [exists data; auto |]. split; [exact Hl1 |].
  reflexivity.
Qed.

End Editing.

Section Streams.

Context {L : Libs}.

(** ** One stream at a time *)

Lemma streaming_app (l l' : list Cmd) :
  List.length (filter streams (l ++ l'))
  = (List.length (filter streams l) + List.length (filter streams l'))%nat.
Proof. now rewrite filter_app, length_app. Qed.

Lemma streaming_none (l : list Cmd) :
  existsb streams l = false -> List.length (filter streams l) = 0%nat.
Proof.
  induction l as [| c l IH]; [reflexivity |].
  cbn [existsb filter]. intros H. apply orb_false_iff in H as [-> H].
  now apply IH.
Qed.

Lemma streaming_remove (l : list Cmd) (i : nat) (c : Cmd) :
  nth_error l i = Some c ->
  (List.length (filter streams (firstn i l ++ skipn (S i) l))
   + (if streams c then 1 else 0)
   = List.length (filter streams l))%nat.
Proof.
  revert i. induction l as [| a l IH]; intros i H.
  - now destruct i.
  - destruct i as [| i].
    + injection H as ->. cbn [firstn skipn app filter].
      destruct (streams c); cbn [List.length]; lia.
    + cbn [nth_error] in H. specialize (IH i H).
      change (skipn (S (S i)) (a :: l)) with (skipn (S i) l).
      cbn [firstn app filter].
      destruct (streams a); cbn [List.length]; lia.
Qed.

Ltac widgets_quiet Hq :=
  destruct Hq as (Hq1 & Hq2 & Hq3);
  repeat match goal with
         | E : list_Update ?a ?l = (_, ?c) |- _ =>
           let H := fresh in
           pose proof (streaming_none _ (Hq1 a l)) as H;
           rewrite E in H; cbn [snd] in H; clear E
         | E : textinput_Update ?a ?t = (_, ?c) |- _ =>
           let H := fresh in
           pose proof (streaming_none _ (Hq2 a t)) as H;
           rewrite E in H; cbn [snd] in H; clear E
         | E : spinner_Update ?a ?t = (_, ?c) |- _ =>
           let H := fresh in
           pose proof (streaming_none _ (Hq3 a t)) as H;
           rewrite E in H; cbn [snd] in H; clear E
         end.

(** A message that comes from no stream starts one exactly when it leads
    into the loading view. *)
Lemma start_of_stream (w : World) (m : model) (msg : Msg) :
  quiet_widgets L ->
  match msg with
  | streamURLMsg _ _ | streamEndedMsg => False
  | _ => True
  end ->
  (List.length (filter streams (atoms (cmd_of (Update w m msg))))
   + loading (state m)
   = loading (state (model_of (Update w m msg))))%nat.
Proof.
  intros Hq Hmsg.
  destruct msg as [url err | | W H | key | tag]; try contradiction.
  - cbn. lia.
  - unfold Update, updateKey, updateWidget, toggleFocus.
    destruct (state m) eqn:Hst; step_cases; msimpl; rewrite ?Hst;
      cbn [atoms app filter streams List.length loading];
      widgets_quiet Hq; lia.
  - unfold Update, updateWidget.
    destruct (state m) eqn:Hst; step_cases; msimpl; rewrite ?Hst;
      cbn [atoms app filter streams List.length loading];
      widgets_quiet Hq; lia.
Qed.

Lemma existsb_filter {A} (f : A -> bool) (l : list A) :
  existsb f l = true -> List.length (filter f l) <> 0%nat.
Proof.
  induction l as [| a l IH]; [discriminate |].
  cbn [existsb filter]. destruct (f a); [discriminate | exact IH].
Qed.

(** The resolver is started by [enter] only. When the widgets run no
    stream of their own, a key on which [Update] returns a command that
    runs the resolver or the player, alone or in a batch, or which leads
    into the loading view, is [enter]: on the URL of the highlighted
    preset, in the main menu and in the manage view, or on the text of the
    custom URL view, which is not empty. The command is then that of the
    spinner with that of the resolver, the view is the loading view, and
    the configuration and the world are as they were. *)
Theorem resolver_started_on_enter_only
  (w : World) (m : model) (key : string) :
  quiet_widgets L ->
  let r := Update w m (KeyMsg key) in
  (existsb streams (atoms (cmd_of r)) = true
   \/ (state m <> loadingView /\ state (model_of r) = loadingView)) ->
  key = "enter"
  /\ cmd_of r = tea_Batch spinner_Tick (extractStreamURL (
                  match state m with
                  | customURLView => Value (textInput m)
                  | _ => match SelectedItem (list_ m) with
                         | Some p => URL p
                         | None => ""
                         end
                  end))
  /\ state (model_of r) = loadingView
  /\ world_of r = w
  /\ config (model_of r) = config m
  /\ match state m with
     | customURLView => Value (textInput m) <> ""
     | mainMenuView | managePresetsView => SelectedItem (list_ m) <> None
     | _ => False
     end.
Proof.
  intros Hq r Hc. subst r.
  pose proof (start_of_stream w m (KeyMsg key) Hq I) as Hs.
  assert (state m <> loadingView
          /\ state (model_of (Update w m (KeyMsg key))) = loadingView)
    as [Hne Hl].
  { destruct Hc as [Hc | Hc]; [| exact Hc].
    apply existsb_filter in Hc.
    destruct (state m), (state (model_of (Update w m (KeyMsg key))));
      cbn [loading] in Hs; try lia; split; congruence. }
  clear Hc Hs. revert Hl. unfold Update.
  destruct (updateKey w m key) as [[[w' m'] c] |] eqn:Hk.
  - msimpl. intros Hl.
    destruct (updateKey_resolver w w' m m' key "" c Hk (or_intror Hl))
      as (H1 & H2 & H3 & H4 & H5 & H6).
    repeat split; assumption.
  - unfold updateWidget.
    destruct (state m) eqn:Hst; step_cases; msimpl; rewrite ?Hst;
      intros Hl; exfalso; congruence.
Qed.

Lemma deliver_in_step (s : System) (msg : Msg) :
  quiet_widgets L ->
  match msg with
  | streamURLMsg _ _ | streamEndedMsg => False
  | _ => True
  end ->
  in_step s -> in_step (deliver s msg).
Proof.
  intros Hq Hmsg H. unfold in_step, streaming, deliver in *.
  pose proof (start_of_stream (world s) (current s) msg Hq Hmsg) as Hs.
  destruct (Update (world s) (current s) msg) as [[w m] c].
  cbn [pending current cmd_of model_of fst snd] in *.
  rewrite streaming_app. lia.
Qed.

Lemma react_in_step (s : System) (ev : Event) :
  quiet_widgets L -> in_step s -> in_step (react s ev).
Proof.
  intros Hq H. destruct ev as [msg | i outcome]; cbn [react].
  - destruct msg; cbn [user]; try exact H; now apply deliver_in_step.
  - destruct (nth_error (pending s) i) as [c |] eqn:Hn; [| exact H].
    pose proof (streaming_remove _ _ _ Hn) as Hr.
    unfold in_step, streaming in H.
    destruct c; cbn [message_of streams] in *;
      try (apply deliver_in_step; [exact Hq | exact I |]);
      try (unfold in_step, streaming; cbn [pending current]; lia).
    + (* the resolver has run *)
      assert (state (current s) = loadingView) as Hst.
      { destruct (state (current s)); cbn [loading] in H; try lia.
        reflexivity. }
      unfold in_step, streaming, deliver.
      destruct outcome as [out | err]; cbn [resolved Update world current];
        cbn [pending current atoms set_state state loading];
        rewrite ?streaming_app; cbn [filter streams List.length];
        rewrite ?Hst; cbn [loading]; rewrite Hst in H; cbn [loading] in H;
        rewrite ?streaming_app in Hr; lia.
    + (* the player has ended *)
      unfold in_step, streaming, deliver, played.
      cbn [Update world current pending atoms set_state state loading].
      rewrite app_nil_r.
      destruct (state (current s)); cbn [loading] in H; lia.
Qed.

(** When the widgets run no stream of their own, then from the start and
    after every sequence of events exactly one stream is being resolved or
    played while the view is the loading view, and none while it is
    another: no second stream is started before the first has ended, and
    the messages of the resolver and of the player reach [Update] in the
    loading view only. *)
Theorem one_stream_at_a_time (w : World) (evs : list Event) :
  quiet_widgets L ->
  let s := fold_left react evs (start w) in
  streaming s = loading (state (current s))
  /\ (streaming s <= 1)%nat
  /\ (forall i c,
        nth_error (pending s) i = Some c -> streams c = true ->
        state (current s) = loadingView).
Proof.
  intros Hq s.
  assert (in_step (start w)) as H0.
  { unfold in_step, streaming, start, initialModel.
    destruct (loadConfig w); [reflexivity |].
    now destruct (saveConfig w getDefaultConfig). }
  assert (forall evs s0, in_step s0 -> in_step (fold_left react evs s0))
    as Hrun.
  { clear -Hq. intros evs.
    induction evs as [| ev evs IH]; intros s0 H0; [exact H0 |].
    cbn [fold_left]. apply IH. now apply react_in_step. }
  pose proof (Hrun evs _ H0) as H. fold s in H.
  unfold in_step in H. split; [exact H |]. split.
  - rewrite H. destruct (state (current s)); cbn; lia.
  - intros i c Hn Hc.
    pose proof (streaming_remove _ _ _ Hn) as Hr. rewrite Hc in Hr.
    unfold streaming in H.
    destruct (state (current s)); cbn [loading] in H; try lia. reflexivity.
Qed.

End Streams.



(** * The properties at work *)

(** The libraries on small inputs. *)

Example TrimSpace_ascii :
  strings.TrimSpace ("  Test " ++ String (byte 0x09) (String (byte 0x0A) ""))
  = "Test".
Proof. reflexivity. Qed.

(** A no-break space (C2 A0) before and an em space (E2 80 83) after. *)
Example TrimSpace_unicode :
  strings.TrimSpace
    (utf8.EncodeRune 0xA0 ++ "x y" ++ utf8.EncodeRune 0x2003)
  = "x y".
Proof. reflexivity. Qed.

Example TrimSpace_blank : strings.TrimSpace "   " = "".
Proof. reflexivity. Qed.

Example MarshalIndent_one :
  json.MarshalIndent
    {| Presets := Slice [{| Name := "a<b"; URL := "https://x/y" |}] |}
  = Ok ("{" ++ json.nl
        ++ "  " ++ json.quote ++ "presets" ++ json.quote ++ ": [" ++ json.nl
        ++ "    {" ++ json.nl
        ++ "      " ++ json.quote ++ "name" ++ json.quote ++ ": "
        ++ json.quote ++ "a\u" ++ "003cb" ++ json.quote ++ "," ++ json.nl
        ++ "      " ++ json.quote ++ "url" ++ json.quote ++ ": "
        ++ json.quote ++ "https://x/y" ++ json.quote ++ json.nl
        ++ "    }" ++ json.nl
        ++ "  ]" ++ json.nl
        ++ "}").
Proof. reflexivity. Qed.

Example MarshalIndent_nil :
  json.MarshalIndent {| Presets := nil_slice |}
  = Ok ("{" ++ json.nl
        ++ "  " ++ json.quote ++ "presets" ++ json.quote ++ ": null" ++ json.nl
        ++ "}").
Proof. reflexivity. Qed.

Example Unmarshal_cut_short : json.Unmarshal "{" = Err json.SyntaxError.
Proof. reflexivity. Qed.

Example Unmarshal_trailing_comma :
  json.Unmarshal ("{" ++ json.quote ++ "presets" ++ json.quote ++ ": [],}")
  = Err json.SyntaxError.
Proof. reflexivity. Qed.

Example Unmarshal_wrong_type :
  json.Unmarshal ("{" ++ json.quote ++ "presets" ++ json.quote ++ ": 3}")
  = Err json.UnmarshalTypeError.
Proof. reflexivity. Qed.

(** Keys are matched up to case, and unknown keys are skipped. *)
Example Unmarshal_fold :
  json.Unmarshal
    ("{" ++ json.quote ++ "x" ++ json.quote ++ ": [1, -2.5e+3, true], "
     ++ json.quote ++ "PRESETS" ++ json.quote ++ ": [{"
     ++ json.quote ++ "Name" ++ json.quote ++ ": "
     ++ json.quote ++ "caf" ++ utf8.EncodeRune 0xE9 ++ json.quote
     ++ "}, null]}")
  = Ok {| Presets :=
            Slice [{| Name := "caf" ++ utf8.EncodeRune 0xE9; URL := "" |};
                   {| Name := ""; URL := "" |}] |}.
Proof. reflexivity. Qed.

(** A key that comes again is decoded into what the keys before it left:
    the second array cuts the slice to one element and leaves the second
    one behind it in the backing array, where the third array finds it. *)
Example Unmarshal_again :
  let q := json.quote in
  json.Unmarshal
    ("{" ++ q ++ "presets" ++ q ++ ": [{" ++ q ++ "name" ++ q ++ ": "
     ++ q ++ "a" ++ q ++ ", " ++ q ++ "url" ++ q ++ ": " ++ q ++ "u" ++ q
     ++ "}, {" ++ q ++ "name" ++ q ++ ": " ++ q ++ "b" ++ q ++ "}], "
     ++ q ++ "presets" ++ q ++ ": [{" ++ q ++ "name" ++ q ++ ": "
     ++ q ++ "c" ++ q ++ "}], "
     ++ q ++ "presets" ++ q ++ ": [{}, {}, {}]}")
  = Ok {| Presets := Slice [{| Name := "c"; URL := "u" |};
                            {| Name := "b"; URL := "" |};
                            {| Name := ""; URL := "" |}] |}.
Proof. reflexivity. Qed.

(** The ten defaults come back as they were written. *)
Example Unmarshal_defaults :
  match json.MarshalIndent getDefaultConfig with
  | Ok data => json.Unmarshal data
  | Err e => Err e
  end = Ok getDefaultConfig.
Proof. vm_compute. reflexivity. Qed.

(** A terminal of the size [minInt] by [minInt]: the subtractions wrap
    around, the list is [maxInt - 3] rows high and the input 80 columns
    wide. *)
Example resize_wraps_around :
  let m := model_of (@Update plainLibs freshWorld startModel
                       (WindowSizeMsg minInt minInt)) in
  list_height (list_ m) = 9223372036854775804%Z
  /\ Width (textInput m) = 80%Z.
Proof. vm_compute. split; reflexivity. Qed.

(** C6 fails on the code: started on a configuration file that holds no
    preset, the program shows the manage view after [m] with nothing
    selected; there, [e] leaves the view as it is, as it needs a selected
    item, but [d] goes to the delete confirmation all the same, with [0] as
    the remembered index. *)
Theorem delete_key_on_empty_list :
  let m0 := snd (@initialModel plainLibs emptyWorld) in
  let m1 := model_of (@Update plainLibs emptyWorld m0 (KeyMsg "m")) in
  config m0 = {| Presets := Slice [] |}
  /\ state m1 = managePresetsView
  /\ items (list_ m1) = []
  /\ SelectedItem (list_ m1) = None
  /\ state (model_of (@Update plainLibs emptyWorld m1 (KeyMsg "e")))
     = managePresetsView
  /\ state (model_of (@Update plainLibs emptyWorld m1 (KeyMsg "d")))
     = deleteConfirmView
  /\ selectedIndex (model_of (@Update plainLibs emptyWorld m1 (KeyMsg "d")))
     = 0%nat.
Proof. vm_compute. repeat split. Qed.

(** [add_preset_on_enter] on the name "  Test " and the URL "https://x/y":
    the entry ("Test", "https://x/y") comes after the ten defaults, and
    the file that was written holds the eleven presets. *)
Lemma add_preset_on_enter_witness :
  let r := @Update plainLibs freshWorld addModel (KeyMsg "enter") in
  state addModel = addPresetView
  /\ elems (Presets (config (model_of r)))
     = (elems (Presets getDefaultConfig)
        ++ [{| Name := "Test"; URL := "https://x/y" |}])%list
  /\ files (world_of r) configPath = File true (textOf (config (model_of r)))
  /\ @loadConfig plainLibs (world_of r) = Ok (config (model_of r)).
Proof.
  intros r. split; [reflexivity |].
  destruct (@add_preset_on_enter plainLibs freshWorld addModel eq_refl)
    as [H _].
  destruct H as (H1 & _ & Hp & _); [split; vm_compute; discriminate |].
  split; [exact H1 |].
  destruct (Hp configDir (textOf (config (model_of r)))
              eq_refl eq_refl eq_refl eq_refl)
    as (_ & _ & _ & _ & Hl).
  destruct Hl as [Hr Hload]; [intros d; discriminate |].
  split; [vm_compute; reflexivity |].
  etransitivity; [exact Hload | vm_compute; reflexivity].
Defined.

(** [load_config_and_startup] on a file cut short: [loadConfig] returns a
    parse error and the program starts on the defaults. *)
Lemma load_config_and_startup_witness :
  @getConfigPath plainLibs malformedWorld = Ok configPath
  /\ @loadConfig plainLibs malformedWorld = Err (ErrParseConfig json.SyntaxError)
  /\ config (snd (@initialModel plainLibs malformedWorld)) = getDefaultConfig.
Proof.
  destruct (@load_config_and_startup plainLibs malformedWorld configPath eq_refl)
    as (_ & _ & H3 & H4 & H5).
  assert (@loadConfig plainLibs malformedWorld
          = Err (ErrParseConfig json.SyntaxError)) as Hl.
  { apply (H3 "{"); [reflexivity | apply H4; reflexivity]. }
  split; [reflexivity |]. split; [exact Hl |]. exact (proj1 (H5 _ Hl)).
Defined.

(** [delete_on_confirm] on the third default: nine presets are left, the
    fourth default stands at index 2, and the file that was written holds
    the nine presets. *)
Lemma delete_on_confirm_witness :
  let r := @Update plainLibs freshWorld deleteModel (KeyMsg "y") in
  let l' := elems (Presets (config (model_of r))) in
  state deleteModel = deleteConfirmView
  /\ (List.length l' + 1 = 10)%nat
  /\ nth_error l' 2
     = Some {| Name := "Synthwave Radio";
               URL := "https://www.youtube.com/watch?v=4xDzrJKXOOY" |}
  /\ files (world_of r) configPath = File true (textOf (config (model_of r)))
  /\ (exists c, @loadConfig plainLibs (world_of r) = Ok c
                /\ len (Presets c) = 9%nat).
Proof.
  intros r l'. split; [reflexivity |].
  destruct (@delete_on_confirm plainLibs freshWorld deleteModel eq_refl)
    as [H _].
  destruct (H "y" (or_introl eq_refl)) as (_ & Hdel & _).
  destruct Hdel as (_ & Hnth & Hlen & _ & Hp & _); [vm_compute; lia |].
  split; [exact Hlen |]. split; [exact (Hnth 2%nat) |].
  destruct (Hp configDir (textOf (config (model_of r)))
              eq_refl eq_refl eq_refl eq_refl)
    as (_ & _ & _ & _ & Hl).
  destruct Hl as [Hr Hload]; [intros d; discriminate |].
  split; [vm_compute; reflexivity |].
  eexists. split; [exact Hload | vm_compute; reflexivity].
Defined.



(** [loading_ignores_keys] on the quit key. *)
Lemma loading_ignores_keys_witness :
  state loadingModel = loadingView
  /\ state (model_of (@Update plainLibs freshWorld loadingModel (KeyMsg "q")))
     = loadingView.
Proof.
  split; [reflexivity |].
  exact (proj1 (proj1 (@loading_ignores_keys plainLibs freshWorld loadingModel
                         eq_refl) "q")).
Defined.

(** [save_result_is_discarded] on the same add in a world where no file
    can be opened for writing: the model holds eleven presets, the view is
    the manage view, no command is returned, and no configuration file
    stands on the disk. *)
Lemma save_result_is_discarded_witness :
  mutates addModel "enter" = true
  /\ (let r := @Update plainLibs brokenWorld addModel (KeyMsg "enter") in
      List.length (elems (Presets (config (model_of r)))) = 11%nat
      /\ state (model_of r) = managePresetsView
      /\ cmd_of r = nil_Cmd
      /\ files (world_of r) configPath = Absent).
Proof.
  split; [reflexivity |].
  destruct (@save_result_is_discarded plainLibs brokenWorld addModel "enter"
              eq_refl) as (_ & Hadd & _ & _ & _ & Hst & _ & Hc & _ & Hf).
  split; [exact (f_equal (@List.length Preset) (Hadd eq_refl)) |].
  split; [exact Hst |]. split; [exact Hc |].
  destruct (Hf ErrWriteConfig eq_refl) as [_ Hw].
  destruct (Hw eq_refl)
    as (path & data & Hp & _ & _ & [[_ Hsame] | (n & rd & Hn & _)]).
  - injection Hp as <-. exact Hsame.
  - discriminate Hn.
Defined.

(** The same add where the write breaks off after twelve bytes: the model
    holds eleven presets; the configuration file holds the twelve bytes,
    which [loadConfig] cannot parse, so that the next start puts the
    defaults in the place of the eleven. *)
Example add_on_a_write_that_breaks_off :
  let r := @Update plainLibs crampedWorld addModel (KeyMsg "enter") in
  len (Presets (config (model_of r))) = 11%nat
  /\ files (world_of r) configPath
     = File true ("{" ++ json.nl ++ "  " ++ json.quote ++ "presets")
  /\ @loadConfig plainLibs (world_of r) = Err (ErrParseConfig json.SyntaxError)
  /\ config (snd (@initialModel plainLibs (world_of r))) = getDefaultConfig.
Proof. vm_compute. repeat split. Qed.

(** [custom_url_on_enter] on a text of three spaces. *)
Lemma custom_url_on_enter_witness :
  state blankModel = customURLView
  /\ Value (textInput blankModel) = "   "
  /\ (let r := @Update plainLibs freshWorld blankModel (KeyMsg "enter") in
      state (model_of r) = loadingView
      /\ cmd_of r = tea_Batch spinner_Tick (extractStreamURL "   ")).
Proof.
  split; [reflexivity |]. split; [reflexivity |].
  destruct (@custom_url_on_enter plainLibs freshWorld blankModel eq_refl)
    as [H _].
  destruct H as (H1 & H2 & _); [vm_compute; discriminate |].
  split; [exact H1 | exact H2].
Defined.

(** [save_after_load_is_stable] after a preset was added through the
    form: the file holds the eleven presets, [loadConfig] returns them, and
    saving them again leaves the file as it is. *)
Lemma save_after_load_is_stable_witness :
  let msgs := [KeyMsg "m"; KeyMsg "a"; KeyMsg "T"; KeyMsg "tab";
               KeyMsg "u"; KeyMsg "enter"] in
  let c := config (snd (@run plainLibs
                          (fst (@initialModel plainLibs freshWorld))
                          (snd (@initialModel plainLibs freshWorld)) msgs)) in
  let w1 := fst (@saveConfig plainLibs freshWorld c) in
  @getConfigPath plainLibs freshWorld = Ok configPath
  /\ @saveConfig plainLibs freshWorld c = (w1, None)
  /\ os_ReadFile w1 configPath = Some (textOf c)
  /\ len (Presets c) = 11%nat
  /\ @loadConfig plainLibs w1 = Ok c
  /\ files (fst (@saveConfig plainLibs w1 c)) configPath = files w1 configPath.
Proof.
  intros msgs c w1.
  split; [reflexivity |]. split; [reflexivity |]. split; [reflexivity |].
  split; [reflexivity |].
  destruct (@save_after_load_is_stable plainLibs freshWorld msgs freshWorld
              w1 configPath (textOf c) eq_refl eq_refl eq_refl)
    as (_ & c1 & Hl & -> & _ & _ & Hf).
  split; [exact Hl | exact Hf].
Defined.

(** [edit_preset_on_enter] on the third default, renamed: the file that
    was written holds the new name. *)
Lemma edit_preset_on_enter_witness :
  let m := typed editPresetView "" " Jazz " "https://x/y" deleteModel in
  let r := @Update plainLibs freshWorld m (KeyMsg "enter") in
  state m = editPresetView
  /\ nth_error (elems (Presets (config (model_of r)))) 2
     = Some {| Name := "Jazz"; URL := "https://x/y" |}
  /\ files (world_of r) configPath = File true (textOf (config (model_of r)))
  /\ @loadConfig plainLibs (world_of r) = Ok (config (model_of r)).
Proof.
  intros m r. split; [reflexivity |].
  destruct (@edit_preset_on_enter plainLibs freshWorld m eq_refl) as [H _].
  destruct H as (Hnth & _ & _ & Hp & _).
  - repeat split; vm_compute; try discriminate. lia.
  - split; [exact (Hnth 2%nat) |].
    destruct (Hp configDir (textOf (config (model_of r)))
                eq_refl eq_refl eq_refl eq_refl)
      as (_ & _ & _ & _ & Hl).
    destruct Hl as [Hr Hload]; [intros d; discriminate |].
    split; [vm_compute; reflexivity |].
    etransitivity; [exact Hload | vm_compute; reflexivity].
Defined.

(** [restore_defaults_on_confirm] after the add of [addModel]: the file,
    which held the eleven presets, holds the ten defaults. *)
Lemma restore_defaults_on_confirm_witness :
  let r0 := @Update plainLibs freshWorld addModel (KeyMsg "enter") in
  let m := set_state restoreDefaultsConfirmView (model_of r0) in
  let r := @Update plainLibs (world_of r0) m (KeyMsg "y") in
  state m = restoreDefaultsConfirmView
  /\ len (Presets (config m)) = 11%nat
  /\ @loadConfig plainLibs (world_of r0) = Ok (config m)
  /\ config (model_of r) = getDefaultConfig
  /\ @loadConfig plainLibs (world_of r) = Ok getDefaultConfig.
Proof.
  intros r0 m r. split; [reflexivity |]. split; [reflexivity |].
  split; [vm_compute; reflexivity |].
  destruct (proj1 (@restore_defaults_on_confirm plainLibs (world_of r0) m
                     eq_refl) "y" (or_introl eq_refl))
    as (Hc & _ & _ & _ & Hp & _).
  split; [exact Hc |].
  destruct (Hp configDir (textOf getDefaultConfig)
              eq_refl eq_refl eq_refl eq_refl)
    as (_ & _ & _ & _ & Hl).
  destruct Hl as [Hr Hload]; [intros d; vm_compute; discriminate |].
  etransitivity; [exact Hload | vm_compute; reflexivity].
Defined.

(** The plain libraries do what the properties above take the libraries to
    do. *)
Lemma plain_keeps_items : keeps_items plainLibs.
Proof.
  intros msg l. destruct msg; try reflexivity.
  cbn [list_Update plainLibs plain_list_Update].
  destruct (key_is key ["up"; "k"]); [reflexivity |].
  destruct (key_is key ["down"; "j"]); [reflexivity |].
  destruct (negb _ && _); reflexivity.
Qed.

Lemma plain_keeps_focus : keeps_focus plainLibs.
Proof.
  intros msg t. destruct msg; try reflexivity.
  cbn [textinput_Update plainLibs plain_textinput_Update].
  destruct (focus t && _); reflexivity.
Qed.

(** [play_cycle] on the first default, from the main menu: the resolver
    gets its URL and the player the output of the resolver, trimmed. *)
Lemma play_cycle_witness :
  (state startModel = mainMenuView \/ state startModel = managePresetsView)
  /\ SelectedItem (list_ startModel)
     = Some {| Name := "Lofi Girl - Study";
               URL := "https://www.youtube.com/watch?v=jfKfPfyJRdk" |}
  /\ (let r1 := @Update plainLibs freshWorld startModel (KeyMsg "enter") in
      let r2 := @Update plainLibs (world_of r1) (model_of r1)
                  (resolved (Ok ("https://s/1" ++ LF))) in
      cmd_of r1
      = tea_Batch spinner_Tick
          (extractStreamURL "https://www.youtube.com/watch?v=jfKfPfyJRdk")
      /\ cmd_of r2 = playMPV "https://s/1").
Proof.
  split; [left; reflexivity |]. split; [reflexivity |].
  destruct (@play_cycle plainLibs freshWorld startModel
              (or_introl eq_refl)) as [H _].
  destruct (H _ ("https://s/1" ++ LF) None eq_refl)
    as (_ & _ & H1 & _ & H2 & _).
  split; [exact H1 | exact H2].
Defined.

(** [add_form_opens_empty] after a name was typed and the form left. *)
Lemma add_form_opens_empty_witness :
  state (set_state managePresetsView addModel) = managePresetsView
  /\ Value (nameInput addModel) = "  Test "
  /\ Value (nameInput (model_of
       (@Update plainLibs freshWorld (set_state managePresetsView addModel)
          (KeyMsg "a")))) = "".
Proof.
  split; [reflexivity |]. split; [reflexivity |].
  destruct (@add_form_opens_empty plainLibs freshWorld
              (set_state managePresetsView addModel) eq_refl)
    as (_ & H & _).
  exact H.
Defined.

(** [list_mirrors_config] after an add through the form. *)
Lemma list_mirrors_config_witness :
  keeps_items plainLibs
  /\ (let m := snd (@run plainLibs
                      (fst (@initialModel plainLibs freshWorld))
                      (snd (@initialModel plainLibs freshWorld))
                      [KeyMsg "m"; KeyMsg "a"; KeyMsg "x"; KeyMsg "tab";
                       KeyMsg "y"; KeyMsg "enter"]) in
      List.length (elems (Presets (config m))) = 11%nat
      /\ items (list_ m) = elems (Presets (config m))).
Proof.
  split; [exact plain_keeps_items |].
  split; [reflexivity |].
  exact (proj1 (@list_mirrors_config plainLibs freshWorld
                  [KeyMsg "m"; KeyMsg "a"; KeyMsg "x"; KeyMsg "tab";
                   KeyMsg "y"; KeyMsg "enter"] plain_keeps_items)).
Defined.

(** [form_focus_follows_tab] in the add form after one [tab]. *)
Lemma form_focus_follows_tab_witness :
  keeps_focus plainLibs
  /\ (let m := snd (@run plainLibs
                      (fst (@initialModel plainLibs freshWorld))
                      (snd (@initialModel plainLibs freshWorld))
                      [KeyMsg "m"; KeyMsg "a"; KeyMsg "tab"]) in
      state m = addPresetView
      /\ focusedInput m = 1%nat
      /\ focus (urlInput m) = negb (focusedInput m =? 0)%nat).
Proof.
  split; [exact plain_keeps_focus |].
  split; [reflexivity |]. split; [reflexivity |].
  exact (proj2 (proj2 (@form_focus_follows_tab plainLibs freshWorld
                         [KeyMsg "m"; KeyMsg "a"; KeyMsg "tab"]
                         plain_keeps_focus (or_introl eq_refl)))).
Defined.

(** [only_the_config_file_is_written] on an add: the directory is created,
    then the file written. *)
Lemma only_the_config_file_is_written_witness :
  @getConfigPath plainLibs freshWorld = Ok configPath
  /\ (let w := fst (@run plainLibs freshWorld addModel [KeyMsg "enter"]) in
      List.length (calls w) = 2%nat
      /\ files w "/home/u/.bashrc" = files freshWorld "/home/u/.bashrc").
Proof.
  split; [reflexivity |]. split; [reflexivity |].
  destruct (@only_the_config_file_is_written plainLibs freshWorld configPath
              eq_refl) as [_ H].
  apply H. discriminate.
Defined.

(** [no_home_no_disk]: an add in a world without a home directory. *)
Lemma no_home_no_disk_witness :
  UserHomeDir homelessWorld = None
  /\ config (snd (@initialModel plainLibs homelessWorld)) = getDefaultConfig
  /\ fst (@run plainLibs homelessWorld addModel [KeyMsg "enter"])
     = homelessWorld.
Proof.
  split; [reflexivity |].
  destruct (@no_home_no_disk plainLibs homelessWorld eq_refl)
    as (_ & _ & _ & _ & H1 & H2).
  split; [exact H1 | apply H2].
Defined.

(** [startup_shows_loaded_presets] on a configuration file that holds no
    preset: the list is empty and nothing is written. *)
Lemma startup_shows_loaded_presets_witness :
  @loadConfig plainLibs emptyWorld = Ok {| Presets := Slice [] |}
  /\ fst (@initialModel plainLibs emptyWorld) = emptyWorld
  /\ items (list_ (snd (@initialModel plainLibs emptyWorld))) = [].
Proof.
  split; [reflexivity |].
  destruct (@startup_shows_loaded_presets plainLibs emptyWorld _ eq_refl)
    as (H1 & _ & H2 & _).
  split; [exact H1 | exact H2].
Defined.

(** [delete_removes_the_highlighted_preset] on the second default: the
    file that was written holds the nine presets left. *)
Lemma delete_removes_the_highlighted_preset_witness :
  let r1 := @Update plainLibs freshWorld managingModel (KeyMsg "d") in
  let r2 := @Update plainLibs (world_of r1) (model_of r1) (KeyMsg "y") in
  state managingModel = managePresetsView
  /\ ready managingModel = true
  /\ SelectedItem (list_ managingModel)
     = Some {| Name := "Lofi Girl - Sleep";
               URL := "https://www.youtube.com/watch?v=DWcJFNfaw9c" |}
  /\ @View plainScreen (model_of r1)
     = "[196]Delete preset 'Lofi Girl - Sleep'?" ++ LF ++ LF
       ++ "Press Y to confirm • N to cancel"
  /\ map Name (firstn 2 (elems (Presets (config (model_of r2)))))
     = ["Lofi Girl - Study"; "Lofi Girl - Jazz"]
  /\ @loadConfig plainLibs (world_of r2) = Ok (config (model_of r2)).
Proof.
  intros r1 r2.
  split; [reflexivity |]. split; [reflexivity |]. split; [reflexivity |].
  destruct (@delete_removes_the_highlighted_preset plainLibs plainScreen
              freshWorld managingModel _ "d" eq_refl eq_refl eq_refl eq_refl
              (or_introl eq_refl))
    as (_ & _ & H1 & _ & H2 & _ & _ & _ & Hp & _).
  split; [exact H1 |].
  split; [exact (f_equal (fun l => map Name (firstn 2 l)) H2) |].
  destruct (Hp configDir (textOf (config (model_of r2)))
              eq_refl eq_refl eq_refl eq_refl)
    as (_ & _ & _ & _ & Hl).
  destruct Hl as [Hr Hload]; [intros d; discriminate |].
  etransitivity; [exact Hload | vm_compute; reflexivity].
Defined.

(** [loaded_configuration_is_valid] on a file with an ill-formed byte:
    the name loaded is U+FFFD. *)
Lemma loaded_configuration_is_valid_witness :
  @loadConfig plainLibs rawWorld
  = Ok {| Presets := Slice [{| Name := json.replacement; URL := "" |}] |}
  /\ json.wellFormed
       {| Presets := Slice [{| Name := json.replacement; URL := "" |}] |}
     = true.
Proof.
  split; [reflexivity |].
  exact (proj1 (@loaded_configuration_is_valid plainLibs rawWorld _ eq_refl)).
Defined.

(** [stored_entries_are_trimmed] on the add of [addModel]. *)
Lemma stored_entries_are_trimmed_witness :
  (state addModel = addPresetView \/ state addModel = editPresetView)
  /\ mutates addModel "enter" = true
  /\ nth_error
       (elems (Presets (config (model_of
          (@Update plainLibs freshWorld addModel (KeyMsg "enter")))))) 10
     = Some {| Name := "Test"; URL := "https://x/y" |}.
Proof.
  split; [left; reflexivity |]. split; [reflexivity |].
  destruct (@stored_entries_are_trimmed plainLibs freshWorld addModel
              (or_introl eq_refl) eq_refl) as (p & Hn & -> & _).
  exact Hn.
Defined.

(** [delete_on_nothing_is_harmless] over a configuration with no
    preset. *)
Lemma delete_on_nothing_is_harmless_witness :
  state emptyModel = managePresetsView
  /\ SelectedItem (list_ emptyModel) = None
  /\ (let r1 := @Update plainLibs emptyWorld emptyModel (KeyMsg "d") in
      let r2 := @Update plainLibs (world_of r1) (model_of r1) (KeyMsg "y") in
      state (model_of r1) = deleteConfirmView
      /\ config (model_of r2) = config emptyModel
      /\ world_of r2 = emptyWorld).
Proof.
  split; [reflexivity |]. split; [reflexivity |].
  destruct (@delete_on_nothing_is_harmless plainLibs plainScreen emptyWorld
              emptyModel "d" eq_refl eq_refl eq_refl (or_introl eq_refl))
    as (H1 & _ & _ & H2 & _ & H3 & _).
  split; [exact H1 |]. split; [exact H2 | exact H3].
Defined.

(** [changes_survive_restart] on a preset typed into the add form: after a
    restart the configuration holds eleven presets. *)
Lemma changes_survive_restart_witness :
  let msgs := [KeyMsg "m"; KeyMsg "a"; KeyMsg "T"; KeyMsg "tab";
               KeyMsg "u"] in
  let w0 := fst (@run plainLibs (fst (@initialModel plainLibs freshWorld))
                   (snd (@initialModel plainLibs freshWorld)) msgs) in
  let m := snd (@run plainLibs (fst (@initialModel plainLibs freshWorld))
                  (snd (@initialModel plainLibs freshWorld)) msgs) in
  let r := @Update plainLibs w0 m (KeyMsg "enter") in
  mutates m "enter" = true
  /\ @getConfigPath plainLibs w0 = Ok configPath
  /\ nth_error (elems (Presets (config (model_of r)))) 10
     = Some {| Name := "T"; URL := "u" |}
  /\ config (snd (@initialModel plainLibs (world_of r)))
     = config (model_of r).
Proof.
  intros msgs w0 m r.
  split; [reflexivity |]. split; [reflexivity |]. split; [reflexivity |].
  destruct (@changes_survive_restart plainLibs freshWorld msgs "enter"
              configPath eq_refl eq_refl) as (_ & _ & H & _).
  - intros d. discriminate.
  - reflexivity.
  - exact H.
Defined.

(** [unsaved_changes_are_lost_at_restart] on an add where no file can be
    opened for writing: a restart finds the ten defaults. Where the write
    breaks off after twelve bytes, the file holds the twelve bytes and
    [loadConfig] cannot parse them. *)
Lemma unsaved_changes_are_lost_at_restart_witness :
  let r := @Update plainLibs brokenWorld addModel (KeyMsg "enter") in
  let r' := @Update plainLibs crampedWorld addModel (KeyMsg "enter") in
  mutates addModel "enter" = true
  /\ len (Presets (config (model_of r))) = 11%nat
  /\ snd (@saveConfig plainLibs brokenWorld (config (model_of r)))
     = Some ErrWriteConfig
  /\ config (snd (@initialModel plainLibs (world_of r))) = getDefaultConfig
  /\ snd (@saveConfig plainLibs crampedWorld (config (model_of r')))
     = Some ErrWriteConfig
  /\ os_ReadFile (world_of r') configPath
     = Some (take 12 (textOf (config (model_of r'))))
  /\ @loadConfig plainLibs (world_of r')
     = Err (ErrParseConfig json.SyntaxError).
Proof.
  intros r r'.
  split; [reflexivity |]. split; [reflexivity |]. split; [reflexivity |].
  destruct (@unsaved_changes_are_lost_at_restart plainLibs brokenWorld addModel
              "enter" ErrWriteConfig eq_refl eq_refl) as [H _].
  destruct H as (_ & _ & H); [intros _ path data _ _; reflexivity |].
  split; [exact (f_equal config H) |]. split; [reflexivity |].
  destruct (@unsaved_changes_are_lost_at_restart plainLibs crampedWorld
              addModel "enter" ErrWriteConfig eq_refl eq_refl) as [_ H'].
  destruct (H' eq_refl configPath (textOf (config (model_of r'))) 12%nat
              eq_refl eq_refl eq_refl) as (_ & _ & Hread).
  destruct Hread as [Hr Hl]; [intros d; discriminate |].
  split; [exact Hr |].
  refine (proj1 (Hl _)). apply Nat.ltb_lt. vm_compute. reflexivity.
Defined.

(** [edit_replaces_the_highlighted_preset] on the second default, renamed
    by typing one letter after its name: the file that was written holds
    the new name. *)
Lemma edit_replaces_the_highlighted_preset_witness :
  let r1 := @Update plainLibs freshWorld managingModel (KeyMsg "e") in
  let r2 := @run plainLibs (world_of r1) (model_of r1) [KeyMsg "y"] in
  let r3 := @Update plainLibs (fst r2) (snd r2) (KeyMsg "enter") in
  state managingModel = managePresetsView
  /\ SelectedItem (list_ managingModel)
     = Some {| Name := "Lofi Girl - Sleep";
               URL := "https://www.youtube.com/watch?v=DWcJFNfaw9c" |}
  /\ nth_error (elems (Presets (config (model_of r3)))) 1
     = Some {| Name := "Lofi Girl - Sleepy";
               URL := "https://www.youtube.com/watch?v=DWcJFNfaw9c" |}
  /\ @loadConfig plainLibs (world_of r3) = Ok (config (model_of r3)).
Proof.
  intros r1 r2 r3.
  split; [reflexivity |]. split; [reflexivity |].
  destruct (@edit_replaces_the_highlighted_preset plainLibs freshWorld
              managingModel _ [KeyMsg "y"] eq_refl eq_refl eq_refl eq_refl)
    as (_ & _ & _ & _ & _ & _ & _ & H).
  destruct H as (_ & H & _ & _ & Hp); [vm_compute; discriminate ..|].
  split; [exact (H 1%nat) |].
  destruct (Hp configDir (textOf (config (model_of r3)))
              eq_refl eq_refl eq_refl eq_refl)
    as (_ & _ & _ & _ & Hl).
  destruct Hl as [Hr Hload]; [intros d; discriminate |].
  etransitivity; [exact Hload | vm_compute; reflexivity].
Defined.

(** [broken_config_is_replaced_by_defaults] on a file cut short. *)
Lemma broken_config_is_replaced_by_defaults_witness :
  @getConfigPath plainLibs malformedWorld = Ok configPath
  /\ @loadConfig plainLibs malformedWorld
     = Err (ErrParseConfig json.SyntaxError)
  /\ @loadConfig plainLibs (fst (@initialModel plainLibs malformedWorld))
     = Ok getDefaultConfig.
Proof.
  split; [reflexivity |]. split; [reflexivity |].
  destruct (@broken_config_is_replaced_by_defaults plainLibs malformedWorld
              configPath _ eq_refl eq_refl) as (_ & _ & H & _).
  - intros d. unfold malformedWorld, worldWith. cbn. discriminate.
  - reflexivity.
  - exact H.
Defined.

Lemma plain_quiet_widgets : quiet_widgets plainLibs.
Proof.
  split; [| split]; intros msg x; destruct msg; try reflexivity;
    cbn [list_Update textinput_Update spinner_Update plainLibs
         plain_list_Update plain_textinput_Update plain_spinner_Update].
  - destruct (key_is key ["up"; "k"]); [reflexivity |].
    destruct (key_is key ["down"; "j"]); [reflexivity |].
    destruct (negb _ && _); reflexivity.
  - destruct (focus x && _); reflexivity.
Qed.

(** [resolver_started_on_enter_only] on the same step. *)
Lemma resolver_started_on_enter_only_witness :
  quiet_widgets plainLibs
  /\ cmd_of (@Update plainLibs freshWorld startModel (KeyMsg "enter"))
     = tea_Batch spinner_Tick
         (extractStreamURL "https://www.youtube.com/watch?v=jfKfPfyJRdk")
  /\ SelectedItem (list_ startModel) <> None.
Proof.
  split; [exact plain_quiet_widgets |].
  destruct (@resolver_started_on_enter_only plainLibs freshWorld startModel
              "enter" plain_quiet_widgets (or_introl eq_refl))
    as (_ & H1 & _ & _ & _ & H2).
  split; [exact H1 | exact H2].
Defined.

Lemma plain_never_quit : widgets_never_quit plainLibs.
Proof.
  split; [| split]; [intros msg l Hd | intros msg x | intros msg x];
    destruct msg; try (split; [reflexivity | exact Hd]); try reflexivity;
    cbn [list_Update textinput_Update spinner_Update plainLibs
         plain_list_Update plain_textinput_Update plain_spinner_Update].
  - rewrite Hd. cbn [negb andb].
    destruct (key_is key ["up"; "k"]); [split; reflexivity |].
    destruct (key_is key ["down"; "j"]); split; try reflexivity; exact Hd.
  - destruct (focus x && _); reflexivity.
Qed.

(** [quit_needs_confirmation] in the manage view, where [q] and [ctrl+c]
    reach the list: nothing quits, while a new list, whose quit keys are
    as [list.New] leaves them, quits on [esc]. *)
Lemma quit_needs_confirmation_witness :
  widgets_never_quit plainLibs
  /\ state managingModel = managePresetsView
  /\ disableQuitKeybindings (list_ managingModel) = true
  /\ (forall key,
        existsb quits
          (atoms (cmd_of (@Update plainLibs freshWorld managingModel
                            (KeyMsg key)))) = false)
  /\ snd (plain_list_Update (KeyMsg "esc") (list_New [] 20 0)) = tea_Quit.
Proof.
  split; [exact plain_never_quit |]. split; [reflexivity |].
  destruct (@quit_needs_confirmation plainLibs freshWorld managingModel
              plain_never_quit) as (_ & _ & _ & _ & Hd & H).
  split; [exact (Hd freshWorld
                   [WindowSizeMsg 100 40; KeyMsg "m"; KeyMsg "down"]) |].
  split; [| reflexivity].
  intros key.
  destruct (existsb quits
              (atoms (cmd_of (@Update plainLibs freshWorld managingModel
                                (KeyMsg key))))) eqn:E; [| reflexivity].
  destruct (H (Hd freshWorld
                 [WindowSizeMsg 100 40; KeyMsg "m"; KeyMsg "down"])
              (KeyMsg key) E) as [Hst _].
  discriminate Hst.
Defined.

(** [one_stream_at_a_time]: a preset is chosen, keys are pressed while it
    is resolved, the resolver answers, and the player is the one stream
    that runs. *)
Lemma one_stream_at_a_time_witness :
  quiet_widgets plainLibs
  /\ (let s := fold_left (@react plainLibs)
                 [Input (KeyMsg "enter"); Input (KeyMsg "enter");
                  Input (KeyMsg "q"); Done 1 (Ok "https://s/1")]
                 (@start plainLibs freshWorld) in
      filter streams (pending s) = [playMPV "https://s/1"]
      /\ streaming s = 1%nat
      /\ state (current s) = loadingView).
Proof.
  split; [exact plain_quiet_widgets |].
  split; [reflexivity |].
  destruct (@one_stream_at_a_time plainLibs freshWorld
              [Input (KeyMsg "enter"); Input (KeyMsg "enter");
               Input (KeyMsg "q"); Done 1 (Ok "https://s/1")]
              plain_quiet_widgets) as (H1 & _ & H2).
  split; [exact H1 |]. exact (H2 1%nat (playMPV "https://s/1") eq_refl eq_refl).
Defined.

